(** * Connection.ts: the request coordinator, the subscription registries
      and the connection lifecycle of the socket client

    The development follows src/src/Connection.ts.  JavaScript objects used
    as dictionaries are finite maps, strings are [string], callbacks are
    identified by a number (the source compares them with [===]), and every
    effect on the outside world (socket emits, callback invocations) is
    recorded in an explicit log. *)

From stdpp Require Import gmap strings list fin_maps.
From Stdlib Require Import Ascii.

Set Default Proof Using "Type".
Local Open Scope char_scope.
Local Open Scope stdpp_scope.

(** ** Strings as sequences of code units *)

Fixpoint chars (s : string) : list ascii :=
  match s with
  | EmptyString => []
  | String a s' => a :: chars s'
  end.

Fixpoint unchars (l : list ascii) : string :=
  match l with
  | [] => EmptyString
  | a :: l' => String a (unchars l')
  end.

(** [s.replace(/c/g, r)] for a pattern that is one literal character. *)
Fixpoint replace_all (c : ascii) (r : string) (s : string) : string :=
  match s with
  | EmptyString => EmptyString
  | String a s' =>
      if Ascii.eqb a c then r +:+ replace_all c r s'
      else String a (replace_all c r s')
  end.

(** [s.includes(c)], which is also [s.indexOf(c) !== -1]. *)
Fixpoint includes (c : ascii) (s : string) : bool :=
  match s with
  | EmptyString => false
  | String a s' => Ascii.eqb a c || includes c s'
  end.

(** ** Pattern compilation (subscribeState, subscribeObject) *)

Module Pattern.

(** The source text handed to [new RegExp] by [subscribeState]. *)
Definition state_source (id : string) : string :=
  let reg :=
    replace_all "[" "\["
      (replace_all "+" "\+"
        (replace_all ")" "\)"
          (replace_all "(" "\("
            (replace_all "*" ".*"
              (replace_all "." "\." id))))) in
  if includes "*" reg then reg else reg +:+ "$".

(** The source text handed to [new RegExp] by [subscribeObject]. *)
Definition object_source (id : string) : string :=
  let reg := replace_all "*" ".*" (replace_all "." "\." id) in
  if negb (includes "*" reg) then reg +:+ "$" else reg.

(** What one character of a state pattern becomes. *)
Definition state_char (a : ascii) : list ascii :=
  if Ascii.eqb a "." then ["\"; "."]%char
  else if Ascii.eqb a "*" then ["."; "*"]%char
  else if Ascii.eqb a "(" then ["\"; "("]%char
  else if Ascii.eqb a ")" then ["\"; ")"]%char
  else if Ascii.eqb a "+" then ["\"; "+"]%char
  else if Ascii.eqb a "[" then ["\"; "["]%char
  else [a].

(** What one character of an object pattern becomes. *)
Definition object_char (a : ascii) : list ascii :=
  if Ascii.eqb a "." then ["\"; "."]%char
  else if Ascii.eqb a "*" then ["."; "*"]%char
  else [a].

Definition anchor (id : string) : list ascii :=
  if includes "*" id then [] else ["$"]%char.

End Pattern.

(** ** The fragment of JavaScript regular expressions the compiled
       patterns live in

    Atoms are a literal character (a non-syntax character, or a syntax
    character behind a backslash) and the dot; an atom may carry one of the
    greedy quantifiers [*], [+], [?]; [$] is the end assertion.  Sources
    using anything else (groups, classes, alternation, [^], braces, other
    escapes, lazy quantifiers) are outside the fragment and [parse] gives
    [None] for them. *)

Module Regex.

Inductive atom := AChar (c : ascii) | AAny.
Inductive term :=
| TAtom (a : atom) | TStar (a : atom) | TPlus (a : atom) | TOpt (a : atom)
| TEnd.

Inductive token :=
| KLit (c : ascii) | KDot | KStar | KPlus | KQuest | KDollar.

(** SyntaxCharacter of the ECMAScript pattern grammar. *)
Definition syntax_char (c : ascii) : bool :=
  bool_decide (c ∈ chars "^$\.*+?()[]{}|").

Fixpoint tokenize (s : list ascii) : option (list token) :=
  match s with
  | [] => Some []
  | "\"%char :: c :: rest =>
      if syntax_char c then cons (KLit c) <$> tokenize rest else None
  | "."%char :: rest => cons KDot <$> tokenize rest
  | "*"%char :: rest => cons KStar <$> tokenize rest
  | "+"%char :: rest => cons KPlus <$> tokenize rest
  | "?"%char :: rest => cons KQuest <$> tokenize rest
  | "$"%char :: rest => cons KDollar <$> tokenize rest
  | c :: rest =>
      if syntax_char c then None else cons (KLit c) <$> tokenize rest
  end.

Definition atom_of (k : token) : option atom :=
  match k with
  | KLit c => Some (AChar c)
  | KDot => Some AAny
  | _ => None
  end.

Fixpoint build (ks : list token) : option (list term) :=
  match ks with
  | [] => Some []
  | KDollar :: rest => cons TEnd <$> build rest
  | k :: rest =>
      match atom_of k with
      | None => None
      | Some a =>
          match rest with
          | KStar :: rest' => cons (TStar a) <$> build rest'
          | KPlus :: rest' => cons (TPlus a) <$> build rest'
          | KQuest :: rest' => cons (TOpt a) <$> build rest'
          | _ => cons (TAtom a) <$> build rest
          end
      end
  end.

Definition parse (src : string) : option (list term) :=
  tokenize (chars src) ≫= build.

(** Without the [s] flag the dot skips line terminators. *)
Definition line_terminator (c : ascii) : bool :=
  match c with ("010" | "013")%char => true | _ => false end.

Definition atom_ok (a : atom) (c : ascii) : bool :=
  match a with
  | AChar x => Ascii.eqb x c
  | AAny => negb (line_terminator c)
  end.

(** [a*] followed by the continuation [k]. *)
Fixpoint star_here (a : atom) (k : list ascii → bool) (s : list ascii) : bool :=
  k s ||
  match s with
  | c :: s' => atom_ok a c && star_here a k s'
  | [] => false
  end.

(** Does the term sequence match a prefix of [s]? *)
Fixpoint match_here (r : list term) (s : list ascii) : bool :=
  match r with
  | [] => true
  | TEnd :: r' => match s with [] => match_here r' [] | _ => false end
  | TAtom a :: r' =>
      match s with
      | c :: s' => atom_ok a c && match_here r' s'
      | [] => false
      end
  | TStar a :: r' => star_here a (match_here r') s
  | TPlus a :: r' =>
      match s with
      | c :: s' => atom_ok a c && star_here a (match_here r') s'
      | [] => false
      end
  | TOpt a :: r' =>
      match_here r' s ||
      match s with
      | c :: s' => atom_ok a c && match_here r' s'
      | [] => false
      end
  end.

(** [RegExp.prototype.test] without flags: a match may start anywhere. *)
Fixpoint search (r : list term) (s : list ascii) : bool :=
  match_here r s ||
  match s with
  | _ :: s' => search r s'
  | [] => false
  end.

(** [new RegExp(src).test(id)], [None] outside the fragment. *)
Definition test (src id : string) : option bool :=
  r ← parse src; Some (search r (chars id)).

End Regex.

(** The two registries compile their patterns separately. *)
Inductive registry := StateRegistry | ObjectRegistry.

Definition source (k : registry) : string → string :=
  match k with
  | StateRegistry => Pattern.state_source
  | ObjectRegistry => Pattern.object_source
  end.

Definition translate (k : registry) : ascii → list ascii :=
  match k with
  | StateRegistry => Pattern.state_char
  | ObjectRegistry => Pattern.object_char
  end.

(** Characters of a pattern that end up as a literal of the compiled
    expression: everything but the wildcard and the syntax characters the
    registry leaves unescaped. *)
Definition literal_in (k : registry) (c : ascii) : bool :=
  match k with
  | StateRegistry => negb (bool_decide (c ∈ chars "^$\*?]{}|"))
  | ObjectRegistry => negb (bool_decide (c ∈ chars "^$\*+?()[]{}|"))
  end.

(** [id.endsWith(p)] *)
Definition ends_with (id p : string) : Prop := ∃ pre : string, id = pre +:+ p.

(** ** JSON data

    Documents that travel over the socket are JSON trees; the fields of an
    object keep their order, as [JSON.stringify] prints them in it. *)

Local Unset Elimination Schemes.
Inductive json :=
| JNull
| JBool (b : bool)
| JNum (n : Z)
| JStr (s : string)
| JArr (items : list json)
| JObj (fields : list (string * json)).
Local Set Elimination Schemes.

(** An ioBroker object or state document: the fields of a JSON object. *)
Abbreviation doc := (list (string * json)) (only parsing).

(** JavaScript truthiness of a JSON value. *)
Definition truthy (j : json) : bool :=
  match j with
  | JNull => false
  | JBool b => b
  | JNum n => negb (n =? 0)%Z
  | JStr EmptyString => false
  | _ => true
  end.

(** [d.k]; [None] is [undefined]. *)
Fixpoint get_field (k : string) (d : doc) : option json :=
  match d with
  | [] => None
  | (k', v) :: d' => if bool_decide (k' = k) then Some v else get_field k d'
  end.

(** [d.k = v]: an existing property keeps its place, a new one goes last. *)
Fixpoint set_field (k : string) (v : json) (d : doc) : doc :=
  match d with
  | [] => [(k, v)]
  | (k', v') :: d' =>
      if bool_decide (k' = k) then (k, v) :: d' else (k', v') :: set_field k v d'
  end.

(** Structural comparison of two JSON trees; it decides
    [JSON.stringify(a) === JSON.stringify(b)], the printed text being
    determined by the tree and the order of its fields. *)
Fixpoint json_eqb (a b : json) : bool :=
  match a, b with
  | JNull, JNull => true
  | JBool x, JBool y => Bool.eqb x y
  | JNum x, JNum y => (x =? y)%Z
  | JStr x, JStr y => bool_decide (x = y)
  | JArr xs, JArr ys =>
      (fix go (xs ys : list json) : bool :=
         match xs, ys with
         | [], [] => true
         | x :: xs', y :: ys' => json_eqb x y && go xs' ys'
         | _, _ => false
         end) xs ys
  | JObj xs, JObj ys =>
      (fix go (xs ys : list (string * json)) : bool :=
         match xs, ys with
         | [], [] => true
         | (k, x) :: xs', (k', y) :: ys' =>
             bool_decide (k = k') && json_eqb x y && go xs' ys'
         | _, _ => false
         end) xs ys
  | _, _ => false
  end.

Definition same_json_text (a b : doc) : bool := json_eqb (JObj a) (JObj b).

(** Nesting depth of the containers of a tree. *)
Fixpoint depth (j : json) : nat :=
  match j with
  | JArr items => S (foldr (λ x n, depth x `max` n) 0 items)
  | JObj fields => S (foldr (λ kx n, depth kx.2 `max` n) 0 fields)
  | _ => 0
  end.

(** ** The JavaScript heap

    Objects handed to the client by its caller are mutable and may be
    shared, so they live in a heap of cells addressed by their index. *)

Abbreviation loc := nat (only parsing).

Inductive value :=
| VUndefined
| VNull
| VBool (b : bool)
| VNum (n : Z)
| VStr (s : string)
| VRef (l : loc).

(** JavaScript truthiness of a value. *)
Definition truthy_value (v : value) : bool :=
  match v with
  | VUndefined | VNull => false
  | VBool b => b
  | VNum n => negb (n =? 0)%Z
  | VStr EmptyString => false
  | _ => true
  end.

Inductive cell :=
| CObj (props : list (string * value))
| CArr (items : list value).

Abbreviation Heap := (list cell) (only parsing).

Definition is_undefined (v : value) : bool :=
  match v with VUndefined => true | _ => false end.

(** [JSON.stringify], as the tree it prints.  Properties holding
    [undefined] are skipped, [undefined] array items print as [null];
    [None] stands for no text at all: [undefined] at the top, or the
    TypeError of a cyclic structure, which exhausts the fuel. *)
Fixpoint stringify (fuel : nat) (h : Heap) (v : value) : option json :=
  match v with
  | VUndefined => None
  | VNull => Some JNull
  | VBool b => Some (JBool b)
  | VNum n => Some (JNum n)
  | VStr s => Some (JStr s)
  | VRef l =>
      match fuel with
      | 0 => None
      | S n =>
          match h !! l with
          | Some (CObj props) =>
              JObj <$> mapM (λ kv, pair kv.1 <$> stringify n h kv.2)
                            (filter (λ kv, is_undefined kv.2 = false) props)
          | Some (CArr items) =>
              JArr <$> mapM (λ v, if is_undefined v then Some JNull
                                  else stringify n h v) items
          | None => None
          end
      end
  end.

Definition JSON_stringify (h : Heap) (v : value) : option json :=
  stringify (S (length h)) h v.

(** [JSON.parse] of the text of [j]: fresh cells, children first. *)
Fixpoint JSON_parse (j : json) (h : Heap) : Heap * value :=
  match j with
  | JNull => (h, VNull)
  | JBool b => (h, VBool b)
  | JNum n => (h, VNum n)
  | JStr s => (h, VStr s)
  | JArr items =>
      let '(h', vs) :=
        (fix go (items : list json) (h : Heap) : Heap * list value :=
           match items with
           | [] => (h, [])
           | x :: xs =>
               let '(h1, v) := JSON_parse x h in
               let '(h2, vs) := go xs h1 in
               (h2, v :: vs)
           end) items h in
      (h' ++ [CArr vs], VRef (length h'))
  | JObj fields =>
      let '(h', ps) :=
        (fix go (fields : list (string * json)) (h : Heap)
           : Heap * list (string * value) :=
           match fields with
           | [] => (h, [])
           | (k, x) :: xs =>
               let '(h1, v) := JSON_parse x h in
               let '(h2, ps) := go xs h1 in
               (h2, (k, v) :: ps)
           end) fields h in
      (h' ++ [CObj ps], VRef (length h'))
  end.

(** [delete o.k] on the cell at [l]. *)
Definition delete_prop (k : string) (l : loc) (h : Heap) : Heap :=
  match h !! l with
  | Some (CObj props) =>
      <[l := CObj (filter (λ kv, kv.1 ≠ k) props)]> h
  | _ => h
  end.

(** The same on a JSON object. *)
Definition without_field (k : string) (j : json) : json :=
  match j with
  | JObj fields => JObj (filter (λ kv, kv.1 ≠ k) fields)
  | _ => j
  end.

(** ** Promises, timers and the socket *)

(** Promises and callbacks are told apart by a number. *)
Abbreviation pid := nat (only parsing).
Abbreviation handler := nat (only parsing).

Module ERRORS.
Definition PERMISSION_ERROR : value := VStr "permissionError".
Definition NOT_CONNECTED : value := VStr "notConnectedError".
Definition TIMEOUT : value := VStr "timeout".
Definition NOT_ADMIN : value := VStr "Allowed only in admin".
Definition NOT_SUPPORTED : value := VStr "Not supported".
End ERRORS.

Inductive PROGRESS := CONNECTING | CONNECTED | OBJECTS_LOADED | READY.

Inductive settled :=
| Pending
| Fulfilled (v : value)
| Rejected (r : value).

(** The handle of [setTimeout]: never armed, armed, cancelled by
    [clearTimeout], or run. *)
Inductive timer := NoTimer | Armed (ms : nat) | Cleared | Fired.

(** One promise made by [request], with its [timeoutControl]. *)
Record call := {
  outcome : settled;
  elapsed : bool;
  timeout : timer;
  hasOnTimeout : bool;
}.

(** The callbacks the client hands to [_socket.emit]. *)
Inductive ack :=
| NoAck
| AckSettle (p : pid)           (* (err, res) => { if (err) reject(err); resolve(res); } *)
| AckCmdExec (p : pid)          (* the callback of cmdExec *)
| AckForeignStates (cb : handler)
| AckUserPermissions            (* the callback of onConnect *)
| AckVersion (p : pid)          (* the callback of getVersion *)
| AckAuthenticate.              (* (isOk, isSecure) => this.onPreConnect(isOk, isSecure) *)

Record emit := { event : string; args : list value; callback : ack }.

(** The previous identifier and type handed to object subscribers. *)
Record OldObject := { _id : string; type : option json }.

(** Calls leaving the client: subscriber callbacks, hooks of the props,
    browser functions. *)
Inductive invocation :=
| StateCb (cb : handler) (id : string) (state : option doc)
| ObjectCb (cb : handler) (id : string) (obj : option doc) (oldObj : option OldObject)
| ConnectionCb (cb : handler) (isConnected : bool)
| OnObjectChange (id : string) (obj : option doc)
| OnProgress (p : PROGRESS)
| OnTimeout (p : pid)
| FirstConnectionResolve
| LoadData
| PageReload.

(** Everything outside the Connection object. *)
Record Runtime := {
  socketUrl : option string;      (* window.socketUrl *)
  heap : Heap;
  calls : list call;              (* promises by number *)
  wire : list emit;               (* _socket.emit, oldest first *)
  invoked : list invocation;      (* oldest first *)
}.

Definition set_heap (f : Heap → Heap) (rt : Runtime) : Runtime :=
  {| socketUrl := socketUrl rt; heap := f (heap rt); calls := calls rt;
     wire := wire rt; invoked := invoked rt |}.
Definition set_calls (f : list call → list call) (rt : Runtime) : Runtime :=
  {| socketUrl := socketUrl rt; heap := heap rt; calls := f (calls rt);
     wire := wire rt; invoked := invoked rt |}.
Definition socket_emits (es : list emit) (rt : Runtime) : Runtime :=
  {| socketUrl := socketUrl rt; heap := heap rt; calls := calls rt;
     wire := wire rt ++ es; invoked := invoked rt |}.
Definition socket_emit (e : emit) : Runtime → Runtime := socket_emits [e].
Definition invoke (i : list invocation) (rt : Runtime) : Runtime :=
  {| socketUrl := socketUrl rt; heap := heap rt; calls := calls rt;
     wire := wire rt; invoked := invoked rt ++ i |}.

(** [Connection.isWeb()] *)
Definition isWeb (rt : Runtime) : bool :=
  match socketUrl rt with Some _ => true | None => false end.

(** A promise settles once; later calls of its functions change nothing. *)
Definition settle (p : pid) (s : settled) (rt : Runtime) : Runtime :=
  match calls rt !! p with
  | Some c =>
      match outcome c with
      | Pending =>
          set_calls <[p := {| outcome := s; elapsed := elapsed c;
                              timeout := timeout c;
                              hasOnTimeout := hasOnTimeout c |}]> rt
      | _ => rt
      end
  | None => rt
  end.

Definition resolve (p : pid) (v : value) : Runtime → Runtime := settle p (Fulfilled v).
Definition reject (p : pid) (r : value) : Runtime → Runtime := settle p (Rejected r).

(** [timeoutControl.clearTimeout()] *)
Definition clearTimeout (p : pid) (rt : Runtime) : Runtime :=
  match calls rt !! p with
  | Some c =>
      match timeout c with
      | Armed _ =>
          set_calls <[p := {| outcome := outcome c; elapsed := elapsed c;
                              timeout := Cleared;
                              hasOnTimeout := hasOnTimeout c |}]> rt
      | _ => rt
      end
  | None => rt
  end.

(** The function given to [setTimeout] in [request]; it runs only while
    the handle is armed. *)
Definition timer_fires (p : pid) (rt : Runtime) : Runtime :=
  match calls rt !! p with
  | Some c =>
      match timeout c with
      | Armed _ =>
          let rt1 :=
            set_calls <[p := {| outcome := outcome c; elapsed := true;
                                timeout := Fired;
                                hasOnTimeout := hasOnTimeout c |}]> rt in
          let rt2 := if hasOnTimeout c then invoke [OnTimeout p] rt1 else rt1 in
          reject p ERRORS.TIMEOUT rt2
      | _ => rt
      end
  | None => rt
  end.

(** [if (err) reject(err)]; the argument [None] is a missing one. *)
Definition reject_if (p : pid) (err : option value) (rt : Runtime) : Runtime :=
  match err with
  | Some e => if truthy_value e then reject p e rt else rt
  | None => rt
  end.

(** [(err, res) => { if (err) reject(err); resolve(res); }] *)
Definition settle_ack (p : pid) (err : option value) (res : value) (rt : Runtime) : Runtime :=
  resolve p res (reject_if p err rt).

(** The callback of [cmdExec]. *)
Definition cmdExec_ack (p : pid) (err : option value) (rt : Runtime) : Runtime :=
  match calls rt !! p with
  | Some c =>
      if elapsed c then rt
      else
        resolve p VUndefined (reject_if p err (clearTimeout p rt))
  | None => rt
  end.

(** ** The Connection object *)

(** The options of the constructor that the modelled methods read; a hook
    is present or absent. *)
Record ConnectionProps := {
  cmdTimeout : nat;
  autoSubscribes : list string;
  autoSubscribeLog : bool;
  onObjectChange : bool;
  onProgress : bool;
  doNotLoadACL : option bool;   (* [None]: not given *)
  admin5only : bool;            (* as a condition *)
}.

(** An entry of a registry: the compiled expression, as its [test]
    function, and the callbacks in the order they were registered. *)
Record SubscribeEntry := { reg : string → bool; cbs : list handler }.

Record Connection := {
  props : ConnectionProps;
  connected : bool;
  subscribed : bool;
  firstConnect : bool;
  waitForRestart : bool;
  loaded : bool;
  isSecure : bool;
  _authTimer : bool;   (* is the authentication guard pending *)
  statesSubscribes : gmap string SubscribeEntry;
  objectsSubscribes : gmap string SubscribeEntry;
  objects : option (gmap string doc);   (* null until loaded *)
  states : gmap string doc;
  onConnectionHandlers : list handler;
  _promises : gmap string pid;   (* cache key to promise *)
  _waitForFirstConnection : pid;
  _waitForFirstConnectionResolve : option pid;   (* undefined once called *)
}.

Definition set_connected (x : bool) (c : Connection) : Connection :=
  {| props := props c; connected := x; subscribed := subscribed c;
     firstConnect := firstConnect c; waitForRestart := waitForRestart c;
     loaded := loaded c; isSecure := isSecure c; _authTimer := _authTimer c;
     statesSubscribes := statesSubscribes c;
     objectsSubscribes := objectsSubscribes c; objects := objects c;
     states := states c; onConnectionHandlers := onConnectionHandlers c;
     _promises := _promises c;
     _waitForFirstConnection := _waitForFirstConnection c;
     _waitForFirstConnectionResolve := _waitForFirstConnectionResolve c |}.
Definition set_subscribed (x : bool) (c : Connection) : Connection :=
  {| props := props c; connected := connected c; subscribed := x;
     firstConnect := firstConnect c; waitForRestart := waitForRestart c;
     loaded := loaded c; isSecure := isSecure c; _authTimer := _authTimer c;
     statesSubscribes := statesSubscribes c;
     objectsSubscribes := objectsSubscribes c; objects := objects c;
     states := states c; onConnectionHandlers := onConnectionHandlers c;
     _promises := _promises c;
     _waitForFirstConnection := _waitForFirstConnection c;
     _waitForFirstConnectionResolve := _waitForFirstConnectionResolve c |}.
Definition set_firstConnect (x : bool) (c : Connection) : Connection :=
  {| props := props c; connected := connected c; subscribed := subscribed c;
     firstConnect := x; waitForRestart := waitForRestart c; loaded := loaded c;
     isSecure := isSecure c; _authTimer := _authTimer c;
     statesSubscribes := statesSubscribes c;
     objectsSubscribes := objectsSubscribes c; objects := objects c;
     states := states c; onConnectionHandlers := onConnectionHandlers c;
     _promises := _promises c;
     _waitForFirstConnection := _waitForFirstConnection c;
     _waitForFirstConnectionResolve := _waitForFirstConnectionResolve c |}.
Definition set_waitForRestart (x : bool) (c : Connection) : Connection :=
  {| props := props c; connected := connected c; subscribed := subscribed c;
     firstConnect := firstConnect c; waitForRestart := x; loaded := loaded c;
     isSecure := isSecure c; _authTimer := _authTimer c;
     statesSubscribes := statesSubscribes c;
     objectsSubscribes := objectsSubscribes c; objects := objects c;
     states := states c; onConnectionHandlers := onConnectionHandlers c;
     _promises := _promises c;
     _waitForFirstConnection := _waitForFirstConnection c;
     _waitForFirstConnectionResolve := _waitForFirstConnectionResolve c |}.
Definition set_loaded (x : bool) (c : Connection) : Connection :=
  {| props := props c; connected := connected c; subscribed := subscribed c;
     firstConnect := firstConnect c; waitForRestart := waitForRestart c;
     loaded := x; isSecure := isSecure c; _authTimer := _authTimer c;
     statesSubscribes := statesSubscribes c;
     objectsSubscribes := objectsSubscribes c; objects := objects c;
     states := states c; onConnectionHandlers := onConnectionHandlers c;
     _promises := _promises c;
     _waitForFirstConnection := _waitForFirstConnection c;
     _waitForFirstConnectionResolve := _waitForFirstConnectionResolve c |}.
Definition set_isSecure (x : bool) (c : Connection) : Connection :=
  {| props := props c; connected := connected c; subscribed := subscribed c;
     firstConnect := firstConnect c; waitForRestart := waitForRestart c;
     loaded := loaded c; isSecure := x; _authTimer := _authTimer c;
     statesSubscribes := statesSubscribes c;
     objectsSubscribes := objectsSubscribes c; objects := objects c;
     states := states c; onConnectionHandlers := onConnectionHandlers c;
     _promises := _promises c;
     _waitForFirstConnection := _waitForFirstConnection c;
     _waitForFirstConnectionResolve := _waitForFirstConnectionResolve c |}.
Definition set_authTimer (x : bool) (c : Connection) : Connection :=
  {| props := props c; connected := connected c; subscribed := subscribed c;
     firstConnect := firstConnect c; waitForRestart := waitForRestart c;
     loaded := loaded c; isSecure := isSecure c; _authTimer := x;
     statesSubscribes := statesSubscribes c;
     objectsSubscribes := objectsSubscribes c; objects := objects c;
     states := states c; onConnectionHandlers := onConnectionHandlers c;
     _promises := _promises c;
     _waitForFirstConnection := _waitForFirstConnection c;
     _waitForFirstConnectionResolve := _waitForFirstConnectionResolve c |}.
Definition set_statesSubscribes (f : gmap string SubscribeEntry → gmap string SubscribeEntry) (c : Connection) : Connection :=
  {| props := props c; connected := connected c; subscribed := subscribed c;
     firstConnect := firstConnect c; waitForRestart := waitForRestart c;
     loaded := loaded c; isSecure := isSecure c; _authTimer := _authTimer c;
     statesSubscribes := f (statesSubscribes c);
     objectsSubscribes := objectsSubscribes c; objects := objects c;
     states := states c; onConnectionHandlers := onConnectionHandlers c;
     _promises := _promises c;
     _waitForFirstConnection := _waitForFirstConnection c;
     _waitForFirstConnectionResolve := _waitForFirstConnectionResolve c |}.
Definition set_objectsSubscribes (f : gmap string SubscribeEntry → gmap string SubscribeEntry) (c : Connection) : Connection :=
  {| props := props c; connected := connected c; subscribed := subscribed c;
     firstConnect := firstConnect c; waitForRestart := waitForRestart c;
     loaded := loaded c; isSecure := isSecure c; _authTimer := _authTimer c;
     statesSubscribes := statesSubscribes c;
     objectsSubscribes := f (objectsSubscribes c); objects := objects c;
     states := states c; onConnectionHandlers := onConnectionHandlers c;
     _promises := _promises c;
     _waitForFirstConnection := _waitForFirstConnection c;
     _waitForFirstConnectionResolve := _waitForFirstConnectionResolve c |}.
Definition set_objects (x : option (gmap string doc)) (c : Connection) : Connection :=
  {| props := props c; connected := connected c; subscribed := subscribed c;
     firstConnect := firstConnect c; waitForRestart := waitForRestart c;
     loaded := loaded c; isSecure := isSecure c; _authTimer := _authTimer c;
     statesSubscribes := statesSubscribes c;
     objectsSubscribes := objectsSubscribes c; objects := x; states := states c;
     onConnectionHandlers := onConnectionHandlers c; _promises := _promises c;
     _waitForFirstConnection := _waitForFirstConnection c;
     _waitForFirstConnectionResolve := _waitForFirstConnectionResolve c |}.
Definition set_promises (f : gmap string pid → gmap string pid) (c : Connection) : Connection :=
  {| props := props c; connected := connected c; subscribed := subscribed c;
     firstConnect := firstConnect c; waitForRestart := waitForRestart c;
     loaded := loaded c; isSecure := isSecure c; _authTimer := _authTimer c;
     statesSubscribes := statesSubscribes c;
     objectsSubscribes := objectsSubscribes c; objects := objects c;
     states := states c; onConnectionHandlers := onConnectionHandlers c;
     _promises := f (_promises c);
     _waitForFirstConnection := _waitForFirstConnection c;
     _waitForFirstConnectionResolve := _waitForFirstConnectionResolve c |}.
Definition set_waitForFirstConnectionResolve (x : option pid) (c : Connection) : Connection :=
  {| props := props c; connected := connected c; subscribed := subscribed c;
     firstConnect := firstConnect c; waitForRestart := waitForRestart c;
     loaded := loaded c; isSecure := isSecure c; _authTimer := _authTimer c;
     statesSubscribes := statesSubscribes c;
     objectsSubscribes := objectsSubscribes c; objects := objects c;
     states := states c; onConnectionHandlers := onConnectionHandlers c;
     _promises := _promises c;
     _waitForFirstConnection := _waitForFirstConnection c;
     _waitForFirstConnectionResolve := x |}.

(** ** The request coordinator *)

Inductive commandTimeout_option :=
| TimeoutDisabled                 (* commandTimeout: false *)
| TimeoutDefault                  (* undefined: props.cmdTimeout *)
| TimeoutAfter (ms : nat).

(** What an executor can do with the [resolve], [reject] and
    [timeoutControl] it is handed, and with the socket, before it returns. *)
Inductive does :=
| Emits (ev : string) (xs : list value) (k : ack)
| CallsResolve (v : value)
| CallsReject (r : value)
| CallsClearTimeout.

Definition do_one (p : pid) (rt : Runtime) (d : does) : Runtime :=
  match d with
  | Emits ev xs k => socket_emit {| event := ev; args := xs; callback := k |} rt
  | CallsResolve v => resolve p v rt
  | CallsReject r => reject p r rt
  | CallsClearTimeout => clearTimeout p rt
  end.

Definition is_emit (d : does) : bool :=
  match d with Emits _ _ _ => true | _ => false end.

(** A body that has not completed when the executor returns: it has
    neither settled the promise nor cancelled the timer nor thrown. *)
Definition never_completes (body : list does * option value) : bool :=
  forallb is_emit body.1 && match body.2 with None => true | Some _ => false end.

(** The executor is told the number of its promise, does what it does
    and may throw. *)
Record RequestOptions := {
  cacheKey : option string;
  forceUpdate : bool;
  commandTimeout : commandTimeout_option;
  onTimeout : bool;
  requireAdmin : bool;
  requireFeatures : list string;
  executor : pid → list does * option value;
}.

(** What a request hands back when it returns without suspending:
    a rejected promise, the promise found in the cache, or the promise it
    has just made.  [request] is an async function, so its caller holds a
    promise that follows the one named here. *)
Inductive answer :=
| Failed (r : value)
| Cached (p : pid)
| Created (p : pid).

(** A request with required features suspends at
    [await this.checkFeatureSupported(feature)]. *)
Inductive entered :=
| Done (a : answer)
| Suspended (awaited : answer) (rest : list string).

(** What an awaited promise settles with. *)
Inductive awaited_result := Returned (v : value) | Thrown (r : value).

(** The key in a condition: [if (cacheKey)]. *)
Definition cache_key (o : RequestOptions) : option string :=
  match cacheKey o with
  | Some EmptyString => None
  | k => k
  end.

(** [cacheKey && !forceUpdate && cacheKey in this._promises], the key
    read as an own property of the cache. *)
Definition cached (o : RequestOptions) (c : Connection) : option pid :=
  match cache_key o with
  | Some k => if forceUpdate o then None else _promises c !! k
  | None => None
  end.

(** The early returns of [request], in the order of the source. *)
Definition gate (o : RequestOptions) (c : Connection) (rt : Runtime) : option answer :=
  if requireAdmin o && isWeb rt then Some (Failed ERRORS.NOT_ADMIN)
  else
    match cached o c with
    | Some p => Some (Cached p)
    | None =>
        if negb (connected c) then Some (Failed ERRORS.NOT_CONNECTED)
        else None
    end.

(** [new Promise(async (resolve, reject) => ...)] and the store in the
    cache. *)
Definition construct (o : RequestOptions) (c : Connection) (rt : Runtime)
  : Connection * Runtime * pid :=
  let p := length (calls rt) in
  let fresh :=
    {| outcome := Pending; elapsed := false;
       timeout := match commandTimeout o with
                  | TimeoutDisabled => NoTimer
                  | TimeoutDefault => Armed (cmdTimeout (props c))
                  | TimeoutAfter ms => Armed ms
                  end;
       hasOnTimeout := onTimeout o |} in
  let rt1 := set_calls (λ cs, cs ++ [fresh]) rt in
  let '(body, thrown) := executor o p in
  let rt2 := foldl (do_one p) rt1 body in
  let rt3 := match thrown with Some e => reject p e rt2 | None => rt2 end in
  let c' := match cache_key o with
            | Some k => set_promises <[k := p]> c
            | None => c
            end in
  (c', rt3, p).

(** A request that requires no feature runs to its end at once. *)
Definition request_now (o : RequestOptions) (c : Connection) (rt : Runtime)
  : Connection * Runtime * answer :=
  match gate o c rt with
  | Some a => (c, rt, a)
  | None => let '(c', rt', p) := construct o c rt in (c', rt', Created p)
  end.

(** An executor that emits one event. *)
Definition emitting (ev : string) (xs : list value) (k : pid → ack)
  : pid → list does * option value :=
  λ p, ([Emits ev xs (k p)], None).

(** The options all but a few methods use. *)
Definition untimed (exec : pid → list does * option value) : RequestOptions :=
  {| cacheKey := None; forceUpdate := false; commandTimeout := TimeoutDisabled;
     onTimeout := false; requireAdmin := false; requireFeatures := [];
     executor := exec |}.

Definition checkFeatureSupported (feature : string) (update : bool)
  : Connection → Runtime → Connection * Runtime * answer :=
  request_now
    {| cacheKey := Some ("supportedFeatures_" +:+ feature);
       forceUpdate := update; commandTimeout := TimeoutDisabled;
       onTimeout := false; requireAdmin := false; requireFeatures := [];
       executor := emitting "checkFeatureSupported" [VStr feature] AckSettle |}.

(** The feature loop from the feature [f] on. *)
Definition check_from (f : string) (fs : list string) (c : Connection) (rt : Runtime)
  : Connection * Runtime * entered :=
  let '(c', rt', a) := checkFeatureSupported f false c rt in
  (c', rt', Suspended a fs).

Definition request (o : RequestOptions) (c : Connection) (rt : Runtime)
  : Connection * Runtime * entered :=
  match gate o c rt with
  | Some a => (c, rt, Done a)
  | None =>
      match requireFeatures o with
      | [] => let '(c', rt', p) := construct o c rt in (c', rt', Done (Created p))
      | f :: fs => check_from f fs c rt
      end
  end.

(** The request goes on once the awaited feature check has settled. *)
Definition resume (o : RequestOptions) (rest : list string) (r : awaited_result)
    (c : Connection) (rt : Runtime) : Connection * Runtime * entered :=
  match r with
  | Thrown e => (c, rt, Done (Failed e))
  | Returned v =>
      if truthy_value v then
        match rest with
        | [] => let '(c', rt', p) := construct o c rt in (c', rt', Done (Created p))
        | f :: fs => check_from f fs c rt
        end
      else (c, rt, Done (Failed ERRORS.NOT_SUPPORTED))
  end.

(** ** Methods built on [request] *)

Definition getBinaryState (id : string)
  : Connection → Runtime → Connection * Runtime * entered :=
  request (untimed (emitting "getBinaryState" [VStr id] AckSettle)).


Definition getObject (id : string)
  : Connection → Runtime → Connection * Runtime * entered :=
  request (untimed (emitting "getObject" [VStr id] AckSettle)).




Definition getCompactSystemConfig_options (update : bool) : RequestOptions :=
  {| cacheKey := Some "systemConfigCommon"; forceUpdate := update;
     commandTimeout := TimeoutDisabled; onTimeout := false;
     requireAdmin := true; requireFeatures := [];
     executor := emitting "getCompactSystemConfig" [] AckSettle |}.

Definition getCompactSystemConfig (update : bool)
  : Connection → Runtime → Connection * Runtime * entered :=
  request (getCompactSystemConfig_options update).

(** The executor of [getSystemConfig] is an async function: when it
    returns it has called [getObject] and waits for the answer. *)
Definition getSystemConfig_options (update : bool) : RequestOptions :=
  {| cacheKey := Some "systemConfig"; forceUpdate := update;
     commandTimeout := TimeoutDisabled; onTimeout := false;
     requireAdmin := false; requireFeatures := [];
     executor := λ _, ([], None) |}.

(** [getSystemConfig] up to the return of its promise.  The promise is
    made first, [getObject] is called inside its executor, and the
    promise is stored under the key afterwards; [getObject] neither reads
    nor writes the cache, so the store is taken with the making of the
    promise here. *)
Definition getSystemConfig (update : bool) (c : Connection) (rt : Runtime)
  : Connection * Runtime * entered :=
  match gate (getSystemConfig_options update) c rt with
  | Some a => (c, rt, Done a)
  | None =>
      let '(c1, rt1, p) := construct (getSystemConfig_options update) c rt in
      let '(c2, rt2, _) := getObject "system.config" c1 rt1 in
      (c2, rt2, Done (Created p))
  end.

(** [this.doNotLoadACL = this.props.doNotLoadACL ?? true] *)
Definition this_doNotLoadACL (c : Connection) : bool :=
  default true (doNotLoadACL (props c)).

(** [onConnect] up to its return: with [doNotLoadACL] the callback of
    [_getUserPermissions] runs at once and asks for the system
    configuration, otherwise the permissions are asked for. *)
Definition onConnect (c : Connection) (rt : Runtime) : Connection * Runtime :=
  if this_doNotLoadACL c then
    let '(c', rt', _) :=
      if admin5only (props c) && negb (isWeb rt)
      then getCompactSystemConfig false c rt
      else getSystemConfig false c rt in
    (c', rt')
  else
    (c, socket_emit {| event := "getUserPermissions"; args := [];
                       callback := AckUserPermissions |} rt).

(** [loadData] up to its first wait; the rounds that follow happen in
    later turns.  The call is recorded. *)
Definition loadData_begins (c : Connection) (rt : Runtime) : Connection * Runtime :=
  let rt0 := invoke [LoadData] rt in
  if loaded c then (c, rt0) else onConnect c rt0.

Definition getWebServerName_options : RequestOptions :=
  {| cacheKey := Some "webName"; forceUpdate := false;
     commandTimeout := TimeoutDisabled; onTimeout := false;
     requireAdmin := false; requireFeatures := [];
     executor := emitting "getAdapterName" [] AckSettle |}.

Definition getWebServerName
  : Connection → Runtime → Connection * Runtime * entered :=
  request getWebServerName_options.

(** [delete v.k] *)
Definition delete_of (k : string) (v : value) (h : Heap) : Heap :=
  match v with
  | VRef l => delete_prop k l h
  | _ => h
  end.

(** [setObject] and [extendObject] differ in the event they emit.  [None]
    is the TypeError of [JSON.stringify]; the argument [None] is [null]. *)
Definition send_object (ev : string) (id : string) (obj : option loc)
    (c : Connection) (rt : Runtime) : option (Connection * Runtime * entered) :=
  match obj with
  | None => Some (c, rt, Done (Failed (VStr "Null object is not allowed")))
  | Some l =>
      j ← JSON_stringify (heap rt) (VRef l);
      let '(h1, copy) := JSON_parse j (heap rt) in
      let h2 := delete_of "ts" copy (delete_of "user" copy (delete_of "from" copy h1)) in
      Some (request (untimed (emitting ev [VStr id; copy] AckSettle))
                    c (set_heap (λ _, h2) rt))
  end.

Definition setObject := send_object "setObject".
Definition extendObject := send_object "extendObject".

(** ** Dictionaries

    The registries, the mirror and the cache are plain objects used as
    dictionaries, and the source reads them with [o[id]] and [id in o],
    which also find the members every object inherits from
    [Object.prototype].  The model reads own properties only: the two
    agree for every identifier that is not the name of such a member, and
    [Object_prototype_member] recognises those names. *)
Definition Object_prototype_member (id : string) : bool :=
  bool_decide (id ∈ ["constructor"; "hasOwnProperty"; "isPrototypeOf";
                     "propertyIsEnumerable"; "toLocaleString"; "toString";
                     "valueOf"; "__defineGetter__"; "__defineSetter__";
                     "__lookupGetter__"; "__lookupSetter__"; "__proto__"]).

(** ** What the client takes from its surroundings

    [RegExp] is the constructor of the engine, giving the [test] function
    of the compiled expression or [None] when it throws a SyntaxError;
    [normalizeHostId] is imported from ./tools. *)
Class Host := {
  RegExp : string → option (string → bool);
  normalizeHostId : string → string;
}.

(** The engine restricted to the fragment of [Regex]. *)
Definition fragment_RegExp (src : string) : option (string → bool) :=
  r ← Regex.parse src; Some (λ id, Regex.search r (chars id)).

(** A host for running the definitions: the engine of the fragment, which
    gives [None] also for the sources it does not cover, and a
    [normalizeHostId] that puts the prefix of host objects in front of a
    name that lacks it. *)
Definition fragment_host : Host :=
  {| RegExp := fragment_RegExp;
     normalizeHostId := λ h, if String.prefix "system.host." h then h
                             else "system.host." +:+ h |}.

Section Client.
Context `{Host}.

Definition cmdExec_options (host cmd cmdId : string) (ms : option nat)
  : RequestOptions :=
  {| cacheKey := None; forceUpdate := false;
     commandTimeout := match ms with
                       | Some n => TimeoutAfter n
                       | None => TimeoutDefault
                       end;
     onTimeout := false; requireAdmin := false; requireFeatures := [];
     executor := emitting "cmdExec"
                   [VStr (normalizeHostId host); VStr cmdId; VStr cmd]
                   AckCmdExec |}.

Definition cmdExec (host cmd cmdId : string) (ms : option nat)
  : Connection → Runtime → Connection * Runtime * entered :=
  request (cmdExec_options host cmd cmdId ms).

(** *** The subscription registries *)

Definition notify (ev id : string) : emit :=
  {| event := ev; args := [VStr id]; callback := NoAck |}.

(** [cbs.indexOf(cb)] and [cbs.splice(pos, 1)] *)
Fixpoint remove_first (cb : handler) (l : list handler) : list handler :=
  match l with
  | [] => []
  | x :: l' => if bool_decide (x = cb) then l' else x :: remove_first cb l'
  end.

(** [!cbs.includes(cb) && cbs.push(cb)] *)
Definition push_new (cb : handler) (e : SubscribeEntry) : SubscribeEntry :=
  if bool_decide (cb ∈ cbs e) then e
  else {| reg := reg e; cbs := cbs e ++ [cb] |}.

(** [None]: [new RegExp] threw and nothing was registered.  The entry
    of [id] is read as an own property of the registry, here and in the
    three methods that follow. *)
Definition subscribeState (id : string) (binary : bool) (cb : handler)
    (c : Connection) (rt : Runtime) : option (Connection * Runtime) :=
  registered ←
    match statesSubscribes c !! id with
    | None =>
        r ← RegExp (Pattern.state_source id);
        Some (set_statesSubscribes <[id := {| reg := r; cbs := [cb] |}]> c,
              if connected c then socket_emit (notify "subscribe" id) rt else rt)
    | Some e =>
        Some (set_statesSubscribes <[id := push_new cb e]> c, rt)
    end;
  let '(c1, rt1) := registered in
  if connected c1 then
    if binary then
      let '(c2, rt2, _) := getBinaryState id c1 rt1 in Some (c2, rt2)
    else
      Some (c1, socket_emit {| event := "getForeignStates"; args := [VStr id];
                               callback := AckForeignStates cb |} rt1)
  else Some (c1, rt1).

Definition unsubscribeState (id : string) (cb : option handler)
    (c : Connection) (rt : Runtime) : Connection * Runtime :=
  match statesSubscribes c !! id with
  | Some e =>
      let cbs' := match cb with
                  | Some cb => remove_first cb (cbs e)
                  | None => []
                  end in
      match cbs' with
      | [] =>
          (set_statesSubscribes (delete id) c,
           if connected c then socket_emit (notify "unsubscribe" id) rt else rt)
      | _ =>
          (set_statesSubscribes <[id := {| reg := reg e; cbs := cbs' |}]> c, rt)
      end
  | None => (c, rt)
  end.

Definition subscribeObject (id : string) (cb : handler)
    (c : Connection) (rt : Runtime) : option (Connection * Runtime) :=
  match objectsSubscribes c !! id with
  | None =>
      r ← RegExp (Pattern.object_source id);
      Some (set_objectsSubscribes <[id := {| reg := r; cbs := [cb] |}]> c,
            if connected c then socket_emit (notify "subscribeObjects" id) rt
            else rt)
  | Some e =>
      Some (set_objectsSubscribes <[id := push_new cb e]> c, rt)
  end.

Definition unsubscribeObject (id : string) (cb : option handler)
    (c : Connection) (rt : Runtime) : Connection * Runtime :=
  match objectsSubscribes c !! id with
  | Some e =>
      let cbs' := match cb with
                  | Some cb => remove_first cb (cbs e)
                  | None => []
                  end in
      let c1 := set_objectsSubscribes <[id := {| reg := reg e; cbs := cbs' |}]> c in
      match cbs' with
      | [] =>
          if connected c then
            (set_objectsSubscribes (delete id) c1,
             socket_emit (notify "unsubscribeObjects" id) rt)
          else (c1, rt)
      | _ => (c1, rt)
      end
  | None => (c, rt)
  end.

(** *** Incoming notifications *)

Definition summary (id : string) (stored : doc) : OldObject :=
  {| _id := id; type := get_field "type" stored |}.

(** [if (obj._rev && this.objects[id]) this.objects[id]._rev = obj._rev],
    seen from the stored document. *)
Definition stamp_rev (o stored : doc) : doc :=
  match get_field "_rev" o with
  | Some rev => if truthy rev then set_field "_rev" rev stored else stored
  | None => stored
  end.

(** The mirror after the notification, the previous summary and the
    [changed] flag.  [this.objects[id]] is read as an own property of
    the mirror. *)
Definition update_mirror (id : string) (obj : option doc) (objs : gmap string doc)
  : gmap string doc * option OldObject * bool :=
  match obj with
  | Some o =>
      let objs1 :=
        match objs !! id with
        | Some stored => <[id := stamp_rev o stored]> objs
        | None => objs
        end in
      let oldObj := summary id <$> objs1 !! id in
      match objs1 !! id with
      | Some stored =>
          if same_json_text stored o then (objs1, oldObj, false)
          else (<[id := o]> objs1, oldObj, true)
      | None => (<[id := o]> objs1, oldObj, true)
      end
  | None =>
      match objs !! id with
      | Some stored => (delete id objs, Some (summary id stored), true)
      | None => (objs, None, false)
      end
  end.

Definition object_subscribers (id : string) (obj : option doc)
    (oldObj : option OldObject) (subs : gmap string SubscribeEntry)
  : list invocation :=
  map_to_list subs ≫=
    (λ '(_id, e), if bool_decide (_id = id) || reg e id
                  then (λ cb, ObjectCb cb id obj oldObj) <$> cbs e
                  else []).

Definition objectChange (id : string) (obj : option doc)
    (c : Connection) (rt : Runtime) : Connection * Runtime :=
  match objects c with
  | None => (c, rt)
  | Some objs =>
      let '(objs', oldObj, changed) := update_mirror id obj objs in
      let rt1 := invoke (object_subscribers id obj oldObj (objectsSubscribes c)) rt in
      let rt2 := if changed && onObjectChange (props c)
                 then invoke [OnObjectChange id obj] rt1 else rt1 in
      (set_objects (Some objs') c, rt2)
  end.

Definition state_subscribers (id : string) (state : option doc)
    (subs : gmap string SubscribeEntry) : list invocation :=
  map_to_list subs ≫=
    (λ '(_, e), if reg e id then (λ cb, StateCb cb id state) <$> cbs e else []).

Definition stateChange (id : string) (state : option doc)
    (c : Connection) (rt : Runtime) : Connection * Runtime :=
  (c, invoke (state_subscribers id state (statesSubscribes c)) rt).

(** *** The lifecycle *)

(** [Object.keys]: the own keys of a registry, each once.  The source
    lists them in the order of their insertion, the model in the order of
    the finite map. *)
Definition keys (subs : gmap string SubscribeEntry) : list string :=
  (map_to_list subs).*1.

Definition requireLog_event (on : bool) : emit :=
  {| event := "requireLog"; args := [VBool on]; callback := NoAck |}.

Definition _subscribe (isEnable : bool) (c : Connection) (rt : Runtime)
  : Connection * Runtime :=
  if isEnable && negb (subscribed c) then
    (set_subscribed true c,
     socket_emits
       ((notify "subscribeObjects" <$> autoSubscribes (props c))
        ++ (notify "subscribeObjects" <$> keys (objectsSubscribes c))
        ++ (if autoSubscribeLog (props c) then [requireLog_event true] else [])
        ++ (notify "subscribe" <$> keys (statesSubscribes c))) rt)
  else if negb isEnable && subscribed c then
    (set_subscribed false c,
     socket_emits
       ((notify "unsubscribeObjects" <$> autoSubscribes (props c))
        ++ (notify "unsubscribeObjects" <$> keys (objectsSubscribes c))
        ++ (if autoSubscribeLog (props c) then [requireLog_event false] else [])
        ++ (notify "unsubscribe" <$> keys (statesSubscribes c))) rt)
  else (c, rt).

Definition progress (p : PROGRESS) (c : Connection) (rt : Runtime) : Runtime :=
  if onProgress (props c) then invoke [OnProgress p] rt else rt.

Definition connection_handlers (b : bool) (c : Connection) (rt : Runtime) : Runtime :=
  invoke ((λ cb, ConnectionCb cb b) <$> onConnectionHandlers c) rt.

(** The callback of [authenticate]. *)
Definition onPreConnect (isOk isSecure : bool) (c : Connection) (rt : Runtime)
  : Connection * Runtime :=
  let c1 := if _authTimer c then set_authTimer false c else c in
  let c2 := set_isSecure isSecure (set_connected true c1) in
  let '(c3, rt3) :=
    if waitForRestart c2 then (c2, invoke [PageReload] rt)
    else
      let '(c2', rt1) := if firstConnect c2 then loadData_begins c2 rt
                         else (c2, progress READY c2 rt) in
      let '(c', rt2) := _subscribe true c2' rt1 in
      (c', connection_handlers true c' rt2) in
  match _waitForFirstConnectionResolve c3 with
  | Some p =>
      (set_waitForFirstConnectionResolve None c3,
       resolve p VUndefined (invoke [FirstConnectionResolve] rt3))
  | None => (c3, rt3)
  end.

(** The handler of the socket's [reconnect] event. *)
Definition on_reconnect (c : Connection) (rt : Runtime) : Connection * Runtime :=
  let rt1 := progress READY c rt in
  let c1 := set_connected true c in
  if waitForRestart c1 then (c1, invoke [PageReload] rt1)
  else
    let '(c2, rt2) := _subscribe true c1 rt1 in
    (c2, connection_handlers true c2 rt2).

(** The handler of the socket's [disconnect] event. *)
Definition on_disconnect (c : Connection) (rt : Runtime) : Connection * Runtime :=
  let c1 := set_subscribed false (set_connected false c) in
  (c1, connection_handlers false c1 (progress CONNECTING c1 rt)).

(** The step of [onConnect] that records the first load. *)
Definition mark_loaded (c : Connection) (rt : Runtime) : Connection * Runtime :=
  if loaded c then (c, rt)
  else
    let c1 := set_loaded true c in
    (set_firstConnect false c1, progress CONNECTED c1 rt).

Definition applyDefaultProps (p : ConnectionProps) : ConnectionProps :=
  {| cmdTimeout := (if Nat.eqb (cmdTimeout p) 0 then 5000 else cmdTimeout p) `max` 5000;
     autoSubscribes := autoSubscribes p;
     autoSubscribeLog := autoSubscribeLog p;
     onObjectChange := onObjectChange p;
     onProgress := onProgress p;
     doNotLoadACL := doNotLoadACL p;
     admin5only := admin5only p |}.

(** The constructor, up to [startSocket]. *)
Definition new_Connection (p : ConnectionProps) (rt : Runtime) : Connection * Runtime :=
  let q := length (calls rt) in
  ({| props := applyDefaultProps p;
      connected := false; subscribed := false; firstConnect := true;
      waitForRestart := false; loaded := false; isSecure := false;
      _authTimer := false;
      statesSubscribes := ∅; objectsSubscribes := ∅;
      objects := None; states := ∅;
      onConnectionHandlers := []; _promises := ∅;
      _waitForFirstConnection := q;
      _waitForFirstConnectionResolve := Some q |},
   set_calls (λ cs, cs ++ [{| outcome := Pending; elapsed := false;
                              timeout := NoTimer; hasOnTimeout := false |}]) rt).

(** *** What can happen to a client *)

Inductive action :=
| Authenticated (isOk isSecure : bool)
| Reconnected
| Disconnected
| Bootstrapped
| RestartExpected (b : bool)
| SubscribeState (id : string) (binary : bool) (cb : handler)
| UnsubscribeState (id : string) (cb : option handler)
| SubscribeObject (id : string) (cb : handler)
| UnsubscribeObject (id : string) (cb : option handler)
| ObjectChange (id : string) (obj : option doc)
| StateChange (id : string) (state : option doc).

Definition perform (s : Connection * Runtime) (a : action) : Connection * Runtime :=
  let '(c, rt) := s in
  match a with
  | Authenticated isOk isSecure => onPreConnect isOk isSecure c rt
  | Reconnected => on_reconnect c rt
  | Disconnected => on_disconnect c rt
  | Bootstrapped => mark_loaded c rt
  | RestartExpected b => (set_waitForRestart b c, rt)
  | SubscribeState id binary cb => default s (subscribeState id binary cb c rt)
  | UnsubscribeState id cb => unsubscribeState id cb c rt
  | SubscribeObject id cb => default s (subscribeObject id cb c rt)
  | UnsubscribeObject id cb => unsubscribeObject id cb c rt
  | ObjectChange id obj => objectChange id obj c rt
  | StateChange id state => stateChange id state c rt
  end.

Definition run (s : Connection * Runtime) (l : list action) : Connection * Runtime :=
  foldl perform s l.

(** *** What can happen to one call *)

Inductive signal :=
| TimerExpires
| Acknowledged (err : option value)          (* the callback of cmdExec *)
| Answered (err : option value) (res : value)
| Resolves (v : value)
| Rejects (r : value)
| ClearsTimeout.

Definition receive (p : pid) (rt : Runtime) (s : signal) : Runtime :=
  match s with
  | TimerExpires => timer_fires p rt
  | Acknowledged err => cmdExec_ack p err rt
  | Answered err res => settle_ack p err res rt
  | Resolves v => resolve p v rt
  | Rejects r => reject p r rt
  | ClearsTimeout => clearTimeout p rt
  end.

End Client.


(** ** Predicates used in the statements *)

(** The identifier an action looks up in a registry or in the mirror. *)
Definition action_id (a : action) : option string :=
  match a with
  | SubscribeState id _ _ | UnsubscribeState id _
  | SubscribeObject id _ | UnsubscribeObject id _
  | ObjectChange id _ | StateChange id _ => Some id
  | _ => None
  end.

(** The actions for which reading own properties is what the source
    does. *)
Definition own_key_action (a : action) : bool :=
  match action_id a with
  | Some id => negb (Object_prototype_member id)
  | None => true
  end.

(** No entry of a registry is without callbacks. *)
Definition no_empty_entry (subs : gmap string SubscribeEntry) : Prop :=
  map_Forall (λ _ e, cbs e ≠ []) subs.

Definition is_first_resolve (i : invocation) : bool :=
  match i with FirstConnectionResolve => true | _ => false end.

(** How often the resolver of the first-connection promise was called. *)
Definition resolutions (l : list invocation) : nat :=
  length (filter (λ i, is_first_resolve i = true) l).

Definition is_authenticated (a : action) : bool :=
  match a with Authenticated _ _ => true | _ => false end.

(** The step from [s] to [s'] leaves the first-connection promise as it
    is: the field, its resolver, every promise there was and the number
    of calls of the resolver. *)
Definition keeps_first_connection (s s' : Connection * Runtime) : Prop :=
  _waitForFirstConnection s'.1 = _waitForFirstConnection s.1
  ∧ _waitForFirstConnectionResolve s'.1 = _waitForFirstConnectionResolve s.1
  ∧ (∀ q cl, calls s.2 !! q = Some cl → calls s'.2 !! q = Some cl)
  ∧ resolutions (invoked s'.2) = resolutions (invoked s.2).

(** Where the first-connection promise [q] stands: [b] tells whether it
    has been resolved, [n] is the number of resolver calls there were
    before the client was made. *)
Definition first_connection_state (q : pid) (n : nat) (b : bool)
    (s : Connection * Runtime) : Prop :=
  _waitForFirstConnection s.1 = q
  ∧ _waitForFirstConnectionResolve s.1 = (if b then None else Some q)
  ∧ outcome <$> calls s.2 !! q = Some (if b then Fulfilled VUndefined else Pending)
  ∧ resolutions (invoked s.2) = n + (if b then 1 else 0).

(** Has the notification changed the mirror, in the sense of [changed]
    in [objectChange]: a new or a different document, or a removed one. *)
Definition changes (id : string) (obj : option doc) (objs : gmap string doc) : Prop :=
  match obj, objs !! id with
  | Some o, Some stored => stamp_rev o stored ≠ o
  | Some _, None => True
  | None, Some _ => True
  | None, None => False
  end.

(** [v] is a copy of the tree [j] made of the cells [new] that follow a
    heap as long as [h]: it is defined, the cells are at least as many as
    the tree is deep, and whatever the other cells hold it prints as [j]. *)
Definition fresh_copy (h new : Heap) (v : value) (j : json) : Prop :=
  is_undefined v = false
  ∧ depth j ≤ length new
  ∧ (∀ l, v = VRef l → length h ≤ l)
  ∧ ∀ n (h0 ext : Heap),
      length h0 = length h → depth j ≤ n →
      stringify n (h0 ++ new ++ ext) v = Some j.

(** The same for a property and the field it copies. *)
Definition fresh_prop (h new : Heap) (kv : string * value) (kx : string * json) : Prop :=
  kv.1 = kx.1 ∧ fresh_copy h new kv.2 kx.2.

(** The document without the three fields the client strips. *)
Definition stripped (j : json) : json :=
  without_field "ts" (without_field "user" (without_field "from" j)).

(** ** Sample states *)

Definition no_props : ConnectionProps :=
  {| cmdTimeout := 0; autoSubscribes := []; autoSubscribeLog := false;
     onObjectChange := false; onProgress := false;
     doNotLoadACL := None; admin5only := false |}.

(** The page before the client is made, in a web adapter or in admin. *)
Definition page (web : bool) : Runtime :=
  {| socketUrl := if web then Some "http://localhost:8082" else None;
     heap := []; calls := []; wire := []; invoked := [] |}.

Definition offline_client : Connection := (new_Connection no_props (page false)).1.
Definition offline_runtime : Runtime := (new_Connection no_props (page false)).2.
Definition online_client : Connection := set_connected true offline_client.

(** A request with a timeout of 5 ms and an onTimeout hook whose body does
    nothing at all. *)
Definition never_answered : RequestOptions :=
  {| cacheKey := None; forceUpdate := false; commandTimeout := TimeoutAfter 5;
     onTimeout := true; requireAdmin := false; requireFeatures := [];
     executor := λ _, ([], None) |}.

Definition after_never_answered : Runtime :=
  (request never_answered online_client offline_runtime).1.2.

(** A client that mirrors one object and has one subscriber for it. *)
Definition lamp : doc :=
  [("_id", JStr "lamp.on"); ("type", JStr "state"); ("_rev", JStr "1-a")].

Definition watching_client : Connection :=
  set_objectsSubscribes <["lamp.on" := {| reg := λ _, false; cbs := [7] |}]>
    (set_objects (Some {["lamp.on" := lamp]}) online_client).

(** A caller's object with a nested part and the fields to strip. *)
Definition caller_heap : Heap :=
  [CObj [("name", VStr "lamp")];
   CObj [("common", VRef 0); ("from", VStr "system.adapter.admin.0");
         ("ts", VNum 17); ("type", VStr "state")]].

Definition caller_runtime : Runtime :=
  set_heap (λ _, caller_heap) offline_runtime.

(** ** Further parts of the client *)

(** *** Connection handlers (registerConnectionHandler,
        unregisterConnectionHandler) *)

Definition set_onConnectionHandlers (f : list nat → list nat) (c : Connection)
  : Connection :=
  {| props := props c; connected := connected c; subscribed := subscribed c;
     firstConnect := firstConnect c; waitForRestart := waitForRestart c;
     loaded := loaded c; isSecure := isSecure c; _authTimer := _authTimer c;
     statesSubscribes := statesSubscribes c;
     objectsSubscribes := objectsSubscribes c; objects := objects c;
     states := states c; onConnectionHandlers := f (onConnectionHandlers c);
     _promises := _promises c;
     _waitForFirstConnection := _waitForFirstConnection c;
     _waitForFirstConnectionResolve := _waitForFirstConnectionResolve c |}.

Definition registerConnectionHandler (handler : handler) (c : Connection)
  : Connection :=
  if bool_decide (handler ∈ onConnectionHandlers c) then c
  else set_onConnectionHandlers (λ l, l ++ [handler]) c.

Definition unregisterConnectionHandler (handler : handler) (c : Connection)
  : Connection :=
  set_onConnectionHandlers (remove_first handler) c.

(** What an application does with the handlers. *)
Inductive handler_call :=
| Register (handler : handler)
| Unregister (handler : handler).

Definition handle_call (c : Connection) (x : handler_call) : Connection :=
  match x with
  | Register h => registerConnectionHandler h c
  | Unregister h => unregisterConnectionHandler h c
  end.

(** *** The retry loop of loadData

    [loaded_after i] is [this.loaded] as read when the i-th wait of one
    second is over; the result is the number of calls of [onConnect]. *)
Fixpoint loadData_from (left i : nat) (loaded_after : nat → bool) : nat :=
  match left with
  | 0 => 0
  | S left' =>
      if loaded_after i then 1
      else S (loadData_from left' (S i) loaded_after)
  end.

Definition loadData (loaded_now : bool) (loaded_after : nat → bool) : nat :=
  if loaded_now then 0 else loadData_from 10 1 loaded_after.

(** *** The polling of startSocket for the socket.io script *)

Inductive started :=
| Retry                 (* setTimeout(() => this.startSocket(), 100) *)
| Alerted               (* window.alert("Cannot load socket.io.js!") *)
| WaitsForOnLoad        (* window.registerSocketOnLoad(...) *)
| AlreadyStarted        (* this._socket is there *)
| Connects.             (* window.io.connect(...) *)

(** One call of [startSocket] up to the connect: the counter it leaves
    and what it does. *)
Definition startSocket (io_defined has_registerSocketOnLoad has_socket : bool)
    (scriptLoadCounter : nat) : nat * started :=
  if negb io_defined then
    if negb has_registerSocketOnLoad then
      let n := S scriptLoadCounter in
      if Nat.ltb n 30 then (n, Retry) else (n, Alerted)
    else (scriptLoadCounter, WaitsForOnLoad)
  else if has_socket then (scriptLoadCounter, AlreadyStarted)
  else (scriptLoadCounter, Connects).

(** The calls that follow each other through the timer, in a page without
    registerSocketOnLoad: [io_defined_at k] tells whether the script is
    there at the k-th call. *)
Fixpoint startSocket_calls (fuel : nat) (io_defined_at : nat → bool)
    (k scriptLoadCounter : nat) : list started :=
  match fuel with
  | 0 => []
  | S fuel' =>
      let '(n, r) := startSocket (io_defined_at k) false false scriptLoadCounter in
      match r with
      | Retry => r :: startSocket_calls fuel' io_defined_at (S k) n
      | _ => [r]
      end
  end.

(** *** The version test of the connect handler *)

(** [s.split(sep)] for a separator of one character. *)
Fixpoint split (sep : ascii) (s : string) : list string :=
  match s with
  | EmptyString => [EmptyString]
  | String a s' =>
      if Ascii.eqb a sep then EmptyString :: split sep s'
      else match split sep s' with
           | w :: ws => String a w :: ws
           | [] => [String a EmptyString]
           end
  end.








Definition authenticate_event : emit :=
  {| event := "authenticate"; args := []; callback := AckAuthenticate |}.

(** The handler of the socket's [connect] event: it authenticates at
    once, or sets the timer of 500 ms ([true]). *)
Definition on_connect (noTimeout : bool) (rt : Runtime) : Runtime * bool :=
  if noTimeout then (socket_emit authenticate_event rt, false) else (rt, true).


Section ConnectHandler.
Context `{Host}.


End ConnectHandler.

(** *** The redirect of authenticate *)

Record location := {
  protocol : string;
  host : string;
  pathname : string;
  search : string;
  hash : string;
}.

Fixpoint starts_with (p s : string) : bool :=
  match p, s with
  | EmptyString, _ => true
  | String a p', String b s' => Ascii.eqb a b && starts_with p' s'
  | String _ _, EmptyString => false
  end.

(** [s.includes(needle)] *)
Fixpoint str_includes (needle s : string) : bool :=
  starts_with needle s ||
  match s with
  | String _ s' => str_includes needle s'
  | EmptyString => false
  end.

(** The URL [authenticate] assigns to [window.location]. *)
Definition authenticate (l : location) : string :=
  if str_includes "&href=" (search l) then
    protocol l +:+ "//" +:+ host l +:+ pathname l +:+ search l +:+ hash l
  else
    protocol l +:+ "//" +:+ host l +:+ pathname l +:+ "?login&href="
      +:+ search l +:+ hash l.

(** *** The rows of getEnums *)

(** A string in a condition. *)
Definition given (o : option string) : option string :=
  match o with
  | Some EmptyString => None
  | o => o
  end.

(** The record the callback of [getEnums] resolves with, from the rows
    [{id, value}] of the view. *)
Definition getEnums_rows (_enum : option string) (rows : list (string * json))
  : gmap string json :=
  foldl (λ _res row,
           match given _enum with
           | Some name =>
               if bool_decide (row.1 = "enum." +:+ name) then _res
               else <[row.1 := row.2]> _res
           | None => <[row.1 := row.2]> _res
           end) ∅ rows.

(** ** Further predicates used in the statements *)

(** No callback is twice in an entry. *)
Definition no_duplicate_callbacks (subs : gmap string SubscribeEntry) : Prop :=
  map_Forall (λ _ e, NoDup (cbs e)) subs.


(** Is [e] what [_socket.emit(ev, id)] sends. *)
Definition is_notify (ev id : string) (e : emit) : bool :=
  bool_decide (event e = ev)
  && match args e with
     | [VStr s] => bool_decide (s = id)
     | _ => false
     end.

(** How often [ev] was sent for [id]. *)
Definition sent (ev id : string) (es : list emit) : nat :=
  length (filter (λ e, is_notify ev id e = true) es).

(** How often [id] is in a list. *)
Definition occurrences (id : string) (l : list string) : nat :=
  length (filter (λ x, x = id) l).

(** What [_subscribe(true)] emits for a client. *)
Definition resubscription (c : Connection) : list emit :=
  (notify "subscribeObjects" <$> autoSubscribes (props c))
  ++ (notify "subscribeObjects" <$> keys (objectsSubscribes c))
  ++ (if autoSubscribeLog (props c) then [requireLog_event true] else [])
  ++ (notify "subscribe" <$> keys (statesSubscribes c)).

(** The query [subscribeState] sends for the current value. *)
Definition state_query (id : string) (binary : bool) (cb : handler) (rt : Runtime) : emit :=
  if binary then
    {| event := "getBinaryState"; args := [VStr id];
       callback := AckSettle (length (calls rt)) |}
  else
    {| event := "getForeignStates"; args := [VStr id];
       callback := AckForeignStates cb |}.

(** A connected client with one subscriber for one state pattern. *)
Definition lamp_entry : SubscribeEntry := {| reg := λ _, true; cbs := [7; 8] |}.

Definition state_watching_client : Connection :=
  set_statesSubscribes <["lamp.*" := lamp_entry]> online_client.

(** *** Methods that emit one event and settle with the answer *)




(** What a pending promise holds after
    [if (err) reject(err); resolve(res)]. *)
Definition answered (err : option value) (res : value) : settled :=
  match err with
  | Some e => if truthy_value e then Rejected e else Fulfilled res
  | None => Fulfilled res
  end.



(** A request whose executor throws at once. *)
Definition throwing : RequestOptions :=
  {| cacheKey := Some "k"; forceUpdate := false; commandTimeout := TimeoutAfter 5;
     onTimeout := true; requireAdmin := false; requireFeatures := [];
     executor := λ _, ([], Some (VStr "boom")) |}.

(** The cell at [x] holds a reference to the cell at [y]. *)
Definition has_child (h : list cell) (x y : nat) : Prop :=
  match h !! x with
  | Some (CObj props) => ∃ k, (k, VRef y) ∈ props
  | Some (CArr items) => VRef y ∈ items
  | None => False
  end.

(** A document that refers to itself. *)
Definition cyclic_heap : list cell :=
  [CObj [("name", VStr "lamp"); ("parts", VRef 1)]; CArr [VNull; VRef 0]].

(** What holds of the flags of every client. *)
Definition lifecycle_flags (c : Connection) : Prop :=
  (subscribed c = true → connected c = true)
  ∧ firstConnect c = negb (loaded c).

(** Is the row the enum's own object, which [getEnums] leaves out. *)
Definition own_row (_enum : option string) (id : string) : bool :=
  match given _enum with
  | Some name => bool_decide (id = "enum." +:+ name)
  | None => false
  end.


(** *** The language step of onConnect *)







(** A request that requires a feature and sends nothing else. *)
Definition needs_feature : RequestOptions :=
  {| cacheKey := Some "k"; forceUpdate := false; commandTimeout := TimeoutDisabled;
     onTimeout := false; requireAdmin := false; requireFeatures := ["CONTROLLER_OS"];
     executor := emitting "never" [] AckSettle |}.

(** A disconnected client with one subscriber for an object pattern and
    one for a state pattern. *)
Definition offline_watcher : Connection :=
  set_objectsSubscribes <["lamp.*" := {| reg := λ _, true; cbs := [7] |}]>
    (set_statesSubscribes <["lamp.*" := {| reg := λ _, true; cbs := [7] |}]>
       offline_client).


(** * Properties of the pattern compiler *)

Example state_source_anchored : Pattern.state_source "a.b" = "a\.b$".
Proof. reflexivity. Qed.

Example state_source_wildcard : Pattern.state_source "a.*.c" = "a\..*\.c".
Proof. reflexivity. Qed.

Example object_source_wildcard :
  Pattern.object_source "system.adapter.*" = "system\.adapter\..*".
Proof. reflexivity. Qed.

Example wildcard_in_the_middle :
  Regex.test (Pattern.state_source "a.*.c") "a.b.c" = Some true
  ∧ Regex.test (Pattern.state_source "a.*.c") "a.b.c.d" = Some true.
Proof. split; reflexivity. Qed.

Example anchored_at_the_end :
  Regex.test (Pattern.state_source "a.b") "a.bc" = Some false
  ∧ Regex.test (Pattern.state_source "a.b") "a.B" = Some false.
Proof. split; reflexivity. Qed.

Ltac each_char a := destruct a as [[] [] [] [] [] [] [] []].

Lemma chars_app s t : chars (s +:+ t) = chars s ++ chars t.
Proof. induction s as [|a s IH]; [done|]. cbn. by rewrite <- IH. Qed.

Lemma unchars_chars s : unchars (chars s) = s.
Proof. induction s; cbn; congruence. Qed.

Lemma chars_unchars l : chars (unchars l) = l.
Proof. induction l; cbn; congruence. Qed.

Lemma chars_inj s t : chars s = chars t → s = t.
Proof. intros H. rewrite <- (unchars_chars s), <- (unchars_chars t). by rewrite H. Qed.

Lemma includes_spec c s : includes c s = bool_decide (c ∈ chars s).
Proof.
  induction s as [|a s IH]; cbn.
  - symmetry. apply bool_decide_eq_false. apply not_elem_of_nil.
  - rewrite IH. destruct (Ascii.eqb_spec a c) as [->|Hne]; cbn.
    + symmetry. apply bool_decide_eq_true. left.
    + apply bool_decide_ext. rewrite elem_of_cons.
      split; [auto | intros [?|?]; [congruence | done]].
Qed.

Lemma chars_replace_all c r s :
  chars (replace_all c r s)
  = chars s ≫= (λ a, if Ascii.eqb a c then chars r else [a]).
Proof.
  induction s as [|a s IH]; [done|]. cbn.
  destruct (Ascii.eqb a c); cbn; rewrite ?chars_app, IH; done.
Qed.

Lemma state_char_chain a :
  ((((((if Ascii.eqb a "." then chars "\." else [a])
        ≫= (λ a, if Ascii.eqb a "*" then chars ".*" else [a]))
        ≫= (λ a, if Ascii.eqb a "(" then chars "\(" else [a]))
        ≫= (λ a, if Ascii.eqb a ")" then chars "\)" else [a]))
        ≫= (λ a, if Ascii.eqb a "+" then chars "\+" else [a]))
        ≫= (λ a, if Ascii.eqb a "[" then chars "\[" else [a]))
  = Pattern.state_char a.
Proof. each_char a; reflexivity. Qed.

Lemma object_char_chain a :
  (if Ascii.eqb a "." then chars "\." else [a])
    ≫= (λ a, if Ascii.eqb a "*" then chars ".*" else [a])
  = Pattern.object_char a.
Proof. each_char a; reflexivity. Qed.

Lemma star_in_translate k a :
  "*"%char ∈ translate k a ↔ a = "*"%char.
Proof.
  assert (H : bool_decide ("*"%char ∈ translate k a) = bool_decide (a = "*"%char))
    by (destruct k; each_char a; reflexivity).
  split; intros Hx.
  - apply (bool_decide_eq_true_1 _). rewrite <- H. by apply bool_decide_eq_true_2.
  - apply (bool_decide_eq_true_1 _). rewrite H. by apply bool_decide_eq_true_2.
Qed.

Lemma star_in_bind k l :
  "*"%char ∈ l ≫= translate k ↔ "*"%char ∈ l.
Proof.
  rewrite list_elem_of_bind. split.
  - intros (a & Ha%star_in_translate & Hl). by subst.
  - intros Hl. exists "*"%char. split; [|done]. by apply star_in_translate.
Qed.

Lemma bind_bind {A B C} (f : A → list B) (g : B → list C) (l : list A) :
  (l ≫= f) ≫= g = l ≫= (λ a, f a ≫= g).
Proof.
  induction l as [|a l IH]; [done|].
  by rewrite !bind_cons, bind_app, IH.
Qed.

Lemma translated_chars k id reg :
  chars reg = chars id ≫= translate k →
  includes "*" reg = includes "*" id.
Proof.
  intros Hreg. rewrite !includes_spec, Hreg.
  apply bool_decide_ext, star_in_bind.
Qed.

(** The chain of replacements acts character by character, and the anchor
    depends on the wildcard of the pattern alone. *)
Lemma state_source_chars id :
  chars (Pattern.state_source id)
  = (chars id ≫= Pattern.state_char) ++ Pattern.anchor id.
Proof.
  unfold Pattern.state_source, Pattern.anchor.
  set (reg := replace_all "[" _ _).
  assert (Hreg : chars reg = chars id ≫= translate StateRegistry).
  { unfold reg. rewrite !chars_replace_all, !bind_bind.
    apply list_bind_ext; [|done]. intros a. cbn.
    rewrite <- (state_char_chain a). by rewrite !bind_bind. }
  rewrite (translated_chars StateRegistry id reg Hreg).
  destruct (includes "*" id).
  - by rewrite Hreg, app_nil_r.
  - by rewrite chars_app, Hreg.
Qed.

Lemma object_source_chars id :
  chars (Pattern.object_source id)
  = (chars id ≫= Pattern.object_char) ++ Pattern.anchor id.
Proof.
  unfold Pattern.object_source, Pattern.anchor.
  set (reg := replace_all "*" _ _).
  assert (Hreg : chars reg = chars id ≫= translate ObjectRegistry).
  { unfold reg. rewrite !chars_replace_all, !bind_bind.
    apply list_bind_ext; [|done]. intros a. apply object_char_chain. }
  rewrite (translated_chars ObjectRegistry id reg Hreg).
  destruct (includes "*" id); cbn.
  - by rewrite Hreg, app_nil_r.
  - by rewrite chars_app, Hreg.
Qed.

Lemma source_chars k id :
  chars (source k id) = (chars id ≫= translate k) ++ Pattern.anchor id.
Proof. destruct k; [apply state_source_chars | apply object_source_chars]. Qed.

(** * Properties of the matcher on wildcard-free patterns *)

Lemma tokenize_literal k a rest :
  literal_in k a = true →
  Regex.tokenize (translate k a ++ rest)
  = cons (Regex.KLit a) <$> Regex.tokenize rest.
Proof.
  destruct k; each_char a; intros H; vm_compute in H;
    try discriminate H; reflexivity.
Qed.

Lemma tokenize_literals k l :
  forallb (literal_in k) l = true →
  Regex.tokenize ((l ≫= translate k) ++ ["$"%char])
  = Some (map Regex.KLit l ++ [Regex.KDollar]).
Proof.
  induction l as [|a l IH]; intros H.
  - reflexivity.
  - apply andb_prop in H as [Ha Hl].
    rewrite bind_cons, <- app_assoc, (tokenize_literal k a _ Ha), (IH Hl).
    reflexivity.
Qed.

Lemma build_literals l :
  Regex.build (map Regex.KLit l ++ [Regex.KDollar])
  = Some (map (λ c, Regex.TAtom (Regex.AChar c)) l ++ [Regex.TEnd]).
Proof.
  induction l as [|a l IH]; [reflexivity|].
  cbn [map app Regex.build Regex.atom_of].
  destruct l as [|b l]; [reflexivity|].
  cbn [map app]. cbn [map app] in IH. by rewrite IH.
Qed.

Lemma match_literals l s :
  Regex.match_here (map (λ c, Regex.TAtom (Regex.AChar c)) l ++ [Regex.TEnd]) s
  = bool_decide (s = l).
Proof.
  revert s. induction l as [|a l IH]; intros [|c s]; cbn; try done.
  rewrite IH. destruct (Ascii.eqb_spec a c) as [->|Hne]; cbn.
  - apply bool_decide_ext. split; congruence.
  - symmetry. apply bool_decide_eq_false. congruence.
Qed.

(** A starred atom takes any run of characters the atom accepts; for the
    dot these are all characters but the line terminators. *)
Lemma star_here_spec a k s :
  Regex.star_here a k s = true
  ↔ ∃ pre suf, s = pre ++ suf ∧ forallb (Regex.atom_ok a) pre = true ∧ k suf = true.
Proof.
  induction s as [|c s IH]; cbn.
  - rewrite orb_false_r. split.
    + intros Hk. by exists [], [].
    + intros (pre & suf & Heq & _ & Hk). symmetry in Heq.
      apply app_eq_nil in Heq as [_ ->]. done.
  - rewrite orb_true_iff, andb_true_iff, IH. split.
    + intros [Hk|[Hc (pre & suf & -> & Hpre & Hk)]].
      * by exists [], (c :: s).
      * exists (c :: pre), suf. cbn. by rewrite Hc, Hpre.
    + intros (pre & suf & Heq & Hpre & Hk). destruct pre as [|c' pre].
      * left. cbn in Heq. by subst.
      * right. injection Heq as -> ->. cbn in Hpre.
        apply andb_prop in Hpre as [Hc Hpre]. split; [done|].
        by exists pre, suf.
Qed.

Lemma search_spec r s :
  Regex.search r s = true ↔ ∃ pre suf, s = pre ++ suf ∧ Regex.match_here r suf = true.
Proof.
  induction s as [|c s IH]; cbn.
  - rewrite orb_false_r. split.
    + intros H. by exists [], [].
    + intros (pre & suf & Heq & H). symmetry in Heq.
      apply app_eq_nil in Heq as [_ ->]. done.
  - rewrite orb_true_iff, IH. split.
    + intros [H | (pre & suf & -> & H)].
      * by exists [], (c :: s).
      * by exists (c :: pre), suf.
    + intros (pre & suf & Heq & H). destruct pre as [|c' pre].
      * left. cbn in Heq. by subst.
      * right. injection Heq as -> ->. by exists pre, suf.
Qed.

Lemma literal_has_no_wildcard k p :
  forallb (literal_in k) (chars p) = true → includes "*" p = false.
Proof.
  induction p as [|a p IH]; [done|]. cbn. intros [Ha Hp]%andb_prop.
  rewrite (IH Hp), orb_false_r.
  destruct (Ascii.eqb_spec a "*") as [->|]; [by destruct k|done].
Qed.

Lemma parse_literal_pattern k p :
  forallb (literal_in k) (chars p) = true →
  Regex.parse (source k p)
  = Some (map (λ c, Regex.TAtom (Regex.AChar c)) (chars p) ++ [Regex.TEnd]).
Proof.
  intros H. unfold Regex.parse.
  rewrite source_chars. unfold Pattern.anchor.
  rewrite (literal_has_no_wildcard k p H), (tokenize_literals k _ H).
  cbn. apply build_literals.
Qed.

Lemma ends_with_chars id p :
  ends_with id p ↔ ∃ pre, chars id = pre ++ chars p.
Proof.
  split.
  - intros [pre ->]. exists (chars pre). apply chars_app.
  - intros [pre H]. exists (unchars pre). apply chars_inj.
    by rewrite chars_app, chars_unchars.
Qed.

(** C3, as amended: a pattern without wildcard, made of characters that
    the registry turns into literals, is accepted exactly by the
    identifiers that end with it, character for character: the compiled
    expression is anchored at the end only. *)
Theorem wildcard_free_pattern_accepts_suffixes k p id :
  forallb (literal_in k) (chars p) = true →
  Regex.test (source k p) id = Some true ↔ ends_with id p.
Proof.
  intros Hlit. unfold Regex.test.
  rewrite (parse_literal_pattern k p Hlit). cbn.
  rewrite ends_with_chars. split.
  - intros [= Hs]. apply search_spec in Hs as (pre & suf & Heq & Hm).
    rewrite match_literals in Hm. apply bool_decide_eq_true_1 in Hm.
    subst suf. by exists pre.
  - intros [pre Heq]. f_equal. apply search_spec.
    exists pre, (chars p). split; [done|].
    rewrite match_literals. by apply bool_decide_eq_true_2.
Qed.

Lemma wildcard_free_pattern_accepts_suffixes_witness :
  forallb (literal_in StateRegistry) (chars "a.b") = true
  ∧ (Regex.test (source StateRegistry "a.b") "xa.b" = Some true
     ↔ ends_with "xa.b" "a.b").
Proof.
  split; [reflexivity|].
  apply (wildcard_free_pattern_accepts_suffixes StateRegistry "a.b" "xa.b").
  reflexivity.
Defined.

(** C3 as it is written fails: the matcher of the pattern a.b accepts the
    longer identifier xa.b. *)
Lemma exact_match_counterexample :
  ¬ (∀ k p id, includes "*" p = false →
       Regex.test (source k p) id = Some true ↔ id = p).
Proof.
  intros Hclaim.
  destruct (Hclaim StateRegistry "a.b" "xa.b" eq_refl) as [Hacc _].
  discriminate (Hacc eq_refl).
Qed.

(** C2 at the failing input: [subscribeObject] hands the plus sign of the
    pattern a+b to the engine as a quantifier, where [subscribeState]
    escapes it; the object matcher then rejects the identifier a+b itself
    and accepts aab. *)
Theorem subscribeObject_leaves_plus_unescaped :
  Pattern.object_source "a+b" = "a+b$"
  ∧ Pattern.state_source "a+b" = "a\+b$"
  ∧ chars (source ObjectRegistry "a+b")
    ≠ (chars "a+b" ≫= translate StateRegistry) ++ Pattern.anchor "a+b"
  ∧ Regex.test (Pattern.object_source "a+b") "a+b" = Some false
  ∧ Regex.test (Pattern.object_source "a+b") "aab" = Some true
  ∧ Regex.test (Pattern.state_source "a+b") "a+b" = Some true.
Proof. repeat split; try reflexivity. discriminate. Qed.

(** * The request coordinator *)




Lemma gate_hit o c rt p :
  requireAdmin o && isWeb rt = false → cached o c = Some p →
  gate o c rt = Some (Cached p).
Proof. unfold gate. by intros -> ->. Qed.

Lemma request_gated o c rt a :
  gate o c rt = Some a → request o c rt = (c, rt, Done a).
Proof. unfold request. by intros ->. Qed.

(** A made promise is stored under the key of the request. *)
Lemma construct_stores o c rt k :
  cache_key o = Some k →
  (construct o c rt).2 = length (calls rt)
  ∧ _promises (construct o c rt).1.1 !! k = Some (length (calls rt)).
Proof.
  intros Hk. unfold construct. rewrite Hk.
  destruct (executor o (length (calls rt))) as [body thrown]. cbn.
  split; [done|]. apply lookup_insert_eq.
Qed.

Lemma construct_keeps_connection_without_key o c rt :
  cache_key o = None → (construct o c rt).1.1 = c.
Proof.
  intros Hk. unfold construct. rewrite Hk.
  by destruct (executor o (length (calls rt))).
Qed.

Lemma request_constructs o c rt :
  gate o c rt = None → requireFeatures o = [] →
  request o c rt
  = ((construct o c rt).1.1, (construct o c rt).1.2, Done (Created (construct o c rt).2)).
Proof.
  unfold request. intros -> ->. by destruct (construct o c rt) as [[??]?].
Qed.

Lemma construct_promises o c rt :
  _promises (construct o c rt).1.1
  = match cache_key o with
    | Some k => <[k := length (calls rt)]> (_promises c)
    | None => _promises c
    end.
Proof.
  unfold construct. destruct (executor o (length (calls rt))).
  by destruct (cache_key o).
Qed.

(** A request with required features stops at the first check; its own
    promise is not made yet, and only the check writes to the cache. *)
Lemma request_with_features_suspends o c rt f fs :
  gate o c rt = None → requireFeatures o = f :: fs →
  (∃ a, (request o c rt).2 = Suspended a fs)
  ∧ ∀ k, k ≠ "supportedFeatures_" +:+ f →
      _promises (request o c rt).1.1 !! k = _promises c !! k.
Proof.
  intros Hgate Hfeat. unfold request, check_from. rewrite Hgate, Hfeat.
  unfold checkFeatureSupported, request_now.
  set (check := {| cacheKey := Some ("supportedFeatures_" +:+ f) |}).
  destruct (gate check c rt) as [a|]; [split; [by exists a|done]|].
  pose proof (construct_promises check c rt) as Hp.
  assert (cache_key check = Some ("supportedFeatures_" +:+ f)) as Hkey
    by reflexivity.
  rewrite Hkey in Hp.
  destruct (construct check c rt) as [[c' rt'] p]. cbn [fst snd] in *.
  split; [by eexists|]. intros k Hk. rewrite Hp.
  by rewrite lookup_insert_ne.
Qed.

(** C8: the checks of a request run in the order admin, cache,
    connection; in particular a cached outcome is handed out while
    disconnected. *)
Theorem request_gates_in_order o c rt :
  (requireAdmin o = true → isWeb rt = true →
     request o c rt = (c, rt, Done (Failed ERRORS.NOT_ADMIN)))
  ∧ (requireAdmin o && isWeb rt = false → ∀ p, cached o c = Some p →
     request o c rt = (c, rt, Done (Cached p)))
  ∧ (requireAdmin o && isWeb rt = false → cached o c = None →
     connected c = false →
     request o c rt = (c, rt, Done (Failed ERRORS.NOT_CONNECTED))).
Proof.
  split; [|split].
  - intros Ha Hw. apply request_gated. unfold gate. by rewrite Ha, Hw.
  - intros Hadm p Hp. apply request_gated. by apply gate_hit.
  - intros Hadm Hc Hd. apply request_gated. unfold gate.
    by rewrite Hadm, Hc, Hd.
Qed.

Lemma request_gates_in_order_witness :
  getCompactSystemConfig false online_client (page true)
    = (online_client, page true, Done (Failed ERRORS.NOT_ADMIN))
  ∧ getWebServerName (set_promises <["webName" := 0]> offline_client) offline_runtime
    = (set_promises <["webName" := 0]> offline_client, offline_runtime, Done (Cached 0))
  ∧ getWebServerName offline_client offline_runtime
    = (offline_client, offline_runtime, Done (Failed ERRORS.NOT_CONNECTED)).
Proof.
  split; [|split].
  - apply (proj1 (request_gates_in_order
                    (getCompactSystemConfig_options false) online_client (page true)));
      reflexivity.
  - apply (proj1 (proj2 (request_gates_in_order getWebServerName_options
                    (set_promises <["webName" := 0]> offline_client) offline_runtime)));
      reflexivity.
  - apply (proj2 (proj2 (request_gates_in_order getWebServerName_options
                    offline_client offline_runtime)));
      reflexivity.
Defined.

Lemma settle_frame p s rt :
  wire (settle p s rt) = wire rt ∧ invoked (settle p s rt) = invoked rt
  ∧ heap (settle p s rt) = heap rt
  ∧ length (calls (settle p s rt)) = length (calls rt)
  ∧ ∀ q, q ≠ p → calls (settle p s rt) !! q = calls rt !! q.
Proof.
  unfold settle. destruct (calls rt !! p) as [cl|]; [|done].
  destruct (outcome cl); cbn; repeat split; try done.
  - by rewrite length_insert.
  - intros q Hq. by rewrite list_lookup_insert_ne.
Qed.

Lemma clearTimeout_frame p rt :
  wire (clearTimeout p rt) = wire rt ∧ invoked (clearTimeout p rt) = invoked rt
  ∧ heap (clearTimeout p rt) = heap rt
  ∧ length (calls (clearTimeout p rt)) = length (calls rt)
  ∧ (∀ q, q ≠ p → calls (clearTimeout p rt) !! q = calls rt !! q)
  ∧ outcome <$> calls (clearTimeout p rt) !! p = outcome <$> calls rt !! p.
Proof.
  unfold clearTimeout. destruct (calls rt !! p) as [cl|] eqn:Hcl; [|by rewrite Hcl].
  assert (p < length (calls rt)) by (by eapply lookup_lt_Some).
  destruct (timeout cl); cbn; rewrite ?Hcl; repeat split; try done.
  - by rewrite length_insert.
  - intros q Hq. by rewrite list_lookup_insert_ne.
  - by rewrite list_lookup_insert_eq.
Qed.



Lemma emits_keep_calls p body rt :
  forallb is_emit body = true → calls (foldl (do_one p) rt body) = calls rt.
Proof.
  revert rt. induction body as [|d body IH]; intros rt H; [done|].
  apply andb_prop in H as [Hd Hb]. cbn. rewrite (IH _ Hb).
  by destruct d.
Qed.

(** The promise a request makes, seen right after the request returned,
    when the body has not completed. *)
Lemma construct_leaves_call_waiting o c rt :
  never_completes (executor o (length (calls rt))) = true →
  calls (construct o c rt).1.2 !! length (calls rt)
  = Some {| outcome := Pending; elapsed := false;
            timeout := match commandTimeout o with
                       | TimeoutDisabled => NoTimer
                       | TimeoutDefault => Armed (cmdTimeout (props c))
                       | TimeoutAfter ms => Armed ms
                       end;
            hasOnTimeout := onTimeout o |}.
Proof.
  unfold construct, never_completes.
  destruct (executor o (length (calls rt))) as [body thrown]. cbn.
  intros [Hb Ht]%andb_prop. destruct thrown; [done|].
  destruct (cache_key o); cbn; rewrite (emits_keep_calls _ _ _ Hb); cbn;
    by rewrite lookup_app_r, Nat.sub_diag.
Qed.




(** * Timeouts *)

Lemma gate_never_creates o c rt p : gate o c rt ≠ Some (Created p).
Proof. unfold gate. repeat case_match; congruence. Qed.

Lemma request_created_inv o c rt c1 rt1 p :
  request o c rt = (c1, rt1, Done (Created p)) →
  construct o c rt = (c1, rt1, p).
Proof.
  unfold request, check_from.
  destruct (gate o c rt) as [a|] eqn:Hgate.
  - intros [= <- <- ->]. by apply gate_never_creates in Hgate.
  - destruct (requireFeatures o).
    + destruct (construct o c rt) as [[??]?]. by intros [= <- <- <-].
    + by destruct (checkFeatureSupported _ _ c rt) as [[??]?].
Qed.

(** Once the timer has run, nothing that arrives for the call changes
    anything. *)
Lemma receive_after_timeout p rt cl s :
  calls rt !! p = Some cl → outcome cl ≠ Pending → elapsed cl = true →
  timeout cl = Fired → receive p rt s = rt.
Proof.
  intros Hcl Hout Hel Hfired.
  assert (Hsettle : ∀ x, settle p x rt = rt).
  { intros x. unfold settle. rewrite Hcl. by destruct (outcome cl). }
  destruct s as [|err|err res|v|r|]; cbn.
  - unfold timer_fires. by rewrite Hcl, Hfired.
  - unfold cmdExec_ack. by rewrite Hcl, Hel.
  - unfold settle_ack, reject_if, resolve, reject.
    destruct err as [e|]; [destruct (truthy_value e)|]; by rewrite !Hsettle.
  - apply Hsettle.
  - apply Hsettle.
  - unfold clearTimeout. by rewrite Hcl, Hfired.
Qed.

Lemma timer_fires_waiting p rt ms hook :
  calls rt !! p = Some {| outcome := Pending; elapsed := false;
                          timeout := Armed ms; hasOnTimeout := hook |} →
  calls (timer_fires p rt) !! p
    = Some {| outcome := Rejected ERRORS.TIMEOUT; elapsed := true;
              timeout := Fired; hasOnTimeout := hook |}
  ∧ invoked (timer_fires p rt)
    = invoked rt ++ (if hook then [OnTimeout p] else []).
Proof.
  intros Hcl. unfold timer_fires. rewrite Hcl. cbn.
  assert (Hlt : p < length (calls rt)) by (by eapply lookup_lt_Some).
  destruct hook; unfold reject, settle; cbn;
    rewrite list_lookup_insert_eq by done; cbn;
    rewrite list_insert_insert_eq, list_lookup_insert_eq by done;
    by rewrite ?app_nil_r.
Qed.

(** C4: when the timeout of a request is not disabled and its body does
    not complete, the expiry of the timer rejects the promise with the
    timeout error and calls the onTimeout hook once; whatever arrives for
    the call afterwards is dropped. *)
Theorem timeout_rejects_once_and_later_signals_are_dropped
    o c rt c1 rt1 p rtx :
  commandTimeout o ≠ TimeoutDisabled →
  request o c rt = (c1, rt1, Done (Created p)) →
  never_completes (executor o p) = true →
  calls rtx !! p = calls rt1 !! p →
  outcome <$> calls (timer_fires p rtx) !! p = Some (Rejected ERRORS.TIMEOUT)
  ∧ elapsed <$> calls (timer_fires p rtx) !! p = Some true
  ∧ invoked (timer_fires p rtx)
    = invoked rtx ++ (if onTimeout o then [OnTimeout p] else [])
  ∧ ∀ signals, foldl (receive p) (timer_fires p rtx) signals = timer_fires p rtx.
Proof.
  intros Htimeout Hreq Hquiet Hsame.
  apply request_created_inv in Hreq.
  assert (Hp : p = length (calls rt)).
  { unfold construct in Hreq. destruct (executor o _). by injection Hreq. }
  subst p.
  pose proof (construct_leaves_call_waiting o c rt Hquiet) as Hcl.
  rewrite Hreq in Hcl. apply (eq_trans Hsame) in Hcl.
  assert (∃ ms, calls rtx !! length (calls rt)
    = Some {| outcome := Pending; elapsed := false; timeout := Armed ms;
              hasOnTimeout := onTimeout o |}) as [ms Harmed].
  { destruct (commandTimeout o); [done|by eexists..]. }
  destruct (timer_fires_waiting _ _ _ _ Harmed) as [Hfired Hlog].
  rewrite Hfired. repeat split; [done|].
  induction signals as [|s signals IH]; [done|]. cbn.
  by rewrite (receive_after_timeout _ _ _ s Hfired).
Qed.

Lemma timeout_rejects_once_and_later_signals_are_dropped_witness :
  outcome <$> calls (timer_fires 1 after_never_answered) !! 1
    = Some (Rejected ERRORS.TIMEOUT)
  ∧ elapsed <$> calls (timer_fires 1 after_never_answered) !! 1 = Some true
  ∧ invoked (timer_fires 1 after_never_answered)
    = invoked after_never_answered ++ [OnTimeout 1]
  ∧ ∀ signals,
      foldl (receive 1) (timer_fires 1 after_never_answered) signals
      = timer_fires 1 after_never_answered.
Proof.
  apply (timeout_rejects_once_and_later_signals_are_dropped
           never_answered online_client offline_runtime
           online_client after_never_answered 1 after_never_answered);
    [discriminate | reflexivity | reflexivity | reflexivity].
Defined.

(** * The subscription registries *)

(** C5 at the failing input: while the client is disconnected,
    [unsubscribeObject] leaves the entry of the pattern in the registry
    with no callback, where [unsubscribeState] deletes it. *)
Theorem unsubscribeObject_keeps_empty_entry_offline :
  cbs <$> objectsSubscribes
            (run (H := fragment_host) (offline_client, offline_runtime)
               [SubscribeObject "a" 1; UnsubscribeObject "a" (Some 1)]).1 !! "a"
    = Some []
  ∧ statesSubscribes
      (run (H := fragment_host) (offline_client, offline_runtime)
         [SubscribeState "a" false 1; UnsubscribeState "a" (Some 1)]).1 !! "a"
    = None
  ∧ objectsSubscribes
      (run (H := fragment_host) (online_client, offline_runtime)
         [SubscribeObject "a" 1; UnsubscribeObject "a" (Some 1)]).1 !! "a"
    = None.
Proof. repeat split; vm_compute; reflexivity. Qed.

Section Registries.
Context `{Host}.

(** What [unsubscribeState] does when no callback is left. *)
Lemma unsubscribeState_removes_empty id cb c rt e :
  statesSubscribes c !! id = Some e →
  match cb with Some x => remove_first x (cbs e) | None => [] end = [] →
  statesSubscribes (unsubscribeState id cb c rt).1 !! id = None
  ∧ wire (unsubscribeState id cb c rt).2
    = wire rt ++ (if connected c then [notify "unsubscribe" id] else []).
Proof.
  intros He Hempty. unfold unsubscribeState. rewrite He, Hempty. cbn.
  split; [apply lookup_delete_eq|].
  destruct (connected c); cbn; by rewrite ?app_nil_r.
Qed.

(** [unsubscribeObject] does the same only while connected. *)
Lemma unsubscribeObject_removes_empty_online id cb c rt e :
  connected c = true →
  objectsSubscribes c !! id = Some e →
  match cb with Some x => remove_first x (cbs e) | None => [] end = [] →
  objectsSubscribes (unsubscribeObject id cb c rt).1 !! id = None
  ∧ wire (unsubscribeObject id cb c rt).2
    = wire rt ++ [notify "unsubscribeObjects" id].
Proof.
  intros Hconn He Hempty. unfold unsubscribeObject.
  rewrite He, Hempty, Hconn. cbn. split; [apply lookup_delete_eq|done].
Qed.

(** While disconnected the entry stays, with no callback. *)
Lemma unsubscribeObject_keeps_empty_offline id cb c rt e :
  connected c = false →
  objectsSubscribes c !! id = Some e →
  match cb with Some x => remove_first x (cbs e) | None => [] end = [] →
  cbs <$> objectsSubscribes (unsubscribeObject id cb c rt).1 !! id = Some []
  ∧ wire (unsubscribeObject id cb c rt).2 = wire rt.
Proof.
  intros Hconn He Hempty. unfold unsubscribeObject.
  rewrite He, Hempty, Hconn. cbn. by rewrite lookup_insert_eq.
Qed.

Lemma push_new_not_empty cb e : cbs (push_new cb e) ≠ [].
Proof.
  unfold push_new. case_bool_decide as Hin; cbn.
  - intros Hnil. rewrite Hnil in Hin. by apply elem_of_nil in Hin.
  - by destruct (cbs e).
Qed.

Lemma subscribeState_no_empty_entry id binary cb c rt s :
  subscribeState id binary cb c rt = Some s →
  no_empty_entry (statesSubscribes c) → no_empty_entry (statesSubscribes s.1).
Proof.
  unfold subscribeState, getBinaryState, request. intros Hs Hinv.
  assert (Hins : ∀ e, cbs e ≠ [] →
    no_empty_entry (<[id := e]> (statesSubscribes c)))
    by (intros e He; by apply map_Forall_insert_2).
  destruct (statesSubscribes c !! id) as [e|] eqn:He; cbn in Hs.
  - repeat (case_match; simplify_eq/=);
      try (rewrite construct_keeps_connection_without_key by done; cbn);
      apply Hins, push_new_not_empty.
  - destruct (RegExp _) as [r|]; [|done]. cbn in Hs.
    repeat (case_match; simplify_eq/=);
      try (rewrite construct_keeps_connection_without_key by done; cbn);
      by apply Hins.
Qed.

Lemma unsubscribeState_no_empty_entry id cb c rt :
  no_empty_entry (statesSubscribes c) →
  no_empty_entry (statesSubscribes (unsubscribeState id cb c rt).1).
Proof.
  intros Hinv. unfold unsubscribeState.
  destruct (statesSubscribes c !! id) as [e|]; [|done].
  destruct (match cb with Some x => _ | None => _ end) eqn:Hrest; cbn.
  - by apply map_Forall_delete.
  - by apply map_Forall_insert_2.
Qed.

End Registries.

(** * Footprints of the operations *)

Lemma resolutions_app l1 l2 :
  resolutions (l1 ++ l2) = resolutions l1 + resolutions l2.
Proof. unfold resolutions. by rewrite filter_app, length_app. Qed.

Lemma resolutions_none l :
  Forall (λ i, is_first_resolve i = false) l → resolutions l = 0.
Proof.
  unfold resolutions. induction 1 as [|i l Hi _ IH]; [done|].
  rewrite filter_cons_False; [done|congruence].
Qed.

Lemma state_subscribers_no_resolve id state subs :
  resolutions (state_subscribers id state subs) = 0.
Proof.
  apply resolutions_none, Forall_bind, Forall_forall.
  intros [pat e] _. cbn. destruct (reg e id); [|constructor].
  by apply Forall_fmap, Forall_forall.
Qed.

Lemma object_subscribers_no_resolve id obj old subs :
  resolutions (object_subscribers id obj old subs) = 0.
Proof.
  apply resolutions_none, Forall_bind, Forall_forall.
  intros [pat e] _. cbn. destruct (_ || _); [|constructor].
  by apply Forall_fmap, Forall_forall.
Qed.

Lemma connection_handlers_no_resolve b c rt :
  calls (connection_handlers b c rt) = calls rt
  ∧ resolutions (invoked (connection_handlers b c rt)) = resolutions (invoked rt).
Proof.
  split; [done|]. unfold connection_handlers. cbn [invoke invoked].
  rewrite resolutions_app, (resolutions_none (_ <$> _)); [lia|].
  by apply Forall_fmap, Forall_forall.
Qed.

Lemma progress_no_resolve p c rt :
  calls (progress p c rt) = calls rt
  ∧ resolutions (invoked (progress p c rt)) = resolutions (invoked rt).
Proof.
  unfold progress. destruct (onProgress (props c)); [|done].
  split; [done|]. cbn [invoke invoked].
  rewrite resolutions_app, (resolutions_none [_]); [lia|by repeat constructor].
Qed.

Section Footprints.
Context `{Host}.

Ltac kfc :=
  unfold keeps_first_connection;
  split; [try done|split; [try done|split; [try done|]]].

Lemma keeps_first_connection_refl s : keeps_first_connection s s.
Proof. by repeat split. Qed.

Lemma request_emitting_footprint ev xs k c rt :
  keeps_first_connection (c, rt)
    (request (untimed (emitting ev xs k)) c rt).1.
Proof.
  unfold request, gate. cbn.
  destruct (connected c); cbn; [|apply keeps_first_connection_refl].
  repeat split; cbn. intros q cl Hq. by apply lookup_app_l_Some.
Qed.

Lemma _subscribe_footprint b c rt :
  keeps_first_connection (c, rt) (_subscribe b c rt).
Proof. unfold _subscribe. by repeat (case_match; cbn). Qed.

Lemma subscribeState_footprint id binary cb c rt s :
  subscribeState id binary cb c rt = Some s → keeps_first_connection (c, rt) s.
Proof.
  unfold subscribeState, getBinaryState. intros Hs.
  destruct (statesSubscribes c !! id) as [e|]; cbn in Hs;
    [|destruct (RegExp _); cbn in Hs; [|done]].
  all: destruct (connected c) eqn:Hconn; [destruct binary|]; cbn in Hs.
  all: try (injection Hs as <-; by repeat split).
  all: match type of Hs with
       | context [request ?o ?c1 ?rt1] =>
           pose proof (request_emitting_footprint
                         "getBinaryState" [VStr id] AckSettle c1 rt1) as Hfp;
           destruct (request o c1 rt1) as [[c2 rt2] ?]
       end; injection Hs as <-; cbn in Hfp;
       destruct Hfp as (? & ? & ? & ?); by repeat split.
Qed.

Lemma subscribeObject_footprint id cb c rt s :
  subscribeObject id cb c rt = Some s → keeps_first_connection (c, rt) s.
Proof.
  unfold subscribeObject. intros Hs.
  destruct (objectsSubscribes c !! id) as [e|]; cbn in Hs;
    [|destruct (RegExp _); cbn in Hs; [|done]].
  all: injection Hs as <-; destruct (connected c); by repeat split.
Qed.

Lemma unsubscribeState_footprint id cb c rt :
  keeps_first_connection (c, rt) (unsubscribeState id cb c rt).
Proof. unfold unsubscribeState. by repeat (case_match; cbn). Qed.

Lemma unsubscribeObject_footprint id cb c rt :
  keeps_first_connection (c, rt) (unsubscribeObject id cb c rt).
Proof. unfold unsubscribeObject. by repeat (case_match; cbn). Qed.

Lemma stateChange_footprint id state c rt :
  keeps_first_connection (c, rt) (stateChange id state c rt).
Proof.
  unfold stateChange. kfc. cbn [snd invoke invoked].
  rewrite resolutions_app, state_subscribers_no_resolve. lia.
Qed.

Lemma objectChange_footprint id obj c rt :
  keeps_first_connection (c, rt) (objectChange id obj c rt).
Proof.
  unfold objectChange. destruct (objects c) as [objs|]; [|by repeat split].
  destruct (update_mirror id obj objs) as [[objs' old] changed].
  destruct (changed && _); kfc; cbn [snd invoke invoked];
    rewrite !resolutions_app, object_subscribers_no_resolve;
    rewrite ?(resolutions_none [_]) by (by repeat constructor); lia.
Qed.

Lemma on_disconnect_footprint c rt :
  keeps_first_connection (c, rt) (on_disconnect c rt).
Proof.
  unfold on_disconnect. kfc; cbn [snd fst].
  - by rewrite (proj1 (connection_handlers_no_resolve _ _ _)),
         (proj1 (progress_no_resolve _ _ _)).
  - by rewrite (proj2 (connection_handlers_no_resolve _ _ _)),
         (proj2 (progress_no_resolve _ _ _)).
Qed.

Lemma mark_loaded_footprint c rt :
  keeps_first_connection (c, rt) (mark_loaded c rt).
Proof.
  unfold mark_loaded. destruct (loaded c); [by repeat split|].
  kfc; cbn [snd fst].
  - by rewrite (proj1 (progress_no_resolve _ _ _)).
  - by rewrite (proj2 (progress_no_resolve _ _ _)).
Qed.

Lemma keeps_first_connection_trans s1 s2 s3 :
  keeps_first_connection s1 s2 → keeps_first_connection s2 s3 →
  keeps_first_connection s1 s3.
Proof.
  intros (Ha & Hb & Hc & Hd) (Ha' & Hb' & Hc' & Hd'). kfc; [congruence..| |congruence].
  intros q cl Hq. by apply Hc', Hc.
Qed.

(** Logging calls that are not calls of the resolver changes nothing
    for the promise. *)
Lemma invoke_footprint c c' rt l :
  _waitForFirstConnection c' = _waitForFirstConnection c →
  _waitForFirstConnectionResolve c' = _waitForFirstConnectionResolve c →
  Forall (λ i, is_first_resolve i = false) l →
  keeps_first_connection (c, rt) (c', invoke l rt).
Proof.
  intros Ha Hb Hl. kfc. cbn [snd invoke invoked].
  rewrite resolutions_app, (resolutions_none l Hl). lia.
Qed.

Lemma connection_handlers_footprint b c c' rt :
  _waitForFirstConnection c' = _waitForFirstConnection c →
  _waitForFirstConnectionResolve c' = _waitForFirstConnectionResolve c →
  keeps_first_connection (c, rt) (c', connection_handlers b c' rt).
Proof.
  intros Ha Hb. apply invoke_footprint; [done..|].
  by apply Forall_fmap, Forall_forall.
Qed.

Lemma progress_footprint p c c' c'' rt :
  _waitForFirstConnection c' = _waitForFirstConnection c →
  _waitForFirstConnectionResolve c' = _waitForFirstConnectionResolve c →
  keeps_first_connection (c, rt) (c', progress p c'' rt).
Proof.
  intros Ha Hb. unfold progress. destruct (onProgress _).
  - apply invoke_footprint; [done..|by repeat constructor].
  - by kfc.
Qed.

Lemma on_reconnect_footprint c rt :
  keeps_first_connection (c, rt) (on_reconnect c rt).
Proof.
  unfold on_reconnect.
  eapply (keeps_first_connection_trans _ (set_connected true c, progress READY c rt));
    [by apply progress_footprint|].
  cbn [waitForRestart set_connected].
  destruct (waitForRestart c).
  - apply invoke_footprint; [done..|by repeat constructor].
  - pose proof (_subscribe_footprint true (set_connected true c)
                  (progress READY c rt)) as Hsub.
    destruct (_subscribe true _ _) as [c2 rt2].
    eapply keeps_first_connection_trans; [exact Hsub|].
    by apply connection_handlers_footprint.
Qed.

Lemma emits_keep_invoked p body rt :
  forallb is_emit body = true → invoked (foldl (do_one p) rt body) = invoked rt.
Proof.
  revert rt. induction body as [|d body IH]; intros rt Hb; [done|].
  apply andb_prop in Hb as [Hd Hb]. cbn. rewrite (IH _ Hb). by destruct d.
Qed.

(** Making a promise whose executor only sends leaves the promises there
    were as they are. *)
Lemma construct_footprint o c rt :
  never_completes (executor o (length (calls rt))) = true →
  keeps_first_connection (c, rt) (construct o c rt).1.
Proof.
  unfold construct, never_completes.
  destruct (executor o (length (calls rt))) as [body thrown]. cbn [fst snd].
  intros [Hb Ht]%andb_prop. destruct thrown; [done|].
  kfc; cbn [fst snd].
  - by destruct (cache_key o).
  - by destruct (cache_key o).
  - intros q cl Hq. rewrite (emits_keep_calls _ _ _ Hb). cbn.
    by apply lookup_app_l_Some.
  - by rewrite (emits_keep_invoked _ _ _ Hb).
Qed.

Lemma request_footprint o c rt :
  (∀ p, never_completes (executor o p) = true) →
  keeps_first_connection (c, rt) (request o c rt).1.
Proof.
  intros Hquiet. unfold request.
  destruct (gate o c rt); [apply keeps_first_connection_refl|].
  destruct (requireFeatures o) as [|f fs].
  - pose proof (construct_footprint o c rt (Hquiet _)) as Hfp.
    by destruct (construct o c rt) as [[c' rt'] p].
  - unfold check_from, checkFeatureSupported, request_now.
    set (check := {| cacheKey := Some ("supportedFeatures_" +:+ f) |}).
    destruct (gate check c rt); [apply keeps_first_connection_refl|].
    pose proof (construct_footprint check c rt eq_refl) as Hfp.
    by destruct (construct check c rt) as [[c' rt'] p].
Qed.

Lemma getSystemConfig_footprint update c rt :
  keeps_first_connection (c, rt) (getSystemConfig update c rt).1.
Proof.
  unfold getSystemConfig.
  destruct (gate _ c rt); [apply keeps_first_connection_refl|].
  pose proof (construct_footprint (getSystemConfig_options update) c rt eq_refl)
    as Hfp.
  destruct (construct _ c rt) as [[c1 rt1] p]. cbn [fst] in Hfp.
  pose proof (request_emitting_footprint "getObject" [VStr "system.config"]
                AckSettle c1 rt1) as Hfp'.
  unfold getObject.
  destruct (request _ c1 rt1) as [[c2 rt2] e]. cbn [fst] in *.
  by eapply keeps_first_connection_trans.
Qed.

Lemma onConnect_footprint c rt :
  keeps_first_connection (c, rt) (onConnect c rt).
Proof.
  unfold onConnect. destruct (this_doNotLoadACL c); [|by repeat split].
  destruct (admin5only (props c) && negb (isWeb rt)).
  - pose proof (request_footprint (getCompactSystemConfig_options false) c rt
                  (λ _, eq_refl)) as Hfp.
    unfold getCompactSystemConfig.
    by destruct (request _ c rt) as [[c' rt'] e].
  - pose proof (getSystemConfig_footprint false c rt) as Hfp.
    by destruct (getSystemConfig false c rt) as [[c' rt'] e].
Qed.

Lemma loadData_begins_footprint c rt :
  keeps_first_connection (c, rt) (loadData_begins c rt).
Proof.
  unfold loadData_begins.
  eapply (keeps_first_connection_trans _ (c, invoke [LoadData] rt)).
  - apply invoke_footprint; [done..|by repeat constructor].
  - destruct (loaded c); [apply keeps_first_connection_refl|].
    apply onConnect_footprint.
Qed.

(** Everything [onPreConnect] does before it looks at the resolver. *)
Lemma onPreConnect_prelude_footprint sec c rt :
  keeps_first_connection (c, rt)
    (let c2 := set_isSecure sec
                 (set_connected true
                    (if _authTimer c then set_authTimer false c else c)) in
     if waitForRestart c2 then (c2, invoke [PageReload] rt)
     else
       let '(c2', rt1) := if firstConnect c2 then loadData_begins c2 rt
                          else (c2, progress READY c2 rt) in
       let '(c', rt2) := _subscribe true c2' rt1 in
       (c', connection_handlers true c' rt2)).
Proof.
  cbv zeta.
  set (c2 := set_isSecure sec _).
  assert (Hc2 : _waitForFirstConnection c2 = _waitForFirstConnection c
                ∧ _waitForFirstConnectionResolve c2 = _waitForFirstConnectionResolve c)
    by (unfold c2; by destruct (_authTimer c)).
  destruct Hc2 as [Ha Hb].
  destruct (waitForRestart c2).
  - apply invoke_footprint; [done..|by repeat constructor].
  - assert (Hrt1 : keeps_first_connection (c, rt)
                     (if firstConnect c2 then loadData_begins c2 rt
                      else (c2, progress READY c2 rt))).
    { destruct (firstConnect c2).
      - eapply (keeps_first_connection_trans _ (c2, rt)); [by kfc|].
        apply loadData_begins_footprint.
      - by apply progress_footprint. }
    destruct (if firstConnect c2 then _ else _) as [c2' rt1].
    pose proof (_subscribe_footprint true c2' rt1) as Hsub.
    destruct (_subscribe true c2' rt1) as [c3 rt3].
    eapply keeps_first_connection_trans; [exact Hrt1|].
    eapply keeps_first_connection_trans; [exact Hsub|].
    by apply connection_handlers_footprint.
Qed.

Lemma settle_pending p x rt cl :
  calls rt !! p = Some cl → outcome cl = Pending →
  outcome <$> calls (settle p x rt) !! p = Some x
  ∧ invoked (settle p x rt) = invoked rt.
Proof.
  intros Hcl Hout. unfold settle. rewrite Hcl, Hout. cbn.
  rewrite list_lookup_insert_eq by (by eapply lookup_lt_Some). done.
Qed.

(** [onPreConnect] ends by calling the resolver, if it is still there. *)
Lemma onPreConnect_resolver isOk sec c rt :
  ∃ c3 rt3,
    keeps_first_connection (c, rt) (c3, rt3)
    ∧ onPreConnect isOk sec c rt
      = match _waitForFirstConnectionResolve c3 with
        | Some p =>
            (set_waitForFirstConnectionResolve None c3,
             resolve p VUndefined (invoke [FirstConnectionResolve] rt3))
        | None => (c3, rt3)
        end.
Proof.
  pose proof (onPreConnect_prelude_footprint sec c rt) as Hpre.
  unfold onPreConnect. cbv zeta in *.
  destruct (if waitForRestart _ then _ else _) as [c3 rt3].
  by exists c3, rt3.
Qed.

Lemma perform_footprint s a :
  is_authenticated a = false → keeps_first_connection s (perform s a).
Proof.
  destruct s as [c rt].
  destruct a as [isOk sec| | | |b|id binary cb|id cb|id cb|id cb|id obj|id state];
    intros Ha; try discriminate Ha; cbn [perform].
  - apply on_reconnect_footprint.
  - apply on_disconnect_footprint.
  - apply mark_loaded_footprint.
  - by kfc.
  - destruct (subscribeState id binary cb c rt) as [s|] eqn:Hs; cbn.
    + by eapply subscribeState_footprint.
    + apply keeps_first_connection_refl.
  - apply unsubscribeState_footprint.
  - destruct (subscribeObject id cb c rt) as [s|] eqn:Hs; cbn.
    + by eapply subscribeObject_footprint.
    + apply keeps_first_connection_refl.
  - apply unsubscribeObject_footprint.
  - apply objectChange_footprint.
  - apply stateChange_footprint.
Qed.

(** * The state registry never holds an entry without callbacks *)

(** A request touches nothing of the client but its cache. *)
Lemma construct_client o c rt :
  ∃ m, (construct o c rt).1.1 = set_promises (λ _, m) c.
Proof.
  unfold construct. destruct (executor o (length (calls rt))) as [body thrown].
  destruct (cache_key o); cbn; eexists; [reflexivity|].
  instantiate (1 := _promises c). by destruct c.
Qed.

Lemma request_client o c rt :
  ∃ m, (request o c rt).1.1 = set_promises (λ _, m) c.
Proof.
  assert (Hid : ∃ m, c = set_promises (λ _, m) c)
    by (exists (_promises c); by destruct c).
  unfold request. destruct (gate o c rt); [done|].
  destruct (requireFeatures o) as [|f fs].
  - destruct (construct_client o c rt) as [m Hm].
    destruct (construct o c rt) as [[c' rt'] p]. by exists m.
  - unfold check_from, checkFeatureSupported, request_now.
    set (check := {| cacheKey := Some ("supportedFeatures_" +:+ f) |}).
    destruct (gate check c rt); [done|].
    destruct (construct_client check c rt) as [m Hm].
    destruct (construct check c rt) as [[c' rt'] p]. by exists m.
Qed.

Lemma getSystemConfig_client update c rt :
  ∃ m, (getSystemConfig update c rt).1.1 = set_promises (λ _, m) c.
Proof.
  unfold getSystemConfig. destruct (gate _ c rt).
  { exists (_promises c). by destruct c. }
  destruct (construct_client (getSystemConfig_options update) c rt) as [m Hm].
  destruct (construct _ c rt) as [[c1 rt1] p]. cbn [fst] in Hm. subst c1.
  unfold getObject.
  destruct (request_client (untimed (emitting "getObject" [VStr "system.config"]
                                       AckSettle))
              (set_promises (λ _, m) c) rt1) as [m' Hm'].
  destruct (request _ _ rt1) as [[c2 rt2] e]. cbn [fst] in *. subst c2.
  by exists m'.
Qed.

Lemma loadData_begins_client c rt :
  ∃ m, (loadData_begins c rt).1 = set_promises (λ _, m) c.
Proof.
  assert (Hid : ∃ m, c = set_promises (λ _, m) c)
    by (exists (_promises c); by destruct c).
  unfold loadData_begins, onConnect. destruct (loaded c); [done|].
  destruct (this_doNotLoadACL c); [|done].
  destruct (admin5only (props c) && negb (isWeb (invoke [LoadData] rt))).
  - destruct (request_client (getCompactSystemConfig_options false) c
                (invoke [LoadData] rt)) as [m Hm].
    unfold getCompactSystemConfig.
    destruct (request _ c _) as [[c' rt'] e]. by exists m.
  - destruct (getSystemConfig_client false c (invoke [LoadData] rt)) as [m Hm].
    destruct (getSystemConfig false c _) as [[c' rt'] e]. by exists m.
Qed.

(** What [onPreConnect] leaves of the client and what it sets. *)
Lemma onPreConnect_client isOk sec c rt :
  props (onPreConnect isOk sec c rt).1 = props c
  ∧ statesSubscribes (onPreConnect isOk sec c rt).1 = statesSubscribes c
  ∧ objectsSubscribes (onPreConnect isOk sec c rt).1 = objectsSubscribes c
  ∧ objects (onPreConnect isOk sec c rt).1 = objects c
  ∧ states (onPreConnect isOk sec c rt).1 = states c
  ∧ onConnectionHandlers (onPreConnect isOk sec c rt).1 = onConnectionHandlers c
  ∧ firstConnect (onPreConnect isOk sec c rt).1 = firstConnect c
  ∧ loaded (onPreConnect isOk sec c rt).1 = loaded c
  ∧ waitForRestart (onPreConnect isOk sec c rt).1 = waitForRestart c
  ∧ connected (onPreConnect isOk sec c rt).1 = true
  ∧ subscribed (onPreConnect isOk sec c rt).1
    = (if waitForRestart c then subscribed c else true).
Proof.
  unfold onPreConnect. cbv zeta.
  set (c2 := set_isSecure isOk _) || set (c2 := set_isSecure sec _).
  assert (Hc2 : props c2 = props c ∧ statesSubscribes c2 = statesSubscribes c
    ∧ objectsSubscribes c2 = objectsSubscribes c ∧ objects c2 = objects c
    ∧ states c2 = states c ∧ onConnectionHandlers c2 = onConnectionHandlers c
    ∧ firstConnect c2 = firstConnect c ∧ loaded c2 = loaded c
    ∧ waitForRestart c2 = waitForRestart c ∧ connected c2 = true
    ∧ subscribed c2 = subscribed c)
    by (unfold c2; by destruct (_authTimer c)).
  destruct Hc2 as (H1 & H2 & H3 & H4 & H5 & H6 & H7 & H8 & H9 & H10 & H11).
  clearbody c2. rewrite H9. destruct (waitForRestart c).
  - destruct (_waitForFirstConnectionResolve c2); cbn; by repeat split.
  - assert (Hc2' : ∃ m,
      (if firstConnect c2 then loadData_begins c2 rt
       else (c2, progress READY c2 rt)).1 = set_promises (λ _, m) c2).
    { destruct (firstConnect c2); [apply loadData_begins_client|].
      exists (_promises c2). by destruct c2. }
    destruct Hc2' as [m Hm].
    destruct (if firstConnect c2 then _ else _) as [c2' rt1]. cbn [fst] in Hm.
    subst c2'. unfold _subscribe. cbn [andb negb subscribed set_promises].
    destruct (subscribed c2) eqn:Hs; cbn;
      destruct (_waitForFirstConnectionResolve c2); cbn; by repeat split.
Qed.

Lemma perform_keeps_states_registry s a :
  (∀ id b cb, a ≠ SubscribeState id b cb) →
  (∀ id cb, a ≠ UnsubscribeState id cb) →
  statesSubscribes (perform s a).1 = statesSubscribes s.1.
Proof.
  destruct s as [c rt].
  destruct a as [isOk sec| | | |b|id binary cb|id cb|id cb|id cb|id obj|id state];
    intros Hsub Hunsub; try congruence; cbn [perform];
    [apply onPreConnect_client|..];
    unfold on_reconnect, on_disconnect, mark_loaded, _subscribe,
      subscribeObject, unsubscribeObject, objectChange, stateChange;
    repeat (case_match; simplify_eq/=); try done;
    by destruct (RegExp _).
Qed.

Lemma perform_no_empty_state_entry s a :
  no_empty_entry (statesSubscribes s.1) →
  no_empty_entry (statesSubscribes (perform s a).1).
Proof.
  intros Hinv.
  destruct a as [isOk sec| | | |b|id binary cb|id cb|id cb|id cb|id obj|id state];
    try (by rewrite perform_keeps_states_registry).
  - destruct s as [c rt]. cbn [perform].
    destruct (subscribeState id binary cb c rt) as [s'|] eqn:Hs; [|done].
    by eapply subscribeState_no_empty_entry.
  - destruct s as [c rt]. by apply unsubscribeState_no_empty_entry.
Qed.

(** X4: for the state registry the invariant holds: after every sequence
    of actions no entry is without callbacks. *)
Lemma states_registry_has_no_empty_entry p rt l :
  no_empty_entry (statesSubscribes (run (new_Connection p rt) l).1).
Proof.
  assert (Hrun : ∀ s, no_empty_entry (statesSubscribes s.1) →
                      no_empty_entry (statesSubscribes (run s l).1)).
  { induction l as [|a l IH]; intros s Hs; [done|]. cbn.
    by apply IH, perform_no_empty_state_entry. }
  apply Hrun. cbn. apply map_Forall_empty.
Qed.

(** * The first-connection promise *)

Lemma first_connection_step q n b s a :
  first_connection_state q n b s →
  first_connection_state q n (b || is_authenticated a) (perform s a).
Proof.
  intros (Hfield & Hres & Hcall & Hcount).
  destruct (is_authenticated a) eqn:Ha.
  - destruct a as [isOk sec| | | | | | | | | |]; try discriminate Ha.
    destruct s as [c rt]. cbn [perform].
    destruct (onPreConnect_resolver isOk sec c rt)
      as (c3 & rt3 & (Hf3 & Hr3 & Hc3 & Hn3) & ->).
    cbn [fst snd] in *. rewrite Hr3, Hres, orb_true_r.
    destruct (calls rt !! q) as [cl|] eqn:Hq; [|by destruct b].
    apply Hc3 in Hq. unfold first_connection_state.
    destruct b; cbn in Hcall; cbn [fst snd].
    + split; [congruence|]. split; [congruence|].
      rewrite Hq. split; [done|]. lia.
    + injection Hcall as Hpending.
      destruct (settle_pending q (Fulfilled VUndefined)
                  (invoke [FirstConnectionResolve] rt3) cl Hq Hpending)
        as [Hout Hlog].
      split; [cbn; congruence|]. split; [done|]. split; [exact Hout|].
      unfold resolve. rewrite Hlog. cbn [invoke invoked].
      rewrite resolutions_app.
      change (resolutions [FirstConnectionResolve]) with 1. lia.
  - rewrite orb_false_r.
    destruct (perform_footprint s a Ha) as (Hf & Hr & Hc & Hn).
    split; [congruence|]. split; [congruence|]. split; [|congruence].
    destruct (calls s.2 !! q) as [cl|] eqn:Hq; [|by destruct b].
    by rewrite (Hc q cl Hq).
Qed.

Lemma first_connection_run q n l : ∀ b s,
  first_connection_state q n b s →
  first_connection_state q n (b || existsb is_authenticated l) (run s l).
Proof.
  induction l as [|a l IH]; intros b s Hs; cbn.
  - by rewrite orb_false_r.
  - rewrite orb_assoc. apply IH. by apply first_connection_step.
Qed.

Lemma new_Connection_first_connection p rt :
  first_connection_state (length (calls rt)) (resolutions (invoked rt)) false
    (new_Connection p rt).
Proof.
  split; [done|split; [done|split]].
  - cbn. by rewrite lookup_app_r, Nat.sub_diag.
  - change (invoked (new_Connection p rt).2) with (invoked rt). lia.
Qed.

(** C9: the first-connection promise is made by the constructor alone;
    through every sequence of authentications, reconnects, disconnects,
    subscriptions and notifications its resolver is called once, by the
    first callback of the authentication, and never again. *)
Theorem first_connection_promise_resolves_once p rt l :
  _waitForFirstConnection (run (new_Connection p rt) l).1 = length (calls rt)
  ∧ resolutions (invoked (run (new_Connection p rt) l).2)
    = resolutions (invoked rt) + (if existsb is_authenticated l then 1 else 0)
  ∧ outcome <$> calls (run (new_Connection p rt) l).2 !! length (calls rt)
    = Some (if existsb is_authenticated l then Fulfilled VUndefined else Pending).
Proof.
  destruct (first_connection_run _ _ l false _ (new_Connection_first_connection p rt))
    as (Hfield & _ & Hcall & Hcount).
  done.
Qed.

End Footprints.

(** * Incoming notifications *)

Lemma json_strong_ind (P : json → Prop) :
  P JNull → (∀ b, P (JBool b)) → (∀ n, P (JNum n)) → (∀ s, P (JStr s)) →
  (∀ items, Forall P items → P (JArr items)) →
  (∀ fields, Forall (λ kv, P kv.2) fields → P (JObj fields)) →
  ∀ j, P j.
Proof.
  intros HN HB HZ HS HA HO. fix IH 1. intros [ |b|n|s|items|fields].
  - exact HN.
  - apply HB.
  - apply HZ.
  - apply HS.
  - apply HA. induction items as [|x xs IHxs]; constructor; [apply IH|exact IHxs].
  - apply HO. induction fields as [|[k x] xs IHxs]; constructor; [apply IH|exact IHxs].
Qed.

Lemma json_eqb_eq a : ∀ b, json_eqb a b = true ↔ a = b.
Proof.
  induction a as [ |x|x|x|items IH|fields IH] using json_strong_ind;
    intros [ |y|y|y|items'|fields']; cbn; try (split; congruence).
  - destruct x, y; cbn; split; congruence.
  - rewrite Z.eqb_eq. split; congruence.
  - rewrite bool_decide_eq_true. split; congruence.
  - revert items'. induction IH as [|x xs Hx _ IHxs]; intros [|y ys];
      try (split; congruence).
    rewrite andb_true_iff, Hx, IHxs. split.
    + intros [-> [= ->]]. done.
    + intros [= -> ->]. done.
  - revert fields'. induction IH as [|[k x] xs Hx _ IHxs]; intros [|[k' y] ys];
      try (split; congruence).
    cbn in Hx. rewrite !andb_true_iff, bool_decide_eq_true, Hx, IHxs. split.
    + intros [[-> ->] [= ->]]. done.
    + intros [= -> -> ->]. done.
Qed.

Lemma same_json_text_eq a b : same_json_text a b = true ↔ a = b.
Proof. unfold same_json_text. rewrite json_eqb_eq. split; congruence. Qed.

Lemma get_field_set_field_ne k k' v d :
  k ≠ k' → get_field k (set_field k' v d) = get_field k d.
Proof.
  intros Hne. induction d as [|[k0 v0] d IH]; cbn.
  - by rewrite bool_decide_eq_false_2.
  - case_bool_decide as Hk0; cbn.
    + subst k0. by rewrite !bool_decide_eq_false_2 by done.
    + case_bool_decide; [done|apply IH].
Qed.

Lemma summary_stamp_rev id o stored :
  summary id (stamp_rev o stored) = summary id stored.
Proof.
  unfold summary, stamp_rev. f_equal.
  destruct (get_field "_rev" o) as [rev|]; [|done].
  destruct (truthy rev); [|done]. by apply get_field_set_field_ne.
Qed.

(** The three results of [update_mirror], told apart. *)
Lemma update_mirror_spec id obj objs :
  (update_mirror id obj objs).1.1
    = match obj with Some o => <[id := o]> objs | None => delete id objs end
  ∧ (update_mirror id obj objs).1.2 = summary id <$> objs !! id
  ∧ ((update_mirror id obj objs).2 = true ↔ changes id obj objs).
Proof.
  unfold update_mirror, changes. destruct obj as [o|].
  - destruct (objs !! id) as [stored|] eqn:Hstored.
    + rewrite lookup_insert_eq. cbn [fmap option_fmap option_map].
      rewrite summary_stamp_rev.
      destruct (same_json_text _ o) eqn:Hsame; cbn [fst snd].
      * apply same_json_text_eq in Hsame. rewrite Hsame.
        repeat split; [congruence|done].
      * rewrite insert_insert_eq. repeat split. intros _ Heq.
        apply same_json_text_eq in Heq. congruence.
    + rewrite Hstored. cbn. done.
  - destruct (objs !! id) as [stored|] eqn:Hstored; cbn.
    + done.
    + repeat split; [|congruence|done]. symmetry. by apply delete_id.
Qed.

Lemma elem_of_object_subscribers i id obj old subs :
  i ∈ object_subscribers id obj old subs
  ↔ ∃ pat e cb, subs !! pat = Some e ∧ (pat = id ∨ reg e id = true)
               ∧ cb ∈ cbs e ∧ i = ObjectCb cb id obj old.
Proof.
  unfold object_subscribers. rewrite list_elem_of_bind. split.
  - intros ([pat e] & Hi & Hpe%elem_of_map_to_list).
    destruct (bool_decide (pat = id) || reg e id) eqn:Hacc;
      [|by apply elem_of_nil in Hi].
    apply list_elem_of_fmap in Hi as (cb & -> & Hcb).
    exists pat, e, cb. repeat split; [done| |done].
    apply orb_true_iff in Hacc as [Heq%bool_decide_eq_true|Hreg]; auto.
  - intros (pat & e & cb & Hpe & Hacc & Hcb & ->).
    exists (pat, e). split; [|by apply elem_of_map_to_list].
    assert (bool_decide (pat = id) || reg e id = true) as ->.
    { apply orb_true_iff. destruct Hacc as [->|Hreg]; [left|by right].
      by apply bool_decide_eq_true. }
    apply list_elem_of_fmap. by exists cb.
Qed.

Lemma elem_of_state_subscribers i id state subs :
  i ∈ state_subscribers id state subs
  ↔ ∃ pat e cb, subs !! pat = Some e ∧ reg e id = true
               ∧ cb ∈ cbs e ∧ i = StateCb cb id state.
Proof.
  unfold state_subscribers. rewrite list_elem_of_bind. split.
  - intros ([pat e] & Hi & Hpe%elem_of_map_to_list).
    destruct (reg e id) eqn:Hacc; [|by apply elem_of_nil in Hi].
    apply list_elem_of_fmap in Hi as (cb & -> & Hcb).
    by exists pat, e, cb.
  - intros (pat & e & cb & Hpe & Hacc & Hcb & ->).
    exists (pat, e). split; [|by apply elem_of_map_to_list].
    rewrite Hacc. apply list_elem_of_fmap. by exists cb.
Qed.

(** Before the mirror is loaded a notification is dropped, subscribers
    included. *)
Lemma objectChange_before_load id obj c rt :
  objects c = None → objectChange id obj c rt = (c, rt).
Proof. unfold objectChange. by intros ->. Qed.




(** C7, as amended: a state notification is handed to every callback of
    every entry whose matcher accepts the identifier, and to no other;
    the client itself, its cache of states included, stays as it was. *)
Theorem stateChange_fans_out_and_keeps_cache id state c rt :
  (stateChange id state c rt).1 = c
  ∧ states (stateChange id state c rt).1 = states c
  ∧ wire (stateChange id state c rt).2 = wire rt
  ∧ ∃ called,
      invoked (stateChange id state c rt).2 = invoked rt ++ called
      ∧ ∀ i, i ∈ called ↔
          ∃ pat e cb, statesSubscribes c !! pat = Some e ∧ reg e id = true
            ∧ cb ∈ cbs e ∧ i = StateCb cb id state.
Proof.
  repeat split; try done.
  exists (state_subscribers id state (statesSubscribes c)).
  split; [done|]. intros i. apply elem_of_state_subscribers.
Qed.

(** C7 as it is written fails: after a notification for an identifier
    the cache of states has no entry for it. *)
Lemma stateChange_cache_counterexample :
  ¬ (∀ id state c rt,
       states (stateChange id (Some state) c rt).1 !! id = Some state).
Proof.
  intros Hclaim.
  discriminate (Hclaim "lamp.on" lamp offline_client offline_runtime).
Qed.

(** * Copies of caller objects *)

Lemma fresh_copy_extend h new1 new2 new3 v j :
  fresh_copy (h ++ new1) new2 v j → fresh_copy h (new1 ++ new2 ++ new3) v j.
Proof.
  intros (Hdef & Hdepth & Hloc & Hprint). repeat split; [done|..].
  - rewrite !length_app. lia.
  - intros l Hl. apply Hloc in Hl. rewrite length_app in Hl. lia.
  - intros n h0 ext Hlen Hn.
    replace (h0 ++ (new1 ++ new2 ++ new3) ++ ext)
      with ((h0 ++ new1) ++ new2 ++ (new3 ++ ext))
      by (by rewrite <- !app_assoc).
    apply Hprint; [|done]. rewrite !length_app. lia.
Qed.

Lemma fresh_copy_more h new extra v j :
  fresh_copy h new v j → fresh_copy h (new ++ extra) v j.
Proof.
  intros Hv. apply (fresh_copy_extend h [] new extra). by rewrite app_nil_r.
Qed.

Lemma fresh_copy_later h new1 new2 v j :
  fresh_copy (h ++ new1) new2 v j → fresh_copy h (new1 ++ new2) v j.
Proof.
  intros Hv. rewrite <- (app_nil_r new2). by apply fresh_copy_extend.
Qed.

Lemma fresh_copy_deeper h new v j n h0 ext :
  fresh_copy h new v j → length h0 = length h → depth j ≤ n →
  (if is_undefined v then Some JNull else stringify n (h0 ++ new ++ ext) v) = Some j.
Proof. intros (-> & _ & _ & Hprint) Hlen Hn. by apply Hprint. Qed.

(** The loop of [JSON.parse] over the items of an array. *)
Lemma parse_items items :
  Forall (λ x, ∀ h, ∃ new v, JSON_parse x h = (h ++ new, v) ∧ fresh_copy h new v x) items →
  ∀ h, ∃ news vs,
    (fix go (items : list json) (h : Heap) : Heap * list value :=
       match items with
       | [] => (h, [])
       | x :: xs =>
           let '(h1, v) := JSON_parse x h in
           let '(h2, vs) := go xs h1 in
           (h2, v :: vs)
       end) items h = (h ++ news, vs)
    ∧ Forall2 (fresh_copy h news) vs items.
Proof.
  induction 1 as [|x xs Hx _ IH]; intros h.
  - exists [], []. by rewrite app_nil_r.
  - destruct (Hx h) as (new1 & v & -> & Hv).
    destruct (IH (h ++ new1)) as (news & vs & -> & Hvs).
    exists (new1 ++ news), (v :: vs). split; [by rewrite app_assoc|].
    constructor; [by apply fresh_copy_more|].
    eapply Forall2_impl; [exact Hvs|]. intros v' x' Hv'.
    by apply fresh_copy_later.
Qed.

(** The loop of [JSON.parse] over the fields of an object. *)
Lemma parse_fields fields :
  Forall (λ kx, ∀ h, ∃ new v, JSON_parse kx.2 h = (h ++ new, v)
                              ∧ fresh_copy h new v kx.2) fields →
  ∀ h, ∃ news ps,
    (fix go (fields : list (string * json)) (h : Heap)
       : Heap * list (string * value) :=
       match fields with
       | [] => (h, [])
       | (k, x) :: xs =>
           let '(h1, v) := JSON_parse x h in
           let '(h2, ps) := go xs h1 in
           (h2, (k, v) :: ps)
       end) fields h = (h ++ news, ps)
    ∧ Forall2 (fresh_prop h news) ps fields.
Proof.
  induction 1 as [|[k x] xs Hx _ IH]; intros h.
  - exists [], []. by rewrite app_nil_r.
  - destruct (Hx h) as (new1 & v & Hparse & Hv). cbn in Hparse, Hv.
    rewrite Hparse.
    destruct (IH (h ++ new1)) as (news & ps & -> & Hps).
    exists (new1 ++ news), ((k, v) :: ps). split; [by rewrite app_assoc|].
    constructor; [split; [done|by apply fresh_copy_more]|].
    eapply Forall2_impl; [exact Hps|]. intros kv kx [Hk Hkv].
    split; [done|by apply fresh_copy_later].
Qed.

Lemma items_depth h news vs items :
  Forall2 (fresh_copy h news) vs items →
  foldr (λ x n, depth x `max` n) 0 items ≤ length news.
Proof.
  induction 1 as [|v x vs xs (_ & Hd & _) _ IH]; cbn; lia.
Qed.

Lemma fields_depth h news ps fields :
  Forall2 (fresh_prop h news) ps fields →
  foldr (λ kx n, depth kx.2 `max` n) 0 fields ≤ length news.
Proof.
  induction 1 as [|kv kx ps xs (_ & _ & Hd & _) _ IH]; cbn; lia.
Qed.

Lemma root_lookup (h0 news ext : Heap) (root : cell) :
  (h0 ++ (news ++ [root]) ++ ext) !! (length h0 + length news) = Some root.
Proof.
  rewrite lookup_app_r by lia. rewrite <- app_assoc.
  rewrite lookup_app_r by lia.
  by replace (length h0 + length news - length h0 - length news) with 0 by lia.
Qed.

(** An array cell over copies of the items prints as the array. *)
Lemma array_cell_prints h news vs items n h0 ext :
  Forall2 (fresh_copy h news) vs items →
  length h0 = length h →
  foldr (λ x n, depth x `max` n) 0 items ≤ n →
  stringify (S n) (h0 ++ (news ++ [CArr vs]) ++ ext) (VRef (length h0 + length news))
  = Some (JArr items).
Proof.
  intros Hvs Hlen Hn. cbn [stringify]. rewrite root_lookup.
  assert (mapM (λ v, if is_undefined v then Some JNull
                     else stringify n (h0 ++ (news ++ [CArr vs]) ++ ext) v) vs
          = Some items) as ->; [|done].
  apply mapM_Some. revert Hn.
  generalize (CArr vs). intros root.
  induction Hvs as [|v x vs' xs Hv _ IH]; intros Hn; constructor.
  - rewrite <- app_assoc. apply (fresh_copy_deeper h); [done..|]. cbn in Hn. lia.
  - apply IH. cbn in Hn. lia.
Qed.

(** An object cell over copies of the fields prints as the object. *)
Lemma object_cell_prints h news ps fields n h0 ext :
  Forall2 (fresh_prop h news) ps fields →
  length h0 = length h →
  foldr (λ kx n, depth kx.2 `max` n) 0 fields ≤ n →
  stringify (S n) (h0 ++ (news ++ [CObj ps]) ++ ext) (VRef (length h0 + length news))
  = Some (JObj fields).
Proof.
  intros Hps Hlen Hn. cbn [stringify]. rewrite root_lookup.
  assert (mapM (λ kv, pair kv.1 <$> stringify n (h0 ++ (news ++ [CObj ps]) ++ ext) kv.2)
               (filter (λ kv, is_undefined kv.2 = false) ps)
          = Some fields) as ->; [|done].
  apply mapM_Some. revert Hn.
  generalize (CObj ps). intros root.
  induction Hps as [|[k v] [k' x] ps' xs [Hk (Hdef & Hv)] _ IH]; intros Hn.
  - constructor.
  - cbn in Hk, Hdef, Hv. subst k'.
    rewrite filter_cons_True by exact Hdef. constructor.
    + cbn. rewrite <- app_assoc.
      destruct Hv as (_ & _ & Hprint). rewrite Hprint; [done..|]. cbn in Hn. lia.
    + apply IH. cbn in Hn. lia.
Qed.

(** [JSON.parse] builds a copy out of fresh cells only. *)
Lemma JSON_parse_copy j :
  ∀ h, ∃ new v, JSON_parse j h = (h ++ new, v) ∧ fresh_copy h new v j.
Proof.
  induction j as [ |b|n|s|items IH|fields IH] using json_strong_ind; intros h.
  1-4: exists []; eexists; rewrite app_nil_r; split; [reflexivity|];
       repeat split; cbn; try lia; try done; by intros [|?].
  - destruct (parse_items items IH h) as (news & vs & Hgo & Hvs).
    exists (news ++ [CArr vs]), (VRef (length (h ++ news))).
    cbn [JSON_parse]. rewrite Hgo. split; [by rewrite app_assoc|].
    pose proof (items_depth _ _ _ _ Hvs) as Hd.
    repeat split; cbn [depth].
    + rewrite length_app. cbn. lia.
    + intros l [= <-]. rewrite length_app. lia.
    + intros n h0 ext Hlen Hn. destruct n as [|n]; [lia|].
      rewrite length_app, <- Hlen.
      apply (array_cell_prints h); [done..|lia].
  - destruct (parse_fields fields IH h) as (news & ps & Hgo & Hps).
    exists (news ++ [CObj ps]), (VRef (length (h ++ news))).
    cbn [JSON_parse]. rewrite Hgo. split; [by rewrite app_assoc|].
    pose proof (fields_depth _ _ _ _ Hps) as Hd.
    repeat split; cbn [depth].
    + rewrite length_app. cbn. lia.
    + intros l [= <-]. rewrite length_app. lia.
    + intros n h0 ext Hlen Hn. destruct n as [|n]; [lia|].
      rewrite length_app, <- Hlen.
      apply (object_cell_prints h); [done..|lia].
Qed.

(** More fuel and more cells print the same text. *)
Lemma stringify_mono n : ∀ m h h' v j,
  stringify n h v = Some j → n ≤ m → h `prefix_of` h' →
  stringify m h' v = Some j.
Proof.
  induction n as [|n IH]; intros m h h' v j Hs Hnm Hpre.
  - destruct v; try done; by destruct m.
  - destruct m as [|m]; [lia|].
    destruct v as [ | | | | |l]; try done. cbn [stringify] in *.
    destruct (h !! l) as [cl|] eqn:Hl; [|done].
    rewrite (prefix_lookup_Some _ _ _ _ Hl Hpre).
    destruct cl as [props|items].
    + apply fmap_Some in Hs as (fields & Hm & ->).
      apply fmap_Some. exists fields. split; [|done].
      apply mapM_Some in Hm. apply mapM_Some.
      eapply Forall2_impl; [exact Hm|]. intros kv kx Hkv. cbn in *.
      apply fmap_Some in Hkv as (x & Hx & ->).
      apply fmap_Some. exists x. split; [|done].
      apply (IH m h h'); [done|lia|done].
    + apply fmap_Some in Hs as (xs & Hm & ->).
      apply fmap_Some. exists xs. split; [|done].
      apply mapM_Some in Hm. apply mapM_Some.
      eapply Forall2_impl; [exact Hm|]. intros v x Hv. cbn in *.
      destruct (is_undefined v); [done|].
      apply (IH m h h'); [done|lia|done].
Qed.

Lemma JSON_stringify_mono h h' v j :
  JSON_stringify h v = Some j → h `prefix_of` h' → JSON_stringify h' v = Some j.
Proof.
  unfold JSON_stringify. intros Hs Hpre.
  apply (stringify_mono _ _ h h' v j Hs); [|done].
  apply prefix_length in Hpre. lia.
Qed.

Lemma filter_props_fields h news ps fields k :
  Forall2 (fresh_prop h news) ps fields →
  Forall2 (fresh_prop h news)
    (filter (λ kv, kv.1 ≠ k) ps) (filter (λ kx, kx.1 ≠ k) fields).
Proof.
  induction 1 as [|kv kx ps' xs [Hk Hv] _ IH]; [constructor|].
  destruct (decide (kv.1 = k)) as [Heq|Hne].
  - rewrite !filter_cons_False by (intros Hx; apply Hx; congruence). done.
  - rewrite !filter_cons_True by congruence. by constructor.
Qed.

Lemma delete_prop_object_root (h news : Heap) ps k :
  delete_prop k (length (h ++ news)) ((h ++ news) ++ [CObj ps])
  = (h ++ news) ++ [CObj (filter (λ kv, kv.1 ≠ k) ps)].
Proof.
  unfold delete_prop.
  rewrite lookup_app_r, Nat.sub_diag by lia. cbn.
  rewrite insert_app_r_alt, Nat.sub_diag by lia. done.
Qed.

Lemma delete_prop_array_root (h news : Heap) vs k :
  delete_prop k (length (h ++ news)) ((h ++ news) ++ [CArr vs])
  = (h ++ news) ++ [CArr vs].
Proof.
  unfold delete_prop. by rewrite lookup_app_r, Nat.sub_diag by lia.
Qed.

Lemma JSON_parse_object fields h :
  ∃ news ps,
    JSON_parse (JObj fields) h = ((h ++ news) ++ [CObj ps], VRef (length (h ++ news)))
    ∧ Forall2 (fresh_prop h news) ps fields.
Proof.
  destruct (parse_fields fields) with (h := h) as (news & ps & Hgo & Hps).
  { apply Forall_forall. intros kx _. apply JSON_parse_copy. }
  exists news, ps. cbn [JSON_parse]. by rewrite Hgo.
Qed.

Lemma JSON_parse_array items h :
  ∃ news vs,
    JSON_parse (JArr items) h = ((h ++ news) ++ [CArr vs], VRef (length (h ++ news)))
    ∧ Forall2 (fresh_copy h news) vs items.
Proof.
  destruct (parse_items items) with (h := h) as (news & vs & Hgo & Hvs).
  { apply Forall_forall. intros x _. apply JSON_parse_copy. }
  exists news, vs. cbn [JSON_parse]. by rewrite Hgo.
Qed.

(** What [JSON.stringify] makes of a reference is an object or an array. *)
Lemma stringify_ref_shape h l j :
  JSON_stringify h (VRef l) = Some j →
  (∃ fields, j = JObj fields) ∨ (∃ items, j = JArr items).
Proof.
  unfold JSON_stringify. cbn [stringify].
  destruct (h !! l) as [[props|items]|]; [| |done].
  - intros (fields & _ & ->)%fmap_Some. left. by exists fields.
  - intros (xs & _ & ->)%fmap_Some. right. by exists xs.
Qed.

(** The three deletes on a fresh copy, and what the copy then prints as,
    whatever the cells that were there before hold. *)
Lemma strip_copy j h l0 :
  JSON_stringify h (VRef l0) = Some j →
  ∃ new l,
    (let '(h1, copy) := JSON_parse j h in
     (delete_of "ts" copy (delete_of "user" copy (delete_of "from" copy h1)), copy))
    = (h ++ new, VRef l)
    ∧ length h ≤ l
    ∧ ∀ n old, length old = length h → length new ≤ S n →
        stringify (S n) (old ++ new) (VRef l) = Some (stripped j).
Proof.
  intros [[fields ->]|[items ->]]%stringify_ref_shape.
  - destruct (JSON_parse_object fields h) as (news & ps & -> & Hps).
    cbn [delete_of]. rewrite !delete_prop_object_root.
    eexists (news ++ [CObj _]), _. split; [by rewrite <- app_assoc|].
    split; [rewrite length_app; lia|].
    intros n old Hlen Hn. rewrite length_app in Hn. cbn in Hn.
    pose proof (filter_props_fields _ _ _ _ "ts"
      (filter_props_fields _ _ _ _ "user"
        (filter_props_fields _ _ _ _ "from" Hps))) as Hps3.
    pose proof (fields_depth _ _ _ _ Hps3) as Hd.
    rewrite length_app, <- Hlen, <- (app_nil_r (news ++ _)).
    apply (object_cell_prints h); [done..|lia].
  - destruct (JSON_parse_array items h) as (news & vs & -> & Hvs).
    cbn [delete_of]. rewrite !delete_prop_array_root.
    eexists (news ++ [CArr _]), _. split; [by rewrite <- app_assoc|].
    split; [rewrite length_app; lia|].
    intros n old Hlen Hn. rewrite length_app in Hn. cbn in Hn.
    pose proof (items_depth _ _ _ _ Hvs) as Hd.
    rewrite length_app, <- Hlen, <- (app_nil_r (news ++ _)).
    apply (array_cell_prints h); [done..|lia].
Qed.

Lemma request_emitting_spec ev xs k c rt :
  (request (untimed (emitting ev xs k)) c rt).1.1 = c
  ∧ heap (request (untimed (emitting ev xs k)) c rt).1.2 = heap rt
  ∧ wire (request (untimed (emitting ev xs k)) c rt).1.2
    = wire rt ++ (if connected c
                  then [{| event := ev; args := xs;
                           callback := k (length (calls rt)) |}]
                  else [])
  ∧ (request (untimed (emitting ev xs k)) c rt).2
    = Done (if connected c then Created (length (calls rt))
            else Failed ERRORS.NOT_CONNECTED).
Proof.
  unfold request, gate. cbn.
  destruct (connected c); cbn; by rewrite ?app_nil_r.
Qed.

(** C10: [setObject] and [extendObject] reject a null argument without
    touching anything; for an object they send a copy made of fresh cells
    that prints as the argument without its from, user and ts fields,
    and every cell there was before, the argument's included, is as it
    was. *)
Theorem send_object_transmits_a_stripped_copy send ev id l c rt j :
  (send, ev) ∈ [(setObject, "setObject"); (extendObject, "extendObject")] →
  JSON_stringify (heap rt) (VRef l) = Some j →
  send id None c rt
    = Some (c, rt, Done (Failed (VStr "Null object is not allowed")))
  ∧ ∃ rt' copy,
      send id (Some l) c rt
        = Some (c, rt', Done (if connected c then Created (length (calls rt))
                              else Failed ERRORS.NOT_CONNECTED))
      ∧ wire rt'
        = wire rt ++ (if connected c
                      then [{| event := ev; args := [VStr id; copy];
                               callback := AckSettle (length (calls rt)) |}]
                      else [])
      ∧ heap rt `prefix_of` heap rt'
      ∧ JSON_stringify (heap rt') (VRef l) = Some j
      ∧ (∀ l', copy = VRef l' → length (heap rt) ≤ l')
      ∧ JSON_stringify (heap rt') copy = Some (stripped j)
      ∧ ∀ old, length old = length (heap rt) →
          JSON_stringify (old ++ drop (length (heap rt)) (heap rt')) copy
          = Some (stripped j).
Proof.
  intros Hsend Hs.
  assert (send = send_object ev) as ->.
  { apply elem_of_cons in Hsend as [[= -> ->]|Hsend]; [done|].
    apply list_elem_of_singleton in Hsend as [= -> ->]. done. }
  split; [done|]. unfold send_object. rewrite Hs. cbn [mbind option_bind].
  destruct (strip_copy j (heap rt) l Hs) as (new & lc & Heq & Hloc & Hprint).
  destruct (JSON_parse j (heap rt)) as [h1 copy]. injection Heq as -> ->.
  destruct (request_emitting_spec ev [VStr id; VRef lc] AckSettle c
              (set_heap (λ _, heap rt ++ new) rt)) as (Hc & Hheap & Hwire & Hans).
  destruct (request _ c _) as [[c' rt'] e]. cbn in Hc, Hheap, Hwire, Hans.
  subst c' e. exists rt', (VRef lc). rewrite Hheap, Hwire.
  split; [done|]. split; [done|].
  split; [by apply prefix_app_r|].
  split; [by apply (JSON_stringify_mono (heap rt)), prefix_app_r|].
  split; [by intros l' [= <-]|].
  split.
  - unfold JSON_stringify. apply Hprint; [done|]. rewrite length_app. lia.
  - intros old Hlen. rewrite drop_app_length. unfold JSON_stringify.
    apply Hprint; [done|]. rewrite length_app. lia.
Qed.

Lemma send_object_transmits_a_stripped_copy_witness :
  (setObject, "setObject") ∈ [(setObject, "setObject"); (extendObject, "extendObject")]
  ∧ JSON_stringify (heap caller_runtime) (VRef 1)
    = Some (JObj [("common", JObj [("name", JStr "lamp")]);
                  ("from", JStr "system.adapter.admin.0");
                  ("ts", JNum 17); ("type", JStr "state")])
  ∧ ∃ rt' copy,
      setObject "lamp.on" (Some 1) online_client caller_runtime
        = Some (online_client, rt', Done (Created 1))
      ∧ wire rt' = [{| event := "setObject"; args := [VStr "lamp.on"; copy];
                       callback := AckSettle 1 |}]
      ∧ heap caller_runtime `prefix_of` heap rt'
      ∧ JSON_stringify (heap rt') copy
        = Some (JObj [("common", JObj [("name", JStr "lamp")]);
                      ("type", JStr "state")]).
Proof.
  split; [left|]. split; [reflexivity|].
  destruct (send_object_transmits_a_stripped_copy setObject "setObject" "lamp.on"
              1 online_client caller_runtime _ ltac:(left) eq_refl)
    as (_ & rt' & copy & Hsend & Hwire & Hpre & _ & _ & Hcopy & _).
  exists rt', copy. repeat split; assumption.
Defined.

(** * Further properties of the pattern compiler and the matcher *)

Example split_version : split "." "4.0.23" = ["4"; "0"; "23"].
Proof. reflexivity. Qed.

(** X1: in both registries the chain of replacements acts on each
    character of the pattern by itself (no replacement touches what an
    earlier one has written), and the end anchor is added exactly when the
    pattern has no wildcard. *)
Theorem compiled_source_is_characterwise k id :
  chars (source k id)
  = (chars id ≫= translate k) ++ (if includes "*" id then [] else ["$"%char])
  ∧ (∀ a, translate k a
          = if Ascii.eqb a "*" then [".";"*"]%char
            else if Ascii.eqb a "." then ["\";"."]%char
            else match k with
                 | StateRegistry =>
                     if bool_decide (a ∈ chars "()+[") then ["\"%char; a] else [a]
                 | ObjectRegistry => [a]
                 end).
Proof.
  split; [apply source_chars|].
  intros a. destruct k; each_char a; reflexivity.
Qed.

Lemma tokenize_literals_then k l rest :
  forallb (literal_in k) l = true →
  Regex.tokenize ((l ≫= translate k) ++ rest)
  = (map Regex.KLit l ++.) <$> Regex.tokenize rest.
Proof.
  induction l as [|a l IH]; intros Hl.
  - cbn. by destruct (Regex.tokenize rest).
  - apply andb_prop in Hl as [Ha Hl].
    rewrite bind_cons, <- app_assoc, (tokenize_literal k a _ Ha), (IH Hl).
    by destruct (Regex.tokenize rest).
Qed.

Lemma build_literals_star l :
  Regex.build (map Regex.KLit l ++ [Regex.KDot; Regex.KStar])
  = Some (map (λ c, Regex.TAtom (Regex.AChar c)) l ++ [Regex.TStar Regex.AAny]).
Proof.
  induction l as [|a l IH]; [reflexivity|].
  cbn [map app Regex.build Regex.atom_of].
  destruct l as [|b l]; [reflexivity|].
  cbn [map app]. cbn [map app] in IH. by rewrite IH.
Qed.

Lemma match_literals_star l s :
  Regex.match_here
    (map (λ c, Regex.TAtom (Regex.AChar c)) l ++ [Regex.TStar Regex.AAny]) s = true
  ↔ l `prefix_of` s.
Proof.
  revert s. induction l as [|a l IH]; intros s.
  - cbn. destruct s; cbn; split; auto using prefix_nil.
  - destruct s as [|c s]; cbn.
    + split; [done|]. by intros ?%prefix_nil_not.
    + rewrite andb_true_iff, IH. destruct (Ascii.eqb_spec a c) as [->|Hne].
      * split; [intros [_ ?]; by apply prefix_cons|].
        intros ?%prefix_cons_inv_2. done.
      * split; [by intros [? _]|]. by intros ?%prefix_cons_inv_1.
Qed.

(** X2: a pattern that is literal characters followed by one wildcard is
    accepted exactly by the identifiers that contain the literal part
    somewhere; neither end is anchored. *)
Theorem trailing_wildcard_accepts_substrings k lit id :
  forallb (literal_in k) (chars lit) = true →
  Regex.test (source k (lit +:+ "*")) id = Some true
  ↔ ∃ pre suf : string, id = pre +:+ lit +:+ suf.
Proof.
  intros Hlit. unfold Regex.test, Regex.parse.
  assert (Hsrc : chars (source k (lit +:+ "*"))
                 = (chars lit ≫= translate k) ++ [".";"*"]%char).
  { rewrite source_chars, chars_app, bind_app. unfold Pattern.anchor.
    assert (includes "*" (lit +:+ "*") = true) as ->.
    { rewrite includes_spec, chars_app. apply bool_decide_eq_true.
      apply elem_of_app. right. left. }
    rewrite app_nil_r. f_equal. by destruct k. }
  rewrite Hsrc, (tokenize_literals_then k _ _ Hlit). cbn.
  rewrite build_literals_star. cbn. split.
  - intros [= Hs]. apply search_spec in Hs as (pre & suf & Heq & Hm).
    apply match_literals_star in Hm as [rest ->].
    exists (unchars pre), (unchars rest). apply chars_inj.
    by rewrite !chars_app, !chars_unchars.
  - intros (pre & suf & ->). f_equal. apply search_spec.
    exists (chars pre), (chars lit ++ chars suf).
    split; [by rewrite !chars_app|].
    apply match_literals_star. by exists (chars suf).
Qed.

Lemma trailing_wildcard_accepts_substrings_witness :
  forallb (literal_in ObjectRegistry) (chars "system.adapter.") = true
  ∧ (Regex.test (source ObjectRegistry ("system.adapter." +:+ "*")) "my.system.adapter.admin.0"
     = Some true
     ↔ ∃ pre suf : string,
         "my.system.adapter.admin.0" = pre +:+ "system.adapter." +:+ suf).
Proof.
  split; [reflexivity|].
  apply (trailing_wildcard_accepts_substrings ObjectRegistry "system.adapter."
           "my.system.adapter.admin.0").
  reflexivity.
Defined.

(** * Further properties of the registries *)

Section MoreRegistries.
Context `{Host}.

Lemma remove_first_sublist x l : remove_first x l `sublist_of` l.
Proof.
  induction l as [|y l IH]; cbn; [done|].
  case_bool_decide; [by apply sublist_cons|by apply sublist_skip].
Qed.

Lemma remove_first_NoDup x l : NoDup l → NoDup (remove_first x l).
Proof. intros Hl. eapply sublist_NoDup; [done|apply remove_first_sublist]. Qed.

Lemma remove_first_absent x l : x ∉ l → remove_first x l = l.
Proof.
  induction l as [|y l IH]; cbn; [done|]. intros Hx.
  apply not_elem_of_cons in Hx as [Hne Hx].
  rewrite bool_decide_eq_false_2 by congruence. by rewrite IH.
Qed.

Lemma remove_first_gone x l : NoDup l → x ∉ remove_first x l.
Proof.
  induction 1 as [|y l Hy Hl IH]; cbn; [apply not_elem_of_nil|].
  case_bool_decide as Hxy; [by subst|].
  apply not_elem_of_cons. split; [congruence|done].
Qed.

Lemma push_new_NoDup cb e : NoDup (cbs e) → NoDup (cbs (push_new cb e)).
Proof.
  intros He. unfold push_new. case_bool_decide as Hin; [done|]. cbn.
  apply NoDup_app. split; [done|]. split; [|apply NoDup_singleton].
  intros x Hx ->%list_elem_of_singleton. done.
Qed.

Lemma perform_keeps_objects_registry s a :
  (∀ id cb, a ≠ SubscribeObject id cb) →
  (∀ id cb, a ≠ UnsubscribeObject id cb) →
  objectsSubscribes (perform s a).1 = objectsSubscribes s.1.
Proof.
  destruct s as [c rt].
  destruct a as [isOk sec| | | |b|id binary cb|id cb|id cb|id cb|id obj|id state];
    intros Hsub Hunsub; try congruence; cbn [perform];
    [apply onPreConnect_client|..];
    unfold on_reconnect, on_disconnect, mark_loaded, _subscribe,
      subscribeState, unsubscribeState, objectChange, stateChange,
      getBinaryState, request, gate;
    repeat (case_match; simplify_eq/=); try done;
    destruct (RegExp _); cbn; repeat (case_match; simplify_eq/=); done.
Qed.

Lemma perform_no_duplicate_callbacks s a :
  no_duplicate_callbacks (statesSubscribes s.1)
  ∧ no_duplicate_callbacks (objectsSubscribes s.1) →
  no_duplicate_callbacks (statesSubscribes (perform s a).1)
  ∧ no_duplicate_callbacks (objectsSubscribes (perform s a).1).
Proof.
  intros [Hst Hob]. unfold no_duplicate_callbacks in *.
  destruct a as [isOk sec| | | |b|id binary cb|id cb|id cb|id cb|id obj|id state];
    try (by rewrite perform_keeps_states_registry, perform_keeps_objects_registry).
  - rewrite perform_keeps_objects_registry by done. split; [|done].
    destruct s as [c rt]. cbn [perform fst] in *.
    destruct (subscribeState id binary cb c rt) as [s'|] eqn:Hs; [|done].
    unfold subscribeState, getBinaryState, request in Hs.
    destruct (statesSubscribes c !! id) as [e|] eqn:He; cbn in Hs.
    + assert (NoDup (cbs (push_new cb e)))
        by (eapply push_new_NoDup, (Hst id e He)).
      repeat (case_match; simplify_eq/=);
        try (rewrite construct_keeps_connection_without_key by done; cbn);
        by apply map_Forall_insert_2.
    + destruct (RegExp _) as [r|]; [|done]. cbn in Hs.
      repeat (case_match; simplify_eq/=);
        try (rewrite construct_keeps_connection_without_key by done; cbn);
        apply map_Forall_insert_2; try done; apply NoDup_singleton.
  - rewrite perform_keeps_objects_registry by done. split; [|done].
    destruct s as [c rt]. cbn [perform fst] in *. unfold unsubscribeState.
    destruct (statesSubscribes c !! id) as [e|] eqn:He; [|done].
    destruct (match cb with Some x => _ | None => _ end) eqn:Hrest; cbn.
    + by apply map_Forall_delete.
    + apply map_Forall_insert_2; [|done]. cbn. rewrite <- Hrest.
      destruct cb; [|apply NoDup_nil_2].
      eapply remove_first_NoDup, (Hst id e He).
  - rewrite perform_keeps_states_registry by done. split; [done|].
    destruct s as [c rt]. cbn [perform fst] in *.
    destruct (subscribeObject id cb c rt) as [s'|] eqn:Hs; [|done].
    unfold subscribeObject in Hs.
    destruct (objectsSubscribes c !! id) as [e|] eqn:He; cbn in Hs.
    + injection Hs as <-. cbn. apply map_Forall_insert_2; [|done].
      eapply push_new_NoDup, (Hob id e He).
    + destruct (RegExp _) as [r|]; [|done]. injection Hs as <-. cbn.
      apply map_Forall_insert_2; [apply NoDup_singleton|done].
  - rewrite perform_keeps_states_registry by done. split; [done|].
    destruct s as [c rt]. cbn [perform fst] in *. unfold unsubscribeObject.
    destruct (objectsSubscribes c !! id) as [e|] eqn:He; [|done].
    assert (Hrest : NoDup (match cb with
                           | Some x => remove_first x (cbs e)
                           | None => []
                           end)).
    { destruct cb; [|apply NoDup_nil_2].
      eapply remove_first_NoDup, (Hob id e He). }
    destruct (match cb with Some x => _ | None => _ end) eqn:Hcbs.
    + destruct (connected c); cbn.
      * apply map_Forall_delete. by apply map_Forall_insert_2.
      * by apply map_Forall_insert_2.
    + cbn. by apply map_Forall_insert_2.
Qed.

(** X3: after every sequence of actions on a new client no callback is
    registered twice in an entry of either registry, so a notification
    calls a callback at most once for each entry. *)
Theorem registries_have_no_duplicate_callbacks p rt l :
  no_duplicate_callbacks (statesSubscribes (run (new_Connection p rt) l).1)
  ∧ no_duplicate_callbacks (objectsSubscribes (run (new_Connection p rt) l).1).
Proof.
  assert (Hrun : ∀ s,
    no_duplicate_callbacks (statesSubscribes s.1)
    ∧ no_duplicate_callbacks (objectsSubscribes s.1) →
    no_duplicate_callbacks (statesSubscribes (run s l).1)
    ∧ no_duplicate_callbacks (objectsSubscribes (run s l).1)).
  { induction l as [|a l IH]; intros s Hs; [done|]. cbn.
    by apply IH, perform_no_duplicate_callbacks. }
  apply Hrun. split; apply map_Forall_empty.
Qed.

Lemma subscribeState_known id binary cb c rt e :
  statesSubscribes c !! id = Some e →
  subscribeState id binary cb c rt
  = Some (set_statesSubscribes <[id := push_new cb e]> c,
          socket_emits (if connected c then [state_query id binary cb rt] else []) rt)
    ∨ ∃ c' rt', subscribeState id binary cb c rt = Some (c', rt')
        ∧ statesSubscribes c' = <[id := push_new cb e]> (statesSubscribes c)
        ∧ wire rt' = wire rt ++ (if connected c then [state_query id binary cb rt] else []).
Proof.
  intros He. right. unfold subscribeState, getBinaryState, request, gate, state_query.
  rewrite He. cbn.
  destruct (connected c) eqn:Hc; cbn; rewrite ?Hc; cbn;
    [destruct binary|]; cbn; eexists _, _; (split; [reflexivity|]); cbn;
    by rewrite ?app_nil_r.
Qed.

Lemma subscribeState_unknown id binary cb c rt r :
  statesSubscribes c !! id = None → RegExp (Pattern.state_source id) = Some r →
  ∃ c' rt', subscribeState id binary cb c rt = Some (c', rt')
    ∧ statesSubscribes c' = <[id := {| reg := r; cbs := [cb] |}]> (statesSubscribes c)
    ∧ connected c' = connected c
    ∧ wire rt' = wire rt ++ (if connected c
                             then [notify "subscribe" id; state_query id binary cb rt]
                             else []).
Proof.
  intros He Hr. unfold subscribeState, getBinaryState, request, gate, state_query.
  rewrite He, Hr. cbn.
  destruct (connected c) eqn:Hc; cbn; rewrite ?Hc; cbn;
    [destruct binary|]; cbn; eexists _, _; (split; [reflexivity|]); cbn;
    rewrite ?app_nil_r, <- ?app_assoc; done.
Qed.

(** X5: subscribing a callback that an entry already holds changes
    neither registry and sends no subscribe event; a connected client
    still asks once more for the current value of the state. *)
Theorem subscribing_again_registers_nothing id binary cb c rt e :
  statesSubscribes c !! id = Some e → cb ∈ cbs e →
  ∃ c' rt', subscribeState id binary cb c rt = Some (c', rt')
    ∧ statesSubscribes c' = statesSubscribes c
    ∧ objectsSubscribes c' = objectsSubscribes c
    ∧ wire rt' = wire rt ++ (if connected c then [state_query id binary cb rt] else []).
Proof.
  intros He Hcb.
  pose proof (perform_keeps_objects_registry (c, rt) (SubscribeState id binary cb)
                ltac:(done) ltac:(done)) as Hobj. cbn [perform fst] in Hobj.
  destruct (subscribeState_known id binary cb c rt e He)
    as [Heq|(c' & rt' & Heq & Hsubs & Hwire)];
    rewrite Heq in Hobj |- *; eexists _, _; (split; [reflexivity|]); cbn in *.
  - split; [|done]. unfold push_new. rewrite bool_decide_eq_true_2 by done.
    by apply insert_id.
  - split; [|done]. rewrite Hsubs. unfold push_new.
    rewrite bool_decide_eq_true_2 by done. by apply insert_id.
Qed.

(** X6: for a pattern that is not the name of a member of
    Object.prototype, subscribing it anew and unsubscribing the callback
    again leaves the state registry as it was; a connected client has
    sent the subscribe, the query for the current value and the
    unsubscribe, a disconnected one nothing. *)
Theorem subscribe_unsubscribe_state_round_trip id binary cb c rt r :
  Object_prototype_member id = false →
  statesSubscribes c !! id = None → RegExp (Pattern.state_source id) = Some r →
  ∃ c1 rt1, subscribeState id binary cb c rt = Some (c1, rt1)
    ∧ statesSubscribes (unsubscribeState id (Some cb) c1 rt1).1 = statesSubscribes c
    ∧ wire (unsubscribeState id (Some cb) c1 rt1).2
      = wire rt ++ (if connected c
                    then [notify "subscribe" id; state_query id binary cb rt;
                          notify "unsubscribe" id]
                    else []).
Proof.
  intros _ He Hr.
  destruct (subscribeState_unknown id binary cb c rt r He Hr)
    as (c1 & rt1 & Heq & Hsubs & Hconn & Hwire).
  exists c1, rt1. split; [done|].
  unfold unsubscribeState. rewrite Hsubs, lookup_insert_eq. cbn.
  rewrite bool_decide_eq_true_2 by done. cbn. rewrite Hsubs, Hconn.
  split; [by apply delete_insert_id|].
  destruct (connected c); cbn; rewrite Hwire; [by rewrite <- app_assoc|done].
Qed.

Lemma run_no_empty_state_entry s l :
  no_empty_entry (statesSubscribes s.1) →
  no_empty_entry (statesSubscribes (run s l).1).
Proof.
  revert s. induction l as [|a l IH]; intros s Hs; [done|]. cbn.
  by apply IH, perform_no_empty_state_entry.
Qed.

(** X7: in every state a client reaches from its construction,
    unsubscribing a callback from a state pattern that does not hold it,
    be it that the pattern is not registered or that its entry lists
    other callbacks, changes nothing and sends nothing; neither the
    pattern nor an identifier used on the way there may be the name of a
    member of Object.prototype. *)
Theorem unsubscribing_an_unknown_callback_changes_nothing p rt0 l id cb :
  forallb own_key_action l = true →
  Object_prototype_member id = false →
  (∀ e, statesSubscribes (run (new_Connection p rt0) l).1 !! id = Some e →
        cb ∉ cbs e) →
  unsubscribeState id (Some cb) (run (new_Connection p rt0) l).1
    (run (new_Connection p rt0) l).2
  = run (new_Connection p rt0) l.
Proof.
  intros _ _ Hcb.
  pose proof (run_no_empty_state_entry (new_Connection p rt0) l
                (map_Forall_empty _)) as Hinv.
  destruct (run (new_Connection p rt0) l) as [c rt]. cbn [fst snd] in *.
  unfold unsubscribeState.
  destruct (statesSubscribes c !! id) as [e|] eqn:He; [|done].
  rewrite (remove_first_absent _ _ (Hcb e eq_refl)).
  pose proof (Hinv id e He) as Hne. cbn in Hne.
  destruct (cbs e) as [|y l'] eqn:Hcbs; [done|]. f_equal.
  assert (Hid : <[id := {| reg := reg e; cbs := y :: l' |}]> (statesSubscribes c)
                = statesSubscribes c).
  { apply insert_id. rewrite He, <- Hcbs. by destruct e. }
  destruct c. unfold set_statesSubscribes. cbn in *. by rewrite Hid.
Qed.

(** X8: within the calls a state notification makes, the callbacks of an
    entry that accepts the identifier are called one after the other in
    the order they were registered. *)
Theorem stateChange_keeps_registration_order id state c rt pat e :
  statesSubscribes c !! pat = Some e → reg e id = true →
  ∃ before after,
    invoked (stateChange id state c rt).2
    = invoked rt ++ before ++ ((λ cb, StateCb cb id state) <$> cbs e) ++ after.
Proof.
  intros He Hacc. apply elem_of_map_to_list in He.
  apply list_elem_of_split in He as (l1 & l2 & Hsplit).
  unfold stateChange, state_subscribers. cbn [snd invoke invoked].
  rewrite Hsplit, bind_app, bind_cons. cbn. rewrite Hacc.
  by eexists _, _.
Qed.

End MoreRegistries.

Lemma subscribing_again_registers_nothing_witness :
  statesSubscribes state_watching_client !! "lamp.*" = Some lamp_entry
  ∧ 8 ∈ cbs lamp_entry
  ∧ ∃ c' rt',
      subscribeState (H := fragment_host) "lamp.*" false 8
        state_watching_client offline_runtime = Some (c', rt')
      ∧ statesSubscribes c' = statesSubscribes state_watching_client
      ∧ objectsSubscribes c' = objectsSubscribes state_watching_client
      ∧ wire rt' = wire offline_runtime
                   ++ (if connected state_watching_client
                       then [state_query "lamp.*" false 8 offline_runtime] else []).
Proof.
  split; [reflexivity|]. split; [apply list_elem_of_further, list_elem_of_here|].
  apply (subscribing_again_registers_nothing (H := fragment_host)
           "lamp.*" false 8 state_watching_client offline_runtime lamp_entry).
  - reflexivity.
  - apply list_elem_of_further, list_elem_of_here.
Defined.

Lemma subscribe_unsubscribe_state_round_trip_witness :
  Object_prototype_member "lamp.on" = false
  ∧ statesSubscribes online_client !! "lamp.on" = None
  ∧ ∃ c1 rt1,
      subscribeState (H := fragment_host) "lamp.on" true 7
        online_client offline_runtime = Some (c1, rt1)
      ∧ statesSubscribes (unsubscribeState "lamp.on" (Some 7) c1 rt1).1
        = statesSubscribes online_client
      ∧ wire (unsubscribeState "lamp.on" (Some 7) c1 rt1).2
        = wire offline_runtime
          ++ (if connected online_client
              then [notify "subscribe" "lamp.on";
                    state_query "lamp.on" true 7 offline_runtime;
                    notify "unsubscribe" "lamp.on"]
              else []).
Proof.
  split; [reflexivity|]. split; [reflexivity|].
  eapply (subscribe_unsubscribe_state_round_trip (H := fragment_host)
            "lamp.on" true 7 online_client offline_runtime).
  - reflexivity.
  - reflexivity.
  - reflexivity.
Defined.

Lemma unsubscribing_an_unknown_callback_changes_nothing_witness :
  forallb own_key_action [SubscribeState "lamp.on" false 7] = true
  ∧ Object_prototype_member "lamp.on" = false
  ∧ unsubscribeState "lamp.on" (Some 9)
      (run (H := fragment_host) (new_Connection no_props (page false))
         [SubscribeState "lamp.on" false 7]).1
      (run (H := fragment_host) (new_Connection no_props (page false))
         [SubscribeState "lamp.on" false 7]).2
    = run (H := fragment_host) (new_Connection no_props (page false))
        [SubscribeState "lamp.on" false 7].
Proof.
  split; [reflexivity|]. split; [reflexivity|].
  apply (unsubscribing_an_unknown_callback_changes_nothing (H := fragment_host)
           no_props (page false) [SubscribeState "lamp.on" false 7] "lamp.on" 9).
  - reflexivity.
  - reflexivity.
  - assert (Hcbs : cbs <$> statesSubscribes
             (run (H := fragment_host) (new_Connection no_props (page false))
                [SubscribeState "lamp.on" false 7]).1 !! "lamp.on" = Some [7])
      by reflexivity.
    intros e He. rewrite He in Hcbs. injection Hcbs as ->.
    intros Hin. apply elem_of_cons in Hin as [Hin|Hin]; [discriminate|].
    by apply not_elem_of_nil in Hin.
Defined.

Lemma stateChange_keeps_registration_order_witness :
  statesSubscribes state_watching_client !! "lamp.*" = Some lamp_entry
  ∧ reg lamp_entry "lamp.on" = true
  ∧ ∃ before after,
      invoked (stateChange "lamp.on" (Some [("val", JBool true)])
                 state_watching_client offline_runtime).2
      = invoked offline_runtime ++ before
        ++ ((λ cb, StateCb cb "lamp.on" (Some [("val", JBool true)])) <$> cbs lamp_entry)
        ++ after.
Proof.
  split; [reflexivity|]. split; [reflexivity|].
  apply (stateChange_keeps_registration_order "lamp.on" (Some [("val", JBool true)])
           state_watching_client offline_runtime "lamp.*" lamp_entry);
    reflexivity.
Defined.

(** * Promises of requests *)

Lemma settle_at p s rt cl :
  calls rt !! p = Some cl →
  calls (settle p s rt) !! p
  = Some (match outcome cl with
          | Pending => {| outcome := s; elapsed := elapsed cl;
                          timeout := timeout cl; hasOnTimeout := hasOnTimeout cl |}
          | _ => cl
          end).
Proof.
  intros Hcl. unfold settle. rewrite Hcl.
  assert (p < length (calls rt)) by (by eapply lookup_lt_Some).
  destruct (outcome cl); cbn; [by rewrite list_lookup_insert_eq|done..].
Qed.

Lemma settle_settled p s rt cl :
  calls rt !! p = Some cl → outcome cl ≠ Pending → settle p s rt = rt.
Proof. intros Hcl Hout. unfold settle. rewrite Hcl. by destruct (outcome cl). Qed.

Lemma timer_fires_frame p rt :
  wire (timer_fires p rt) = wire rt ∧ heap (timer_fires p rt) = heap rt
  ∧ length (calls (timer_fires p rt)) = length (calls rt)
  ∧ (∀ q, q ≠ p → calls (timer_fires p rt) !! q = calls rt !! q).
Proof.
  unfold timer_fires. destruct (calls rt !! p) as [cl|] eqn:Hcl; [|done].
  destruct (timeout cl); try done.
  unfold reject.
  match goal with |- context [settle p ?s ?r] =>
    destruct (settle_frame p s r) as (Hw & Hi & Hh & Hl & Ho) end.
  rewrite Hw, Hh, Hl. 
  destruct (hasOnTimeout cl); cbn; rewrite length_insert; repeat split; try done;
    intros q Hq; rewrite Ho by done; cbn; by rewrite list_lookup_insert_ne.
Qed.

(** Once a promise is settled, no signal changes its outcome. *)
Lemma receive_keeps_outcome p rt cl s :
  calls rt !! p = Some cl → outcome cl ≠ Pending →
  ∃ cl', calls (receive p rt s) !! p = Some cl' ∧ outcome cl' = outcome cl.
Proof.
  intros Hcl Hout.
  assert (Hlt : p < length (calls rt)) by (by eapply lookup_lt_Some).
  assert (Hset : ∀ x rt' cl', calls rt' !! p = Some cl' → outcome cl' = outcome cl →
            ∃ cl'', calls (settle p x rt') !! p = Some cl'' ∧ outcome cl'' = outcome cl).
  { intros x rt' cl' Hcl' Ho. rewrite (settle_settled p x rt' cl') by congruence.
    by exists cl'. }
  assert (Hclear : ∀ rt' cl', calls rt' !! p = Some cl' → outcome cl' = outcome cl →
            ∃ cl'', calls (clearTimeout p rt') !! p = Some cl'' ∧ outcome cl'' = outcome cl).
  { intros rt' cl' Hcl' Ho.
    destruct (clearTimeout_frame p rt') as (_ & _ & _ & _ & _ & Hsame).
    rewrite Hcl' in Hsame. cbn in Hsame.
    destruct (calls (clearTimeout p rt') !! p) as [cl''|]; [|done].
    exists cl''. split; [done|]. cbn in Hsame. congruence. }
  assert (Hrej : ∀ err rt' cl', calls rt' !! p = Some cl' → outcome cl' = outcome cl →
            ∃ cl'', calls (reject_if p err rt') !! p = Some cl'' ∧ outcome cl'' = outcome cl).
  { intros [e|] rt' cl' Hcl' Ho; cbn; [destruct (truthy_value e)|];
      [by eapply Hset|by exists cl'..]. }
  destruct s as [|err|err res|v|r|]; cbn.
  - unfold timer_fires. rewrite Hcl.
    destruct (timeout cl); try by exists cl.
    unfold reject.
    destruct (hasOnTimeout cl);
      (eapply Hset; [cbn; by rewrite list_lookup_insert_eq|done]).
  - unfold cmdExec_ack. rewrite Hcl. destruct (elapsed cl); [by exists cl|].
    destruct (Hclear rt cl Hcl eq_refl) as (c1 & H1 & Ho1).
    destruct (Hrej err _ c1 H1 Ho1) as (c2 & H2 & Ho2).
    unfold resolve. by eapply Hset.
  - unfold settle_ack, resolve.
    destruct (Hrej err rt cl Hcl eq_refl) as (c2 & H2 & Ho2). by eapply Hset.
  - by eapply Hset.
  - by eapply Hset.
  - by eapply Hclear.
Qed.

Lemma receive_frame p rt s :
  wire (receive p rt s) = wire rt ∧ heap (receive p rt s) = heap rt
  ∧ length (calls (receive p rt s)) = length (calls rt)
  ∧ (∀ q, q ≠ p → calls (receive p rt s) !! q = calls rt !! q).
Proof.
  assert (Hset : ∀ x rt',
    wire rt' = wire rt ∧ heap rt' = heap rt
    ∧ length (calls rt') = length (calls rt)
    ∧ (∀ q, q ≠ p → calls rt' !! q = calls rt !! q) →
    wire (settle p x rt') = wire rt ∧ heap (settle p x rt') = heap rt
    ∧ length (calls (settle p x rt')) = length (calls rt)
    ∧ (∀ q, q ≠ p → calls (settle p x rt') !! q = calls rt !! q)).
  { intros x rt' (Hw & Hh & Hl & Ho).
    destruct (settle_frame p x rt') as (Hw' & _ & Hh' & Hl' & Ho').
    repeat split; try congruence. intros q Hq. rewrite Ho' by done. by apply Ho. }
  assert (Hclear :
    wire (clearTimeout p rt) = wire rt ∧ heap (clearTimeout p rt) = heap rt
    ∧ length (calls (clearTimeout p rt)) = length (calls rt)
    ∧ (∀ q, q ≠ p → calls (clearTimeout p rt) !! q = calls rt !! q)).
  { destruct (clearTimeout_frame p rt) as (? & _ & ? & ? & ? & _). done. }
  assert (Hrej : ∀ err rt',
    wire rt' = wire rt ∧ heap rt' = heap rt
    ∧ length (calls rt') = length (calls rt)
    ∧ (∀ q, q ≠ p → calls rt' !! q = calls rt !! q) →
    wire (reject_if p err rt') = wire rt ∧ heap (reject_if p err rt') = heap rt
    ∧ length (calls (reject_if p err rt')) = length (calls rt)
    ∧ (∀ q, q ≠ p → calls (reject_if p err rt') !! q = calls rt !! q)).
  { intros [e|] rt' Hrt'; cbn; [destruct (truthy_value e)|]; try done.
    by apply Hset. }
  destruct s as [|err|err res|v|r|]; cbn.
  - apply timer_fires_frame.
  - unfold cmdExec_ack. destruct (calls rt !! p) as [cl|]; [|done].
    destruct (elapsed cl); [done|]. unfold resolve.
    by apply Hset, Hrej.
  - unfold settle_ack, resolve. by apply Hset, Hrej.
  - by apply Hset.
  - by apply Hset.
  - done.
Qed.

(** A settled promise whose timer is not armed ignores every signal. *)
Lemma receive_settled_unarmed p rt cl s :
  calls rt !! p = Some cl → outcome cl ≠ Pending →
  (∀ ms, timeout cl ≠ Armed ms) → receive p rt s = rt.
Proof.
  intros Hcl Hout Htimer.
  assert (Hsettle : ∀ x, settle p x rt = rt).
  { intros x. by apply (settle_settled p x rt cl). }
  assert (Hclear : clearTimeout p rt = rt).
  { unfold clearTimeout. rewrite Hcl. destruct (timeout cl) eqn:Ht; try done.
    by destruct (Htimer ms). }
  destruct s as [|err|err res|v|r|]; cbn.
  - unfold timer_fires. rewrite Hcl. destruct (timeout cl) eqn:Ht; try done.
    by destruct (Htimer ms).
  - unfold cmdExec_ack. rewrite Hcl. destruct (elapsed cl); [done|].
    rewrite Hclear. unfold resolve, reject_if, reject.
    destruct err as [e|]; [destruct (truthy_value e)|]; by rewrite !Hsettle.
  - unfold settle_ack, resolve, reject_if, reject.
    destruct err as [e|]; [destruct (truthy_value e)|]; by rewrite !Hsettle.
  - apply Hsettle.
  - apply Hsettle.
  - apply Hclear.
Qed.

Lemma foldl_receive_fixed p rt signals :
  (∀ s, receive p rt s = rt) → foldl (receive p) rt signals = rt.
Proof.
  intros Hfix. induction signals as [|s signals IH]; [done|].
  cbn. by rewrite Hfix.
Qed.

Lemma construct_pid o c rt : (construct o c rt).2 = length (calls rt).
Proof. unfold construct. by destruct (executor o (length (calls rt))). Qed.

Lemma construct_emitting_wire o c rt ev xs k :
  executor o = emitting ev xs k →
  wire (construct o c rt).1.2
  = wire rt ++ [{| event := ev; args := xs; callback := k (length (calls rt)) |}].
Proof. intros Hex. unfold construct. rewrite Hex. done. Qed.

Lemma settle_ack_pending p err res rt cl :
  calls rt !! p = Some cl → outcome cl = Pending →
  calls (settle_ack p err res rt) !! p
  = Some {| outcome := answered err res; elapsed := elapsed cl;
            timeout := timeout cl; hasOnTimeout := hasOnTimeout cl |}.
Proof.
  intros Hcl Hout. unfold settle_ack, answered, resolve, reject_if, reject.
  destruct err as [e|]; [destruct (truthy_value e)|]; cbn.
  - pose proof (settle_at p (Rejected e) rt cl Hcl) as H1.
    rewrite Hout in H1.
    by rewrite (settle_settled p _ _ _ H1).
  - rewrite (settle_at p _ rt cl Hcl). by rewrite Hout.
  - rewrite (settle_at p _ rt cl Hcl). by rewrite Hout.
Qed.

Lemma settle_ack_invoked p err res rt :
  invoked (settle_ack p err res rt) = invoked rt.
Proof.
  unfold settle_ack, resolve, reject_if, reject.
  rewrite (proj1 (proj2 (settle_frame _ _ _))).
  destruct err as [e|]; [destruct (truthy_value e)|]; try done.
  apply settle_frame.
Qed.

Section Promises.
Context `{Host}.

(** X10: once the promise of a call is settled, no later timer expiry,
    acknowledgement, answer, resolve, reject or clearTimeout for that
    call changes its outcome; signals for one call send nothing and leave
    every other call as it is. *)
Theorem settled_promise_keeps_its_outcome p rt cl signals :
  calls rt !! p = Some cl → outcome cl ≠ Pending →
  outcome <$> calls (foldl (receive p) rt signals) !! p = Some (outcome cl)
  ∧ wire (foldl (receive p) rt signals) = wire rt
  ∧ ∀ q, q ≠ p → calls (foldl (receive p) rt signals) !! q = calls rt !! q.
Proof.
  revert rt cl. induction signals as [|s signals IH]; intros rt cl Hcl Hout.
  { cbn. by rewrite Hcl. }
  cbn [foldl].
  destruct (receive_keeps_outcome p rt cl s Hcl Hout) as (cl' & Hcl' & Ho).
  destruct (receive_frame p rt s) as (Hw & _ & _ & Hq).
  destruct (IH _ cl' Hcl' ltac:(congruence)) as (IH1 & IH2 & IH3).
  rewrite IH1, IH2, Ho, Hw. repeat split; try done.
  intros q Hne. rewrite IH3 by done. by apply Hq.
Qed.

(** X11: a connected cmdExec emits one cmdExec event with the normalised
    host, the command id and the command, and arms the timer with the
    given timeout or the one of the props.  When the acknowledgement
    arrives before the expiry the timer is cancelled and the promise is
    rejected with the error if the error is truthy and fulfilled with
    undefined otherwise; afterwards nothing that arrives for the call,
    the expiry of the timer included, has any effect. *)
Theorem cmdExec_answer_cancels_the_timeout host cmd cmdId ms c rt c1 rt1 p err rtx :
  cmdExec host cmd cmdId ms c rt = (c1, rt1, Done (Created p)) →
  calls rtx !! p = calls rt1 !! p →
  wire rt1 = wire rt ++ [{| event := "cmdExec";
                           args := [VStr (normalizeHostId host); VStr cmdId; VStr cmd];
                           callback := AckCmdExec p |}]
  ∧ timeout <$> calls rt1 !! p = Some (Armed (default (cmdTimeout (props c)) ms))
  ∧ calls (cmdExec_ack p err rtx) !! p
    = Some {| outcome := answered err VUndefined; elapsed := false;
              timeout := Cleared; hasOnTimeout := false |}
  ∧ invoked (cmdExec_ack p err rtx) = invoked rtx
  ∧ ∀ signals,
      foldl (receive p) (cmdExec_ack p err rtx) signals = cmdExec_ack p err rtx.
Proof.
  intros Hreq Hsame. unfold cmdExec in Hreq.
  apply request_created_inv in Hreq.
  pose proof (construct_pid (cmdExec_options host cmd cmdId ms) c rt) as Hp.
  pose proof (construct_emitting_wire (cmdExec_options host cmd cmdId ms) c rt
                _ _ _ eq_refl) as Hwire.
  pose proof (construct_leaves_call_waiting
                (cmdExec_options host cmd cmdId ms) c rt eq_refl) as Hcl.
  rewrite Hreq in Hp, Hwire, Hcl. cbn [fst snd] in Hp, Hwire, Hcl. subst p.
  split; [done|]. rewrite Hcl. split; [by destruct ms|].
  rewrite Hcl in Hsame.
  assert (Hlt : length (calls rt) < length (calls rtx)) by (by eapply lookup_lt_Some).
  assert (Hack : calls (cmdExec_ack (length (calls rt)) err rtx) !! length (calls rt)
    = Some {| outcome := answered err VUndefined; elapsed := false;
              timeout := Cleared; hasOnTimeout := false |}
    ∧ invoked (cmdExec_ack (length (calls rt)) err rtx) = invoked rtx).
  { unfold cmdExec_ack. rewrite Hsame. cbn [elapsed].
    fold (settle_ack (length (calls rt)) err VUndefined
            (clearTimeout (length (calls rt)) rtx)).
    assert (Hc : calls (clearTimeout (length (calls rt)) rtx) !! length (calls rt)
      = Some {| outcome := Pending; elapsed := false; timeout := Cleared;
                hasOnTimeout := false |}).
    { unfold clearTimeout. rewrite Hsame.
      destruct ms; cbn; by rewrite list_lookup_insert_eq. }
    split; [by rewrite (settle_ack_pending _ err VUndefined _ _ Hc eq_refl)|].
    rewrite settle_ack_invoked.
    by destruct (clearTimeout_frame (length (calls rt)) rtx) as (_ & -> & _). }
  destruct Hack as [Hack Hinv]. split; [done|]. split; [done|].
  intros signals. apply foldl_receive_fixed. intros s.
  apply (receive_settled_unarmed _ _ _ s Hack); [|done].
  unfold answered. cbn. destruct err as [e|]; [by destruct (truthy_value e)|done].
Qed.

End Promises.

Lemma construct_throwing o c rt body e :
  executor o (length (calls rt)) = (body, Some e) → forallb is_emit body = true →
  calls (construct o c rt).1.2 !! length (calls rt)
  = Some {| outcome := Rejected e; elapsed := false;
            timeout := match commandTimeout o with
                       | TimeoutDisabled => NoTimer
                       | TimeoutDefault => Armed (cmdTimeout (props c))
                       | TimeoutAfter ms => Armed ms
                       end;
            hasOnTimeout := onTimeout o |}
  ∧ invoked (construct o c rt).1.2 = invoked rt.
Proof.
  intros Hex Hemits. unfold construct. rewrite Hex. cbn [fst snd].
  match goal with |- context [foldl (do_one ?p) ?r body] =>
    pose proof (emits_keep_calls p body r Hemits) as Hcalls;
    assert (Hinv : invoked (foldl (do_one p) r body) = invoked r);
    [|set (rt2 := foldl (do_one p) r body) in *] end.
  { clear Hcalls Hex. revert Hemits.
    generalize (set_calls (λ cs, cs ++ [{| outcome := Pending; elapsed := false;
       timeout := match commandTimeout o with
                  | TimeoutDisabled => NoTimer
                  | TimeoutDefault => Armed (cmdTimeout (props c))
                  | TimeoutAfter ms => Armed ms
                  end;
       hasOnTimeout := onTimeout o |}]) rt).
    induction body as [|d body IH]; intros r Hb; [done|].
    apply andb_prop in Hb as [Hd Hb]. cbn. rewrite (IH _ Hb). by destruct d. }
  assert (Hcl : calls rt2 !! length (calls rt)
    = Some {| outcome := Pending; elapsed := false;
              timeout := match commandTimeout o with
                         | TimeoutDisabled => NoTimer
                         | TimeoutDefault => Armed (cmdTimeout (props c))
                         | TimeoutAfter ms => Armed ms
                         end;
              hasOnTimeout := onTimeout o |}).
  { rewrite Hcalls. cbn. by rewrite lookup_app_r, Nat.sub_diag. }
  unfold reject. rewrite (settle_at _ _ _ _ Hcl). cbn. split; [done|].
  destruct (settle_frame (length (calls rt)) (Rejected e) rt2) as (_ & Hi & _).
  by rewrite Hi, Hinv.
Qed.

Lemma timer_fires_armed p rt cl ms :
  calls rt !! p = Some cl → timeout cl = Armed ms → outcome cl ≠ Pending →
  calls (timer_fires p rt) !! p
  = Some {| outcome := outcome cl; elapsed := true; timeout := Fired;
            hasOnTimeout := hasOnTimeout cl |}
  ∧ invoked (timer_fires p rt)
    = invoked rt ++ (if hasOnTimeout cl then [OnTimeout p] else []).
Proof.
  intros Hcl Ht Hout. unfold timer_fires. rewrite Hcl, Ht.
  assert (Hlt : p < length (calls rt)) by (by eapply lookup_lt_Some).
  unfold reject.
  match goal with |- context [settle p ?s ?r] =>
    assert (Hr : calls r !! p
      = Some {| outcome := outcome cl; elapsed := true; timeout := Fired;
                hasOnTimeout := hasOnTimeout cl |});
    [|rewrite (settle_settled p s r _ Hr Hout)] end.
  { destruct (hasOnTimeout cl); cbn; by rewrite list_lookup_insert_eq. }
  split; [done|]. destruct (hasOnTimeout cl); cbn; by rewrite ?app_nil_r.
Qed.

Lemma perform_keeps_props `{Host} s a : props (perform s a).1 = props s.1.
Proof.
  destruct s as [c rt].
  destruct a as [isOk sec| | | |b|id binary cb|id cb|id cb|id cb|id obj|id state];
    cbn [perform];
    [apply onPreConnect_client|..];
    unfold on_reconnect, on_disconnect, mark_loaded, _subscribe,
      subscribeState, unsubscribeState, subscribeObject, unsubscribeObject,
      objectChange, stateChange, getBinaryState, request, gate;
    repeat (case_match; simplify_eq/=); try done;
    destruct (RegExp _); cbn; repeat (case_match; simplify_eq/=); done.
Qed.

Lemma run_keeps_props `{Host} s l : props (run s l).1 = props s.1.
Proof.
  revert s. induction l as [|a l IH]; intros s; [done|].
  cbn. unfold run in IH. by rewrite IH, perform_keeps_props.
Qed.

Lemma applyDefaultProps_cmdTimeout p :
  cmdTimeout (applyDefaultProps p) = cmdTimeout p `max` 5000.
Proof. unfold applyDefaultProps. cbn. destruct (Nat.eqb_spec (cmdTimeout p) 0); lia. Qed.


Section Methods.
Context `{Host}.

(** X12: when the executor of a request throws before it has settled its
    promise, the promise is rejected with the thrown value and stays in
    the cache under the key of the request; the timer is not cancelled,
    so its expiry still calls the onTimeout hook, while the outcome stays
    the thrown value. *)
Theorem throwing_executor_rejects_and_timer_still_fires o c rt c1 rt1 p body e :
  request o c rt = (c1, rt1, Done (Created p)) →
  executor o p = (body, Some e) → forallb is_emit body = true →
  commandTimeout o ≠ TimeoutDisabled →
  outcome <$> calls rt1 !! p = Some (Rejected e)
  ∧ (∀ k, cache_key o = Some k → _promises c1 !! k = Some p)
  ∧ invoked (timer_fires p rt1)
    = invoked rt1 ++ (if onTimeout o then [OnTimeout p] else [])
  ∧ outcome <$> calls (timer_fires p rt1) !! p = Some (Rejected e)
  ∧ ∀ signals,
      foldl (receive p) (timer_fires p rt1) signals = timer_fires p rt1.
Proof.
  intros Hreq Hex Hemits Htimeout. apply request_created_inv in Hreq.
  pose proof (construct_pid o c rt) as Hp. rewrite Hreq in Hp. cbn in Hp. subst p.
  destruct (construct_throwing o c rt body e Hex Hemits) as [Hcl _].
  rewrite Hreq in Hcl. cbn [fst snd] in Hcl.
  rewrite Hcl. split; [done|]. split.
  { intros k Hk. destruct (construct_stores o c rt k Hk) as [_ Hst].
    by rewrite Hreq in Hst. }
  assert (∃ ms, match commandTimeout o with
                | TimeoutDisabled => NoTimer
                | TimeoutDefault => Armed (cmdTimeout (props c))
                | TimeoutAfter ms => Armed ms
                end = Armed ms) as [ms Hms].
  { destruct (commandTimeout o); [done|by eexists..]. }
  destruct (timer_fires_armed _ _ _ ms Hcl Hms ltac:(done)) as [Hfired Hinv].
  rewrite Hfired, Hinv. repeat split; try done.
  intros signals. apply foldl_receive_fixed. intros s.
  by apply (receive_settled_unarmed _ _ _ s Hfired).
Qed.

(** X13: in every state a client reaches from its construction the
    command timeout is the one given to the constructor, raised to at
    least 5000 ms (an absent or zero timeout counts as 5000); a connected
    cmdExec without a timeout of its own arms its timer with it. *)
Theorem default_command_timeout_is_at_least_5000 p0 rt0 l host cmd cmdId :
  connected (run (new_Connection p0 rt0) l).1 = true →
  cmdTimeout (props (run (new_Connection p0 rt0) l).1) = cmdTimeout p0 `max` 5000
  ∧ ∃ c1 rt1 p,
      cmdExec host cmd cmdId None (run (new_Connection p0 rt0) l).1
        (run (new_Connection p0 rt0) l).2 = (c1, rt1, Done (Created p))
      ∧ timeout <$> calls rt1 !! p = Some (Armed (cmdTimeout p0 `max` 5000)).
Proof.
  intros Hconn.
  assert (Hprops : cmdTimeout (props (run (new_Connection p0 rt0) l).1)
                   = cmdTimeout p0 `max` 5000).
  { by rewrite run_keeps_props, <- applyDefaultProps_cmdTimeout. }
  split; [done|].
  destruct (run (new_Connection p0 rt0) l) as [c rt]. cbn [fst snd] in *.
  unfold cmdExec. rewrite request_constructs; [|by unfold gate; cbn; rewrite Hconn|done].
  eexists _, _, _. split; [reflexivity|].
  rewrite construct_pid.
  rewrite (construct_leaves_call_waiting (cmdExec_options host cmd cmdId None)
             c rt eq_refl). cbn. by rewrite Hprops.
Qed.


End Methods.

Lemma settled_promise_keeps_its_outcome_witness :
  calls (resolve 1 (VStr "ok") after_never_answered) !! 1
  = Some {| outcome := Fulfilled (VStr "ok"); elapsed := false;
            timeout := Armed 5; hasOnTimeout := true |}
  ∧ outcome <$> calls (foldl (receive 1) (resolve 1 (VStr "ok") after_never_answered)
                         [TimerExpires; Rejects ERRORS.TIMEOUT]) !! 1
    = Some (Fulfilled (VStr "ok")).
Proof.
  split; [reflexivity|].
  apply (settled_promise_keeps_its_outcome 1
           (resolve 1 (VStr "ok") after_never_answered)
           {| outcome := Fulfilled (VStr "ok"); elapsed := false;
              timeout := Armed 5; hasOnTimeout := true |}
           [TimerExpires; Rejects ERRORS.TIMEOUT]).
  - reflexivity.
  - discriminate.
Defined.

Lemma cmdExec_answer_cancels_the_timeout_witness :
  cmdExec (H := fragment_host) "host" "ls" "cmd1" (Some 7) online_client offline_runtime
  = (online_client,
     (cmdExec (H := fragment_host) "host" "ls" "cmd1" (Some 7)
        online_client offline_runtime).1.2,
     Done (Created 1))
  ∧ timeout <$> calls (cmdExec (H := fragment_host) "host" "ls" "cmd1" (Some 7)
                         online_client offline_runtime).1.2 !! 1
    = Some (Armed 7).
Proof.
  split; [reflexivity|].
  apply (cmdExec_answer_cancels_the_timeout (H := fragment_host)
           "host" "ls" "cmd1" (Some 7) online_client offline_runtime online_client
           (cmdExec (H := fragment_host) "host" "ls" "cmd1" (Some 7)
              online_client offline_runtime).1.2
           1 None
           (cmdExec (H := fragment_host) "host" "ls" "cmd1" (Some 7)
              online_client offline_runtime).1.2).
  - reflexivity.
  - reflexivity.
Defined.

Lemma throwing_executor_rejects_and_timer_still_fires_witness :
  request throwing online_client offline_runtime
  = ((request throwing online_client offline_runtime).1.1,
     (request throwing online_client offline_runtime).1.2, Done (Created 1))
  ∧ outcome <$> calls (request throwing online_client offline_runtime).1.2 !! 1
    = Some (Rejected (VStr "boom")).
Proof.
  split; [reflexivity|].
  apply (throwing_executor_rejects_and_timer_still_fires throwing online_client
           offline_runtime (request throwing online_client offline_runtime).1.1
           (request throwing online_client offline_runtime).1.2 1 []
           (VStr "boom")).
  - reflexivity.
  - reflexivity.
  - reflexivity.
  - discriminate.
Defined.

Lemma default_command_timeout_is_at_least_5000_witness :
  connected (run (H := fragment_host) (new_Connection no_props (page false))
               [Authenticated true false]).1 = true
  ∧ cmdTimeout (props (run (H := fragment_host) (new_Connection no_props (page false))
                         [Authenticated true false]).1) = 0 `max` 5000.
Proof.
  split; [reflexivity|].
  apply (default_command_timeout_is_at_least_5000 (H := fragment_host)
           no_props (page false) [Authenticated true false] "host" "ls" "cmd1").
  reflexivity.
Defined.


(** * Notifications that repeat, objects that cannot be sent *)

Lemma set_field_get_field k v d : get_field k d = Some v → set_field k v d = d.
Proof.
  induction d as [|[k' v'] d IH]; [done|]. cbn.
  destruct (bool_decide (k' = k)) eqn:Hk.
  - apply bool_decide_eq_true in Hk. by intros [= ->]; subst.
  - intros Hd. by rewrite IH.
Qed.

Lemma stamp_rev_self o : stamp_rev o o = o.
Proof.
  unfold stamp_rev. destruct (get_field "_rev" o) as [rev|] eqn:Hrev; [|done].
  destruct (truthy rev); [|done]. by apply set_field_get_field.
Qed.

(** No text is printed for a cell of a set in which every cell refers to
    a cell of the set. *)
Lemma stringify_cycle h (P : nat → Prop) :
  (∀ x, P x → ∃ y, has_child h x y ∧ P y) →
  ∀ n x, P x → stringify n h (VRef x) = None.
Proof.
  intros Hclosed. induction n as [|n IH]; intros x Hx; [done|].
  destruct (Hclosed x Hx) as (y & Hchild & Hy). unfold has_child in Hchild.
  cbn. destruct (h !! x) as [[ps|items]|]; [| |done].
  - destruct Hchild as [k Hk].
    rewrite mapM_None_2; [done|]. apply Exists_exists.
    exists (k, VRef y). split; [by apply list_elem_of_filter|].
    cbn. by rewrite (IH y Hy).
  - rewrite mapM_None_2; [done|]. apply Exists_exists.
    exists (VRef y). split; [done|]. cbn. apply (IH y Hy).
Qed.

(** X15: when a notification for an object whose identifier is not the
    name of a member of Object.prototype is repeated, the second one
    leaves the mirror as the first left it and does not call the
    onObjectChange hook; it calls the callbacks of the entries that are
    the identifier itself or accept it, and nothing else, now with the
    identifier and type of the document just stored, or with no previous
    object after a removal. *)
Theorem repeated_objectChange_is_not_reported id obj c rt rt' objs :
  Object_prototype_member id = false →
  objects c = Some objs →
  objects (objectChange id obj (objectChange id obj c rt).1 rt').1
    = objects (objectChange id obj c rt).1
  ∧ ∃ called,
      invoked (objectChange id obj (objectChange id obj c rt).1 rt').2
      = invoked rt' ++ called
      ∧ ∀ i, i ∈ called ↔
          ∃ pat e cb, objectsSubscribes c !! pat = Some e
            ∧ (pat = id ∨ reg e id = true) ∧ cb ∈ cbs e
            ∧ i = ObjectCb cb id obj (summary id <$> obj).
Proof.
  intros _ Hobjs.
  assert (H1 : ∃ c1, (objectChange id obj c rt).1 = c1
    ∧ objects c1 = Some (match obj with
                         | Some o => <[id := o]> objs
                         | None => delete id objs
                         end)
    ∧ objectsSubscribes c1 = objectsSubscribes c ∧ props c1 = props c).
  { eexists. split; [reflexivity|]. unfold objectChange. rewrite Hobjs.
    destruct (update_mirror_spec id obj objs) as (Hm & _ & _).
    destruct (update_mirror id obj objs) as [[objs' old] changed].
    cbn in Hm. by subst objs'. }
  destruct H1 as (c1 & -> & Hobjs1 & Hsubs & Hprops).
  unfold objectChange. rewrite Hobjs1.
  match goal with |- context [update_mirror id obj ?m] =>
    destruct (update_mirror_spec id obj m) as (Hm & Hold & Hch);
    destruct (update_mirror id obj m) as [[objs' old] changed] end.
  cbn [fst snd] in Hm, Hold, Hch. subst objs' old.
  assert (changed = false) as ->.
  { destruct changed; [|done]. exfalso. apply proj1 in Hch.
    specialize (Hch eq_refl). unfold changes in Hch.
    destruct obj as [o|].
    - rewrite lookup_insert_eq in Hch. by rewrite stamp_rev_self in Hch.
    - by rewrite lookup_delete_eq in Hch. }
  cbn [andb fst snd objects set_objects invoke invoked]. rewrite Hsubs. split.
  - destruct obj as [o|]; f_equal.
    + apply insert_insert_eq.
    + apply delete_id, lookup_delete_eq.
  - eexists. split; [reflexivity|]. intros i.
    rewrite elem_of_object_subscribers.
    destruct obj as [o|]; cbn [fmap option_fmap option_map].
    + by rewrite lookup_insert_eq.
    + by rewrite lookup_delete_eq.
Qed.

Lemma repeated_objectChange_is_not_reported_witness :
  Object_prototype_member "lamp.on" = false
  ∧ objects watching_client = Some {["lamp.on" := lamp]}
  ∧ objects (objectChange "lamp.on" None
               (objectChange "lamp.on" None watching_client offline_runtime).1
               offline_runtime).1
    = objects (objectChange "lamp.on" None watching_client offline_runtime).1.
Proof.
  split; [reflexivity|]. split; [reflexivity|].
  apply (repeated_objectChange_is_not_reported "lamp.on" None watching_client
           offline_runtime offline_runtime {["lamp.on" := lamp]});
    reflexivity.
Defined.

(** X16: an object that refers to itself, directly or through other
    objects and arrays, cannot be sent: setObject and extendObject throw
    the TypeError of JSON.stringify before anything is emitted or any
    promise is made. *)
Theorem sending_a_cyclic_object_throws id l c rt (P : nat → Prop) :
  (∀ x, P x → ∃ y, has_child (heap rt) x y ∧ P y) → P l →
  setObject id (Some l) c rt = None ∧ extendObject id (Some l) c rt = None.
Proof.
  intros Hclosed Hl. unfold setObject, extendObject, send_object, JSON_stringify.
  by rewrite (stringify_cycle _ P Hclosed _ l Hl).
Qed.

Lemma sending_a_cyclic_object_throws_witness :
  setObject "lamp" (Some 0) online_client (set_heap (λ _, cyclic_heap) offline_runtime)
  = None
  ∧ extendObject "lamp" (Some 0) online_client
      (set_heap (λ _, cyclic_heap) offline_runtime) = None.
Proof.
  apply (sending_a_cyclic_object_throws "lamp" 0 online_client
           (set_heap (λ _, cyclic_heap) offline_runtime) (λ x, x = 0 ∨ x = 1)).
  - intros x [->| ->].
    + exists 1. split; [|by right]. exists "parts".
      apply list_elem_of_further, list_elem_of_here.
    + exists 0. split; [|by left].
      apply list_elem_of_further, list_elem_of_here.
  - by left.
Defined.

(** * Flags of the lifecycle *)

Section Lifecycle.
Context `{Host}.

Lemma perform_keeps_flags s a :
  match a with
  | Authenticated _ _ | Reconnected | Disconnected | Bootstrapped => True
  | _ => connected (perform s a).1 = connected s.1
         ∧ subscribed (perform s a).1 = subscribed s.1
         ∧ firstConnect (perform s a).1 = firstConnect s.1
         ∧ loaded (perform s a).1 = loaded s.1
  end.
Proof.
  destruct s as [c rt].
  destruct a as [isOk sec| | | |b|id binary cb|id cb|id cb|id cb|id obj|id state];
    try done; cbn [perform];
    unfold subscribeState, unsubscribeState, subscribeObject, unsubscribeObject,
      objectChange, stateChange, getBinaryState, request, gate;
    repeat (case_match; simplify_eq/=); try done;
    destruct (RegExp _); cbn; repeat (case_match; simplify_eq/=); done.
Qed.

Lemma perform_lifecycle_flags s a :
  lifecycle_flags s.1 → lifecycle_flags (perform s a).1.
Proof.
  pose proof (perform_keeps_flags s a) as Hkeep.
  destruct s as [c rt]. unfold lifecycle_flags. cbn [fst] in *. intros [Hsub Hfirst].
  destruct a as [isOk sec| | | |b|id binary cb|id cb|id cb|id cb|id obj|id state];
    try (destruct Hkeep as (-> & -> & -> & ->); done);
    cbn [perform].
  { destruct (onPreConnect_client isOk sec c rt)
      as (_ & _ & _ & _ & _ & _ & Hf & Hl & _ & Hc & _).
    by rewrite Hf, Hl, Hc. }
  all: unfold on_reconnect, on_disconnect, mark_loaded, _subscribe;
    repeat (case_match; simplify_eq/=); try done.
  split; [done|].
  match goal with Hl : loaded c = true |- _ => by rewrite Hfirst, Hl end.
Qed.

(** X17: in every state a client reaches from its construction, it is
    subscribed only while it is connected, and it is on its first
    connection exactly as long as the bootstrap has not completed. *)
Theorem reachable_clients_keep_the_lifecycle_flags p rt l :
  (subscribed (run (new_Connection p rt) l).1 = true
   → connected (run (new_Connection p rt) l).1 = true)
  ∧ firstConnect (run (new_Connection p rt) l).1
    = negb (loaded (run (new_Connection p rt) l).1).
Proof.
  assert (Hrun : ∀ s, lifecycle_flags s.1 → lifecycle_flags (run s l).1).
  { induction l as [|a l IH]; intros s Hs; [done|]. cbn.
    by apply IH, perform_lifecycle_flags. }
  by apply (Hrun (new_Connection p rt)).
Qed.

End Lifecycle.

(** * The retry loops *)

Lemma loadData_from_le left i la : loadData_from left i la ≤ left.
Proof.
  revert i. induction left as [|left IH]; intros i; cbn; [done|].
  destruct (la i); [lia|]. specialize (IH (S i)). lia.
Qed.

Lemma loadData_from_first left i la k :
  (∀ j, i ≤ j < i + k → la j = false) → la (i + k) = true → k < left →
  loadData_from left i la = S k.
Proof.
  revert i k. induction left as [|left IH]; intros i k Hbefore Hat Hk; [lia|].
  cbn. destruct k as [|k].
  - rewrite Nat.add_0_r in Hat. by rewrite Hat.
  - rewrite (Hbefore i) by lia. f_equal.
    apply IH; [|by replace (S i + k) with (i + S k) by lia|lia].
    intros j Hj. apply Hbefore. lia.
Qed.

Lemma loadData_from_never left i la :
  (∀ j, i ≤ j < i + left → la j = false) → loadData_from left i la = left.
Proof.
  revert i. induction left as [|left IH]; intros i Hnever; [done|].
  cbn. rewrite (Hnever i) by lia. f_equal. apply IH. intros j Hj. apply Hnever. lia.
Qed.

(** X18: loadData calls onConnect at most ten times and not at all when
    the data is loaded already; it stops with the first call after whose
    wait the data is loaded, and makes all ten calls when that never
    happens. *)
Theorem loadData_retries_at_most_ten_times loaded_now loaded_after :
  loadData loaded_now loaded_after ≤ 10
  ∧ (loadData loaded_now loaded_after = 0 ↔ loaded_now = true)
  ∧ (∀ k, loaded_now = false → 1 ≤ k ≤ 10 →
       (∀ j, 1 ≤ j < k → loaded_after j = false) → loaded_after k = true →
       loadData loaded_now loaded_after = k)
  ∧ (loaded_now = false → (∀ j, 1 ≤ j ≤ 10 → loaded_after j = false) →
       loadData loaded_now loaded_after = 10).
Proof.
  unfold loadData. split; [|split; [|split]].
  - destruct loaded_now; [lia|apply loadData_from_le].
  - destruct loaded_now; [done|]. split; [|done].
    cbn. by destruct (loaded_after 1).
  - intros k -> Hk Hbefore Hat. destruct k as [|k]; [lia|].
    apply loadData_from_first; [|done|lia]. intros j Hj. apply Hbefore. lia.
  - intros -> Hnever. apply loadData_from_never. intros j Hj. apply Hnever. lia.
Qed.

Lemma loadData_retries_at_most_ten_times_witness :
  loadData false (λ i, Nat.leb 3 i) = 3.
Proof.
  apply (loadData_retries_at_most_ten_times false (λ i, Nat.leb 3 i)).
  - reflexivity.
  - lia.
  - intros j Hj. apply Nat.leb_gt. lia.
  - reflexivity.
Defined.

Lemma startSocket_retry n :
  S n < 30 → startSocket false false false n = (S n, Retry).
Proof.
  intros Hn. unfold startSocket. cbn [negb].
  by destruct (Nat.ltb_spec (S n) 30); [|lia].
Qed.

Lemma startSocket_calls_until k : ∀ fuel io i n,
  (∀ j, i ≤ j < i + k → io j = false) → n + k ≤ 29 → k < fuel →
  startSocket_calls fuel io i n
  = replicate k Retry
    ++ startSocket_calls (fuel - k) io (i + k) (n + k).
Proof.
  induction k as [|k IH]; intros fuel io i n Hio Hn Hfuel.
  { cbn. by rewrite Nat.sub_0_r, !Nat.add_0_r. }
  destruct fuel as [|fuel]; [lia|].
  cbn [startSocket_calls]. rewrite (Hio i) by lia.
  rewrite startSocket_retry by lia.
  cbn [replicate app]. f_equal. rewrite (IH fuel io (S i) (S n)); [|intros j Hj; apply Hio; lia|lia|lia].
  by rewrite !Nat.add_succ_r.
Qed.

(** X19: in a page without registerSocketOnLoad startSocket polls for
    the socket.io script: when the script is there at the call number k,
    for a k below 30, that call connects after k retries; when it is not
    there during the first 30 calls, the client retries 29 times, then
    raises the alert and never polls again. *)
Theorem startSocket_polls_thirty_times io fuel :
  30 ≤ fuel →
  (∀ k, k < 30 → (∀ j, j < k → io j = false) → io k = true →
     startSocket_calls fuel io 0 0 = replicate k Retry ++ [Connects])
  ∧ ((∀ j, j < 30 → io j = false) →
     startSocket_calls fuel io 0 0 = replicate 29 Retry ++ [Alerted]).
Proof.
  intros Hfuel. split.
  - intros k Hk Hbefore Hat.
    rewrite (startSocket_calls_until k); [|intros j Hj; apply Hbefore; lia|lia|lia].
    f_equal. destruct (fuel - k) as [|fuel'] eqn:Hf; [lia|].
    cbn. by rewrite Hat.
  - intros Hnever.
    rewrite (startSocket_calls_until 29); [|intros j Hj; apply Hnever; lia|lia|lia].
    f_equal. destruct (fuel - 29) as [|fuel'] eqn:Hf; [lia|].
    cbn. by rewrite (Hnever 29) by lia.
Qed.

Lemma startSocket_polls_thirty_times_witness :
  startSocket_calls 40 (λ k, Nat.leb 2 k) 0 0 = [Retry; Retry; Connects]
  ∧ startSocket_calls 40 (λ _, false) 0 0 = replicate 29 Retry ++ [Alerted].
Proof.
  split.
  - refine (proj1 (startSocket_polls_thirty_times (λ k, Nat.leb 2 k) 40 _) 2 _ _ _);
      [lia|lia| |reflexivity].
    intros j Hj. apply Nat.leb_gt. lia.
  - refine (proj2 (startSocket_polls_thirty_times (λ _, false) 40 _) _); [lia|done].
Defined.

(** * Connection handlers *)

Lemma handle_call_NoDup c x :
  NoDup (onConnectionHandlers c) → NoDup (onConnectionHandlers (handle_call c x)).
Proof.
  intros Hc. destruct x as [h|h]; cbn.
  - unfold registerConnectionHandler. case_bool_decide as Hin; [done|]. cbn.
    apply NoDup_app. split; [done|]. split; [|apply NoDup_singleton].
    by intros x Hx ->%list_elem_of_singleton.
  - by apply remove_first_NoDup.
Qed.

Lemma handle_calls_NoDup l : ∀ c,
  NoDup (onConnectionHandlers c) → NoDup (onConnectionHandlers (foldl handle_call c l)).
Proof.
  induction l as [|x l IH]; intros c Hc; [done|]. cbn.
  by apply IH, handle_call_NoDup.
Qed.

(** X20: however handlers are registered and unregistered, no handler is
    in the list twice; so a handler that is unregistered is not called at
    the next change of the connection, while a registered one is. *)
Theorem connection_handlers_are_registered_once c l h b rt :
  onConnectionHandlers c = [] →
  NoDup (onConnectionHandlers (foldl handle_call c l))
  ∧ (ConnectionCb h b
       ∈ invoked (connection_handlers b
                    (unregisterConnectionHandler h (foldl handle_call c l)) rt)
     → ConnectionCb h b ∈ invoked rt)
  ∧ ConnectionCb h b
      ∈ invoked (connection_handlers b
                   (registerConnectionHandler h (foldl handle_call c l)) rt).
Proof.
  intros Hc.
  assert (Hnd : NoDup (onConnectionHandlers (foldl handle_call c l))).
  { apply handle_calls_NoDup. rewrite Hc. apply NoDup_nil_2. }
  split; [done|]. unfold connection_handlers. cbn [invoke invoked]. split.
  - intros [Hin|Hin]%elem_of_app; [done|].
    apply list_elem_of_fmap in Hin as (cb & [= <-] & Hcb).
    cbn in Hcb. by apply remove_first_gone in Hcb.
  - apply elem_of_app. right. apply list_elem_of_fmap. exists h. split; [done|].
    unfold registerConnectionHandler. case_bool_decide as Hin; [done|]. cbn.
    apply elem_of_app. right. apply list_elem_of_here.
Qed.

Lemma connection_handlers_are_registered_once_witness :
  onConnectionHandlers offline_client = []
  ∧ NoDup (onConnectionHandlers
             (foldl handle_call offline_client
                [Register 1; Register 2; Register 1; Unregister 2])).
Proof.
  split; [reflexivity|].
  apply (connection_handlers_are_registered_once offline_client
           [Register 1; Register 2; Register 1; Unregister 2] 1 true
           offline_runtime).
  reflexivity.
Defined.

(** * The rows of getEnums *)

Lemma getEnums_rows_snoc _enum rows row :
  getEnums_rows _enum (rows ++ [row])
  = if own_row _enum row.1 then getEnums_rows _enum rows
    else <[row.1 := row.2]> (getEnums_rows _enum rows).
Proof.
  unfold getEnums_rows, own_row. rewrite foldl_snoc.
  by destruct (given _enum).
Qed.

(** X21: the record getEnums resolves with holds, for every identifier
    among the rows, the value of the last row with that identifier, and
    nothing for the object of the requested enum itself. *)
Theorem getEnums_keeps_the_last_row_of_each_id _enum rows id :
  getEnums_rows _enum rows !! id
  = if own_row _enum id then None
    else snd <$> last (filter (λ row, row.1 = id) rows).
Proof.
  induction rows as [|row rows IH] using rev_ind.
  { cbn. rewrite lookup_empty. by destruct (own_row _enum id). }
  rewrite getEnums_rows_snoc, filter_app, filter_cons, filter_nil.
  destruct (decide (row.1 = id)) as [<-|Hne].
  - destruct (own_row _enum row.1) eqn:Hown.
    + done.
    + by rewrite lookup_insert_eq, last_snoc.
  - rewrite app_nil_r. destruct (own_row _enum row.1); [done|].
    by rewrite lookup_insert_ne.
Qed.

(** * The version test of the connect handler *)










Section Versions.
Context `{Host}.






End Versions.


(** * The language step of the bootstrap *)





(** * Required features *)

(** X24: a request that requires features and passes the gates sends at
    most the check of its first feature, and that only when the feature
    is not in the cache; when the check is answered with a falsy value
    the request is rejected as not supported, when the check fails it is
    rejected with that error, and either way the executor has not run:
    nothing more is sent and no further promise is made. *)
Theorem unsupported_feature_stops_the_request o c rt f fs r :
  gate o c rt = None → requireFeatures o = f :: fs →
  match r with Returned v => truthy_value v = false | Thrown _ => True end →
  (∃ a, (request o c rt).2 = Suspended a fs)
  ∧ wire (request o c rt).1.2
    = wire rt ++ match _promises c !! ("supportedFeatures_" +:+ f) with
                 | Some _ => []
                 | None => [{| event := "checkFeatureSupported"; args := [VStr f];
                               callback := AckSettle (length (calls rt)) |}]
                 end
  ∧ resume o fs r (request o c rt).1.1 (request o c rt).1.2
    = ((request o c rt).1.1, (request o c rt).1.2,
       Done (Failed match r with
                    | Returned _ => ERRORS.NOT_SUPPORTED
                    | Thrown e => e
                    end)).
Proof.
  intros Hgate Hfeat Hr.
  assert (Hconn : connected c = true).
  { unfold gate in Hgate. destruct (connected c); [done|].
    by repeat case_match. }
  split; [by apply (request_with_features_suspends o c rt f fs)|]. split.
  - unfold request, check_from. rewrite Hgate, Hfeat.
    unfold checkFeatureSupported, request_now.
    set (check := {| cacheKey := Some ("supportedFeatures_" +:+ f) |}).
    assert (cache_key check = Some ("supportedFeatures_" +:+ f)) as Hkey
      by reflexivity.
    assert (Hg : gate check c rt
                 = match _promises c !! ("supportedFeatures_" +:+ f) with
                   | Some p => Some (Cached p)
                   | None => None
                   end).
    { unfold gate, cached. rewrite Hkey, Hconn. cbn.
      by destruct (_promises c !! _). }
    rewrite Hg.
    pose proof (construct_emitting_wire check c rt _ _ _ eq_refl) as Hwire.
    destruct (_promises c !! _) as [p|]; cbn [fst snd]; [by rewrite app_nil_r|].
    by destruct (construct check c rt) as [[c' rt'] p'].
  - unfold resume. destruct r as [v|e]; [by rewrite Hr|done].
Qed.

Lemma unsupported_feature_stops_the_request_witness :
  gate needs_feature online_client offline_runtime = None
  ∧ wire (request needs_feature online_client offline_runtime).1.2
    = [{| event := "checkFeatureSupported"; args := [VStr "CONTROLLER_OS"];
          callback := AckSettle 1 |}].
Proof.
  split; [reflexivity|].
  apply (unsupported_feature_stops_the_request needs_feature online_client
           offline_runtime "CONTROLLER_OS" [] (Returned (VBool false)));
    reflexivity.
Defined.

(** * Unsubscribing while disconnected *)

Lemma elem_of_keys id (subs : gmap string SubscribeEntry) :
  id ∈ keys subs ↔ is_Some (subs !! id).
Proof.
  unfold keys. rewrite list_elem_of_fmap. split.
  - intros ([k e] & -> & Hin%elem_of_map_to_list). by exists e.
  - intros [e He]. exists (id, e). split; [done|]. by apply elem_of_map_to_list.
Qed.

Lemma on_reconnect_wire c rt :
  waitForRestart c = false → subscribed c = false →
  wire (on_reconnect c rt).2 = wire rt ++ resubscription c.
Proof.
  intros Hrestart Hsub.
  unfold on_reconnect, _subscribe, progress, resubscription. cbn.
  rewrite Hrestart, Hsub. cbn. by destruct (onProgress (props c)).
Qed.

(** X25: when the last callback of a pattern is unsubscribed while the
    client is disconnected, the two registries part ways at the next
    reconnect: the object pattern, whose entry is kept without
    callbacks, is subscribed at the server again, the state pattern is
    not. *)
Theorem offline_unsubscribe_is_resubscribed_for_objects_only id cb c rt e :
  connected c = false → subscribed c = false → waitForRestart c = false →
  cbs e = [cb] →
  (objectsSubscribes c !! id = Some e →
   ∃ es, wire (on_reconnect (unsubscribeObject id (Some cb) c rt).1
                            (unsubscribeObject id (Some cb) c rt).2).2
         = wire rt ++ es
     ∧ notify "subscribeObjects" id ∈ es
     ∧ cbs <$> objectsSubscribes (unsubscribeObject id (Some cb) c rt).1 !! id
       = Some [])
  ∧ (statesSubscribes c !! id = Some e →
     ∃ es, wire (on_reconnect (unsubscribeState id (Some cb) c rt).1
                              (unsubscribeState id (Some cb) c rt).2).2
           = wire rt ++ es
       ∧ notify "subscribe" id ∉ es).
Proof.
  intros Hconn Hsub Hrestart Hcbs. split; intros He.
  - assert (Hun : unsubscribeObject id (Some cb) c rt
      = (set_objectsSubscribes <[id := {| reg := reg e; cbs := [] |}]> c, rt)).
    { unfold unsubscribeObject. rewrite He, Hcbs. cbn.
      rewrite bool_decide_eq_true_2 by done. by rewrite Hconn. }
    rewrite Hun. cbn [fst snd].
    eexists. split; [by apply on_reconnect_wire|].
    split; [|cbn; by rewrite lookup_insert_eq].
    unfold resubscription. rewrite !elem_of_app. right. left.
    apply list_elem_of_fmap. exists id. split; [done|].
    apply elem_of_keys. cbn. rewrite lookup_insert_eq. by eexists.
  - assert (Hun : unsubscribeState id (Some cb) c rt
      = (set_statesSubscribes (delete id) c, rt)).
    { unfold unsubscribeState. rewrite He, Hcbs. cbn.
      rewrite bool_decide_eq_true_2 by done. by rewrite Hconn. }
    rewrite Hun. cbn [fst snd].
    eexists. split; [by apply on_reconnect_wire|].
    unfold resubscription. rewrite !elem_of_app.
    intros [Hin|[Hin|[Hin|Hin]]].
    + by apply list_elem_of_fmap in Hin as (x & [=] & _).
    + by apply list_elem_of_fmap in Hin as (x & [=] & _).
    + destruct (autoSubscribeLog _); [|by apply elem_of_nil in Hin].
      by apply list_elem_of_singleton in Hin.
    + apply list_elem_of_fmap in Hin as (x & [= <-] & Hx).
      apply elem_of_keys in Hx. cbn in Hx. rewrite lookup_delete_eq in Hx.
      by destruct Hx.
Qed.

Lemma offline_unsubscribe_is_resubscribed_for_objects_only_witness :
  ∃ es, wire (on_reconnect (unsubscribeObject "lamp.*" (Some 7) offline_watcher
                              offline_runtime).1
                           (unsubscribeObject "lamp.*" (Some 7) offline_watcher
                              offline_runtime).2).2
        = wire offline_runtime ++ es
    ∧ notify "subscribeObjects" "lamp.*" ∈ es
    ∧ cbs <$> objectsSubscribes (unsubscribeObject "lamp.*" (Some 7) offline_watcher
                                   offline_runtime).1 !! "lamp.*"
      = Some [].
Proof.
  apply (offline_unsubscribe_is_resubscribed_for_objects_only "lamp.*" 7
           offline_watcher offline_runtime {| reg := λ _, true; cbs := [7] |});
    reflexivity.
Defined.

(** * The redirect to the login page *)

Lemma starts_with_app p s : starts_with p (p +:+ s) = true.
Proof.
  induction p as [|a p IH]; [done|].
  change (String a p +:+ s) with (String a (p +:+ s)). cbn [starts_with].
  by rewrite Ascii.eqb_refl, IH.
Qed.

Lemma str_includes_here needle s : str_includes needle (needle +:+ s) = true.
Proof.
  destruct needle as [|a n]; [by destruct s|].
  change (String a n +:+ s) with (String a (n +:+ s)).
  cbn [str_includes]. change (String a (n +:+ s)) with (String a n +:+ s).
  by rewrite starts_with_app.
Qed.

Lemma str_includes_later needle pre s :
  str_includes needle s = true → str_includes needle (pre +:+ s) = true.
Proof.
  intros Hs. induction pre as [|a pre IH]; [done|].
  change (String a pre +:+ s) with (String a (pre +:+ s)).
  cbn [str_includes]. rewrite IH. apply orb_true_r.
Qed.

Lemma str_includes_earlier needle s suf :
  str_includes needle s = true → str_includes needle (s +:+ suf) = true.
Proof.
  assert (Hstart : ∀ p t, starts_with p t = true → starts_with p (t +:+ suf) = true).
  { induction p as [|a p IH]; intros [|b t]; try done.
    change (String b t +:+ suf) with (String b (t +:+ suf)). cbn [starts_with].
    intros [-> Ht]%andb_prop. by rewrite (IH _ Ht). }
  induction s as [|a s IH]; intros Hs.
  - destruct needle; [by destruct suf|done].
  - change (String a s +:+ suf) with (String a (s +:+ suf)).
    cbn [str_includes] in *. apply orb_prop in Hs as [Hs|Hs].
    + change (String a (s +:+ suf)) with (String a s +:+ suf).
      rewrite (Hstart _ _ Hs). apply orb_true_l.
    + rewrite (IH Hs). apply orb_true_r.
Qed.

(** X26: the address authenticate assigns to the window always contains
    the marker of the login redirect, whether the query of the page had
    it before or not. *)
Theorem authenticate_always_marks_the_redirect l :
  str_includes "&href=" (authenticate l) = true.
Proof.
  unfold authenticate. destruct (str_includes "&href=" (search l)) eqn:Hs.
  - do 4 apply str_includes_later. by apply str_includes_earlier.
  - do 4 apply str_includes_later.
    change ("?login&href=" +:+ search l +:+ hash l)
      with ("?login" +:+ "&href=" +:+ search l +:+ hash l).
    apply str_includes_later, str_includes_here.
Qed.

Lemma reachable_clients_keep_the_lifecycle_flags_witness :
  connected (run (H := fragment_host) (new_Connection no_props (page false))
               [Authenticated true false]).1 = true.
Proof.
  refine (proj1 (reachable_clients_keep_the_lifecycle_flags (H := fragment_host)
                   no_props (page false) [Authenticated true false]) _).
  reflexivity.
Defined.

(** * Subscriptions after a reconnect *)

Section Reconnect.
Context `{Host}.

Lemma sent_app ev id es es' :
  sent ev id (es ++ es') = sent ev id es + sent ev id es'.
Proof. unfold sent. by rewrite filter_app, length_app. Qed.

Lemma sent_notifies ev ev' id l :
  sent ev id (notify ev' <$> l)
  = if bool_decide (ev' = ev) then occurrences id l else 0.
Proof.
  unfold sent, occurrences, is_notify.
  induction l as [|x l IH]; [by case_bool_decide|].
  rewrite fmap_cons, !filter_cons. cbn [event args notify].
  destruct (decide (ev' = ev)) as [Hev|Hev];
    [rewrite (bool_decide_eq_true_2 _ Hev) in *
    |rewrite (bool_decide_eq_false_2 _ Hev) in *];
    (destruct (decide (x = id)) as [Hx|Hx];
     [rewrite (bool_decide_eq_true_2 _ Hx)|rewrite (bool_decide_eq_false_2 _ Hx)]);
    cbn [andb]; rewrite ?decide_True by done; rewrite ?decide_False by done;
    cbn [length]; by rewrite ?IH.
Qed.

Lemma sent_other ev id es :
  Forall (λ e, event e ≠ ev) es → sent ev id es = 0.
Proof.
  unfold sent, is_notify. induction 1 as [|e es He Hes IH]; [done|].
  rewrite filter_cons, bool_decide_eq_false_2 by done.
  by rewrite decide_False by done.
Qed.

Lemma occurrences_NoDup id l :
  NoDup l → occurrences id l = if bool_decide (id ∈ l) then 1 else 0.
Proof.
  unfold occurrences. induction 1 as [|x l Hx Hl IH].
  { rewrite bool_decide_eq_false_2; [done|apply not_elem_of_nil]. }
  rewrite filter_cons. destruct (decide (x = id)) as [->|Hne]; cbn [length].
  - rewrite IH, (bool_decide_eq_false_2 (id ∈ l)) by done.
    by rewrite bool_decide_eq_true_2 by apply list_elem_of_here.
  - rewrite IH. destruct (decide (id ∈ l)) as [Hin|Hin].
    + rewrite !bool_decide_eq_true_2; [done|by apply list_elem_of_further|done].
    + rewrite !bool_decide_eq_false_2; [done| |done].
      intros [->|?]%elem_of_cons; done.
Qed.

Lemma occurrences_keys id (subs : gmap string SubscribeEntry) :
  occurrences id (keys subs)
  = if bool_decide (is_Some (subs !! id)) then 1 else 0.
Proof.
  rewrite occurrences_NoDup by apply NoDup_fst_map_to_list.
  apply f_equal with (f := λ b : bool, if b then 1 else 0).
  apply bool_decide_ext. unfold keys. rewrite list_elem_of_fmap. split.
  - intros ([k e] & -> & Hin%elem_of_map_to_list). by exists e.
  - intros [e He]. exists (id, e). split; [done|]. by apply elem_of_map_to_list.
Qed.

(** What a request whose executor sends one event puts on the wire. *)
Lemma request_wire o c rt ev xs k :
  executor o = emitting ev xs k → requireFeatures o = [] →
  ∃ es, wire (request o c rt).1.2 = wire rt ++ es
        ∧ Forall (λ e, event e = ev) es.
Proof.
  intros Hex Hfeat. unfold request. rewrite Hfeat.
  destruct (gate o c rt).
  { exists []. by rewrite app_nil_r. }
  pose proof (construct_emitting_wire o c rt ev xs k Hex) as Hw.
  destruct (construct o c rt) as [[c' rt'] p]. cbn [fst snd] in *.
  eexists. split; [exact Hw|]. by repeat constructor.
Qed.

Lemma loadData_begins_wire c rt :
  ∃ es, wire (loadData_begins c rt).2 = wire rt ++ es
        ∧ Forall (λ e, event e ≠ "subscribe" ∧ event e ≠ "subscribeObjects") es.
Proof.
  assert (Hnone : ∃ es, wire rt = wire rt ++ es
    ∧ Forall (λ e, event e ≠ "subscribe" ∧ event e ≠ "subscribeObjects") es).
  { exists []. by rewrite app_nil_r. }
  assert (Hmono : ∀ ev es, ev ≠ "subscribe" → ev ≠ "subscribeObjects" →
            Forall (λ e : emit, event e = ev) es →
            Forall (λ e, event e ≠ "subscribe" ∧ event e ≠ "subscribeObjects") es).
  { intros ev es H1 H2 Hes. eapply Forall_impl; [exact Hes|]. by intros e ->. }
  unfold loadData_begins, onConnect. destruct (loaded c); [done|].
  destruct (this_doNotLoadACL c).
  - destruct (admin5only (props c) && negb (isWeb (invoke [LoadData] rt))).
    + destruct (request_wire (getCompactSystemConfig_options false) c
                  (invoke [LoadData] rt) _ _ _ eq_refl eq_refl) as (es & Hw & Hes).
      unfold getCompactSystemConfig.
      destruct (request _ c _) as [[c' rt'] e]. cbn [fst snd] in *.
      exists es. split; [done|]. by apply (Hmono "getCompactSystemConfig").
    + unfold getSystemConfig.
      destruct (gate _ c _); [done|].
      assert (Hc : wire (construct (getSystemConfig_options false) c
                           (invoke [LoadData] rt)).1.2 = wire rt)
        by (unfold construct; by cbn).
      destruct (construct _ c _) as [[c1 rt1] p]. cbn [fst snd] in Hc.
      destruct (request_wire (untimed (emitting "getObject"
                                          [VStr "system.config"] AckSettle))
                  c1 rt1 _ _ _ eq_refl eq_refl) as (es & Hw & Hes).
      unfold getObject.
      destruct (request _ c1 rt1) as [[c2 rt2] e]. cbn [fst snd] in *.
      exists es. rewrite Hw, Hc. split; [done|]. by apply (Hmono "getObject").
  - eexists. split; [reflexivity|]. by repeat constructor.
Qed.

(** X9: when no restart is awaited, a disconnect followed by a
    reconnect sends one subscribe event for every registered state
    pattern and none for any other, and one subscribeObjects event for
    every registered object pattern and for every automatic subscription;
    the authentication that follows sends no further subscribe or
    subscribeObjects event. *)
Theorem reconnect_resubscribes_once isOk sec c rt :
  waitForRestart c = false →
  ∃ es es',
    wire (on_reconnect (on_disconnect c rt).1 (on_disconnect c rt).2).2
      = wire rt ++ es
    ∧ (∀ id, sent "subscribe" id es
             = if bool_decide (is_Some (statesSubscribes c !! id)) then 1 else 0)
    ∧ (∀ id, sent "subscribeObjects" id es
             = (if bool_decide (is_Some (objectsSubscribes c !! id)) then 1 else 0)
               + occurrences id (autoSubscribes (props c)))
    ∧ wire (onPreConnect isOk sec
              (on_reconnect (on_disconnect c rt).1 (on_disconnect c rt).2).1
              (on_reconnect (on_disconnect c rt).1 (on_disconnect c rt).2).2).2
      = wire rt ++ es ++ es'
    ∧ Forall (λ e, event e ≠ "subscribe" ∧ event e ≠ "subscribeObjects") es'.
Proof.
  intros Hrestart.
  assert (Hre : ∃ rt2,
    on_reconnect (on_disconnect c rt).1 (on_disconnect c rt).2
    = (set_subscribed true (set_connected true
         (set_subscribed false (set_connected false c))), rt2)
    ∧ wire rt2 = wire rt ++ resubscription c).
  { eexists. unfold on_reconnect, on_disconnect, _subscribe. cbn.
    rewrite Hrestart. cbn. split; [reflexivity|].
    unfold progress, resubscription. cbn. by destruct (onProgress (props c)). }
  destruct Hre as (rt2 & -> & Hw2). cbn [fst snd].
  set (c2 := set_subscribed true _).
  assert (Hpre : ∃ es', wire (onPreConnect isOk sec c2 rt2).2 = wire rt2 ++ es'
    ∧ Forall (λ e, event e ≠ "subscribe" ∧ event e ≠ "subscribeObjects") es').
  { unfold onPreConnect. cbv zeta.
    set (c3 := set_isSecure sec _).
    assert (Hc3 : waitForRestart c3 = false ∧ subscribed c3 = true)
      by (unfold c3, c2; by destruct (_authTimer _)).
    destruct Hc3 as [Hr3 Hs3]. clearbody c3. rewrite Hr3.
    assert (Hl : ∃ es', wire (if firstConnect c3 then loadData_begins c3 rt2
                              else (c3, progress READY c3 rt2)).2 = wire rt2 ++ es'
      ∧ Forall (λ e, event e ≠ "subscribe" ∧ event e ≠ "subscribeObjects") es'
      ∧ subscribed (if firstConnect c3 then loadData_begins c3 rt2
                    else (c3, progress READY c3 rt2)).1 = true).
    { destruct (firstConnect c3).
      - destruct (loadData_begins_wire c3 rt2) as (es' & Hw & Hes).
        destruct (loadData_begins_client c3 rt2) as [m Hm].
        exists es'. split; [done|]. split; [done|]. by rewrite Hm.
      - exists []. rewrite app_nil_r. split; [|done].
        unfold progress. by destruct (onProgress _). }
    destruct Hl as (es' & Hw & Hes & Hsub).
    destruct (if firstConnect c3 then _ else _) as [c4 rt4]. cbn [fst snd] in *.
    exists es'. split; [|done]. unfold _subscribe. rewrite Hsub. cbn.
    destruct (_waitForFirstConnectionResolve c4); cbn; [|done].
    unfold resolve. by rewrite (proj1 (settle_frame _ _ _)). }
  destruct Hpre as (es' & Hw' & Hes').
  assert (Hlog : ∀ id ev, ev = "subscribe" ∨ ev = "subscribeObjects" →
            sent ev id (if autoSubscribeLog (props c)
                        then [requireLog_event true] else []) = 0).
  { intros id ev Hev. apply sent_other.
    destruct (autoSubscribeLog _); repeat constructor.
    cbn. by destruct Hev as [-> | ->]. }
  exists (resubscription c), es'. split; [done|].
  split; [|split; [|split]].
  - intros id. unfold resubscription.
    rewrite !sent_app, !sent_notifies.
    rewrite (Hlog id "subscribe") by (by left).
    rewrite (bool_decide_eq_false_2 ("subscribeObjects" = "subscribe")) by done.
    rewrite (bool_decide_eq_true_2 ("subscribe" = "subscribe")) by done.
    by rewrite occurrences_keys.
  - intros id. unfold resubscription.
    rewrite !sent_app, !sent_notifies.
    rewrite (Hlog id "subscribeObjects") by (by right).
    rewrite (bool_decide_eq_false_2 ("subscribe" = "subscribeObjects")) by done.
    rewrite (bool_decide_eq_true_2 ("subscribeObjects" = "subscribeObjects"))
      by done.
    rewrite occurrences_keys. lia.
  - by rewrite Hw', Hw2, <- app_assoc.
  - exact Hes'.
Qed.

End Reconnect.

Lemma reconnect_resubscribes_once_witness :
  waitForRestart state_watching_client = false
  ∧ ∃ es es',
      wire (on_reconnect (on_disconnect state_watching_client offline_runtime).1
                         (on_disconnect state_watching_client offline_runtime).2).2
        = wire offline_runtime ++ es
      ∧ (∀ id, sent "subscribe" id es
               = if bool_decide (is_Some (statesSubscribes state_watching_client !! id))
                 then 1 else 0)
      ∧ (∀ id, sent "subscribeObjects" id es
               = (if bool_decide
                       (is_Some (objectsSubscribes state_watching_client !! id))
                  then 1 else 0)
                 + occurrences id (autoSubscribes (props state_watching_client)))
      ∧ wire (onPreConnect true false
                (on_reconnect (on_disconnect state_watching_client offline_runtime).1
                   (on_disconnect state_watching_client offline_runtime).2).1
                (on_reconnect (on_disconnect state_watching_client offline_runtime).1
                   (on_disconnect state_watching_client offline_runtime).2).2).2
        = wire offline_runtime ++ es ++ es'
      ∧ Forall (λ e, event e ≠ "subscribe" ∧ event e ≠ "subscribeObjects") es'.
Proof.
  split; [reflexivity|].
  apply (reconnect_resubscribes_once true false state_watching_client
           offline_runtime).
  reflexivity.
Defined.

